(** * pyms: a terminal music player -- layout engine, track selector,
      display state and playback coordinator

    The development embeds [pyms.py] shallowly.  Python values are
    modelled as follows.

    - [str] is a list of Unicode code points ([pystr]); [len] counts code
      points, as Python does.
    - [int] is [Z].
    - [float] is IEEE-754 binary64, given by the Standard Library's
      executable specification [spec_float] with [prec = 53] and
      [emax = 1024]; every arithmetic operation rounds to nearest, ties to
      even, exactly as the hardware does.
    - exceptions are an error type [exn]; a function that may raise returns
      [Result].
    - the module globals [i_lines] and [m_file], the pygame mixer and the
      terminal are fields of an explicit [World] threaded through the
      handlers; what the operating system, mutagen and the random source
      supply is a parameter ([FileSystem], [Env], [draw]).

    The three loops ([keyboard_listener], [infinite_queue],
    [poll_interface]) are modelled by their bodies: one function per
    recognised key, per end-of-track event and per tick.
    [keyboard_listener] is also modelled as a whole, as a fold over the key
    events that arrive, with its press/release counter; [poll_interface]
    as a number of ticks; [main] up to the point where it starts the
    threads.  How the threads interleave, how signals are delivered and
    what [exit_gracefully] does to the terminal are outside the model.

    [redraw] and the metadata lookup are modelled where they succeed: a
    process without a terminal, a title that cannot be encoded for the
    terminal and a file that mutagen cannot read are outside the model.
    The theorems are stated accordingly: about a handler that ends in
    [redraw] they give the state it leaves, and its output only for the
    case that it returns; about the refresh computations they name, in
    their hypotheses, the values that mutagen and the mixer reported. *)

From Stdlib Require Import ZArith List Bool Lia String Ascii Decimal.
From Stdlib Require Import SpecFloat.
From stdpp Require Import base list.
Import ListNotations.
Local Open Scope Z_scope.

(** ** Exceptions *)

Inductive exn : Type :=
  | ZeroDivisionError
  | OverflowError
  | ValueError
  | IndexError
  | PygameError.

Inductive Result (A : Type) : Type :=
  | Ok (a : A)
  | Raise (e : exn).
Arguments Ok {A} a.
Arguments Raise {A} e.

#[global] Instance Result_ret : MRet Result := fun A a => Ok a.

#[global] Instance Result_bind : MBind Result := fun A B k r =>
  match r with
  | Ok a => k a
  | Raise e => Raise e
  end.

(** ** Python strings *)

Module PyStr.

Definition char := Z.
Definition pystr := list char.

(** An ASCII literal, code point by code point. *)
Fixpoint lit (s : string) : pystr :=
  match s with
  | EmptyString => []
  | String a r => Z.of_nat (nat_of_ascii a) :: lit r
  end.

Definition SPACE : char := 32.
Definition NEWLINE : char := 10.
Definition SLASH : char := 47.
Definition PERCENT : char := 37.
Definition MINUS : char := 45.
(** U+2588 FULL BLOCK, U+2591 LIGHT SHADE, U+2584 LOWER HALF BLOCK,
    U+2580 UPPER HALF BLOCK. *)
Definition FULL_BLOCK : char := 9608.
Definition LIGHT_SHADE : char := 9617.
Definition LOWER_HALF : char := 9604.
Definition UPPER_HALF : char := 9600.

(** [len], for strings and lists alike. *)
Definition len {A : Type} (s : list A) : Z := Z.of_nat (length s).

(** [s * n]: a count that is zero or negative gives the empty string. *)
Definition mul (s : pystr) (n : Z) : pystr :=
  concat (replicate (Z.to_nat n) s).

Definition char_eqb (a b : char) : bool := a =? b.

Fixpoint eqb (s t : pystr) : bool :=
  match s, t with
  | [], [] => true
  | a :: s', b :: t' => char_eqb a b && eqb s' t'
  | _, _ => false
  end.

(** [s[:k]]: a negative bound counts from the end, and every bound is
    clipped to the string. *)
Definition slice_to (s : pystr) (k : Z) : pystr :=
  if 0 <=? k then take (Z.to_nat k) s
  else take (Z.to_nat (len s + k)) s.

(** [s[a:b]] and [s[a:]] for the non-negative constant bounds used by the
    transport-symbol splice. *)
Definition slice (s : pystr) (a b : nat) : pystr := take (b - a) (drop a s).
Definition slice_from (s : pystr) (a : nat) : pystr := drop a s.

Definition startswith (s p : pystr) : bool :=
  eqb (take (length p) s) p.

Definition endswith (s suffix : pystr) : bool :=
  (length suffix <=? length s)%nat
  && eqb (drop (length s - length suffix) s) suffix.

(** CPython's [pad]: [left] fill characters, the string, [right] fill
    characters; negative amounts count as zero. *)
Definition pad (s : pystr) (left right : Z) : pystr :=
  replicate (Z.to_nat left) SPACE ++ s ++ replicate (Z.to_nat right) SPACE.

(** [str.center]: [marg = width - len]; [left = marg/2 + (marg & width & 1)];
    a string already as long as [width] is returned unchanged. *)
Definition center (s : pystr) (width : Z) : pystr :=
  if width <=? len s then s
  else
    let marg := width - len s in
    let left := marg / 2 + Z.land (Z.land marg width) 1 in
    pad s left (marg - left).

Definition ljust (s : pystr) (width : Z) : pystr :=
  if width <=? len s then s else pad s 0 (width - len s).

Definition rjust (s : pystr) (width : Z) : pystr :=
  if width <=? len s then s else pad s (width - len s) 0.

(** [sep in s] for a one-character [sep]. *)
Definition contains (c : char) (s : pystr) : bool :=
  existsb (char_eqb c) s.

(** [s.split(sep)] for a one-character separator: always at least one
    piece. *)
Fixpoint split (sep : char) (s : pystr) : list pystr :=
  match s with
  | [] => [[]]
  | c :: r =>
      if char_eqb c sep then [] :: split sep r
      else match split sep r with
           | h :: t => (c :: h) :: t
           | [] => [[c]]
           end
  end.

(** [sep.join(words)]. *)
Fixpoint join (sep : char) (words : list pystr) : pystr :=
  match words with
  | [] => []
  | [w] => w
  | w :: ws => w ++ sep :: join sep ws
  end.

Definition digit (d : Z) : char := 48 + d.

Fixpoint of_uint (d : Decimal.uint) : pystr :=
  match d with
  | Nil => []
  | D0 r => digit 0 :: of_uint r
  | D1 r => digit 1 :: of_uint r
  | D2 r => digit 2 :: of_uint r
  | D3 r => digit 3 :: of_uint r
  | D4 r => digit 4 :: of_uint r
  | D5 r => digit 5 :: of_uint r
  | D6 r => digit 6 :: of_uint r
  | D7 r => digit 7 :: of_uint r
  | D8 r => digit 8 :: of_uint r
  | D9 r => digit 9 :: of_uint r
  end.

(** The decimal digits of a natural number, without sign. *)
Definition digits (n : Z) : pystr := of_uint (N.to_uint (Z.to_N n)).

(** [str(n)] for an [int]. *)
Definition of_int (n : Z) : pystr :=
  if n <? 0 then MINUS :: digits (- n) else digits n.

(** ["{:02d}".format(n)]: sign-aware zero padding to width 2. *)
Definition format_02d (n : Z) : pystr :=
  if n <? 0 then
    MINUS :: replicate (Z.to_nat (1 - len (digits (- n)))) (digit 0)
             ++ digits (- n)
  else
    replicate (Z.to_nat (2 - len (digits n))) (digit 0) ++ digits n.

End PyStr.

Export PyStr.

(** ** Python floats: IEEE-754 binary64 *)

Module PyFloat.

Definition prec : Z := 53.
Definition emax : Z := 1024.

Definition float := spec_float.

Definition fmul : float -> float -> float := SFmul prec emax.
Definition fdiv : float -> float -> float := SFdiv prec emax.
Definition fadd : float -> float -> float := SFadd prec emax.
Definition fsub : float -> float -> float := SFsub prec emax.
Definition fleb : float -> float -> bool := SFleb.
Definition fltb : float -> float -> bool := SFltb.

(** Every Python float is a canonical binary64 value. *)
Definition valid (x : float) : Prop := valid_binary prec emax x = true.

(** An integer as an unrounded operand of a correctly rounded
    operation. *)
Definition raw (n : Z) : float :=
  match n with
  | Z0 => S754_zero false
  | Zpos p => S754_finite false p 0
  | Zneg p => S754_finite true p 0
  end.

(** The binary64 value nearest to [n / d] ([d <> 0]): what a decimal
    literal denotes, and what [int / int] evaluates to. *)
Definition of_ratio (n d : Z) : float := fdiv (raw n) (raw d).

(** [float(n)], the conversion applied to an [int] operand of a mixed
    operation; it overflows beyond the binary64 range. *)
Definition of_int (n : Z) : Result float :=
  match binary_normalize prec emax n 0 false with
  | S754_infinity _ => Raise OverflowError
  | x => Ok x
  end.

(** [a / b] on two [int]s. *)
Definition int_truediv (a b : Z) : Result float :=
  if b =? 0 then Raise ZeroDivisionError
  else match of_ratio a b with
       | S754_infinity _ => Raise OverflowError
       | x => Ok x
       end.

(** [x * n] with [x] a float and [n] an [int]. *)
Definition mul_int (x : float) (n : Z) : Result float :=
  y ← of_int n; Ok (fmul x y).

(** [int(x)]: truncation toward zero.  A finite float is
    [(-1)^s * m * 2^e]; shifting the mantissa by [e] (to the right when
    [e] is negative) drops the fractional bits. *)
Definition to_int (x : float) : Result Z :=
  match x with
  | S754_zero _ => Ok 0
  | S754_finite s m e => Ok (cond_Zopp s (Z.shiftl (Zpos m) e))
  | S754_infinity _ => Raise OverflowError
  | S754_nan => Raise ValueError
  end.

(** The mathematical floor of a finite float (0 for the others). *)
Definition floor (x : float) : Z :=
  match x with
  | S754_finite s m e => Z.shiftl (cond_Zopp s (Zpos m)) e
  | _ => 0
  end.

(** The integer nearest to [n * 2^e], ties to even. *)
Definition nearest_even (n e : Z) : Z :=
  if 0 <=? e then n * 2 ^ e
  else
    let d := 2 ^ (- e) in
    let q := n / d in
    match (2 * (n mod d)) ?= d with
    | Lt => q
    | Gt => q + 1
    | Eq => if Z.even q then q else q + 1
    end.

(** [round(x, ndigits)] for [ndigits >= 0]: the decimal with [ndigits]
    places nearest to the exact value of [x] (ties to even), converted
    back to the nearest float; the sign of [x] is kept, and zeros,
    infinities and NaN round to themselves. *)
Definition round (x : float) (ndigits : nat) : float :=
  match x with
  | S754_finite s m e =>
      let scale := 10 ^ Z.of_nat ndigits in
      let r := of_ratio (nearest_even (Zpos m * scale) e) scale in
      if s then SFopp r else r
  | _ => x
  end.

Definition zero : float := S754_zero false.
Definition one : float := of_ratio 1 1.

(** [0.0 <= x <= 1.0]. *)
Definition in_unit (x : float) : bool := fleb zero x && fleb x one.

End PyFloat.

Import PyFloat.

(** ** The program *)

(** *** Module constants *)

Definition box_width : Z := 46.

Definition DisplayLine : Type := pystr * bool.

(** The block art of the source, written with [#] for U+2588 FULL BLOCK. *)
Fixpoint art (s : string) : pystr :=
  match s with
  | EmptyString => []
  | String a r =>
      (if Ascii.eqb a "#" then FULL_BLOCK else Z.of_nat (nat_of_ascii a))
        :: art r
  end.

(** The module-level value of [i_lines]: ten slots.  [main] prepends the
    title line, which moves the three glyph rows to slots 6, 7 and 8. *)
Definition i_lines_init : list DisplayLine :=
  [ ([], true);
    (PyStr.mul [LIGHT_SHADE] box_width, true);
    ([], true);
    (lit "00:00 " ++ PyStr.mul [SPACE] (box_width - 12) ++ lit " 00:00", true);
    ([], true);
    (art "######    ##  ##                ##      # ####", true);
    (art "######    ##  ##    ######    ######      ##  ", true);
    (art "######    ##  ##                ##      #### #", true);
    ([], true);
    (lit "escape    pause       F8        F9      pg_dwn", true) ].

Definition play1 : pystr := [FULL_BLOCK; FULL_BLOCK; LOWER_HALF; LOWER_HALF; SPACE; SPACE].
Definition play2 : pystr := PyStr.mul [FULL_BLOCK] 6.
Definition play3 : pystr := [FULL_BLOCK; FULL_BLOCK; UPPER_HALF; UPPER_HALF; SPACE; SPACE].

Definition paus1 : pystr := [FULL_BLOCK; FULL_BLOCK; SPACE; SPACE; FULL_BLOCK; FULL_BLOCK].
Definition paus2 : pystr := paus1.
Definition paus3 : pystr := paus1.

(** *** Display state *)

(** [l[i]] for a non-negative index. *)
Definition getitem {A : Type} (l : list A) (i : nat) : Result A :=
  match l !! i with
  | Some x => Ok x
  | None => Raise IndexError
  end.

(** [l[i] = x] for a non-negative index. *)
Definition setitem {A : Type} (l : list A) (i : nat) (x : A) : Result (list A) :=
  if (i <? length l)%nat then Ok (<[i := x]> l) else Raise IndexError.

(** The splice shared by [pause_symbol] and [play_symbol]: the three rows
    are read first, then the three slots are assigned. *)
Definition splice_symbol (s1 s2 s3 : pystr) (i_lines : list DisplayLine)
  : Result (list DisplayLine) :=
  r6 ← getitem i_lines 6;
  let line1 := slice r6.1 0 10 ++ s1 ++ slice_from r6.1 16 in
  r7 ← getitem i_lines 7;
  let line2 := slice r7.1 0 10 ++ s2 ++ slice_from r7.1 16 in
  r8 ← getitem i_lines 8;
  let line3 := slice r8.1 0 10 ++ s3 ++ slice_from r8.1 16 in
  l ← setitem i_lines 6 (line1, true);
  l ← setitem l 7 (line2, true);
  setitem l 8 (line3, true).

Definition pause_symbol : list DisplayLine -> Result (list DisplayLine) :=
  splice_symbol paus1 paus2 paus3.

Definition play_symbol : list DisplayLine -> Result (list DisplayLine) :=
  splice_symbol play1 play2 play3.

(** *** Track selector *)

Definition strip_path_from_filename (path : pystr) : pystr :=
  if contains SLASH path then List.last (split SLASH path) []
  else path.

(** The directory listing and the working directory come from the
    operating system. *)
Record FileSystem : Type := {
  listdir : pystr -> list pystr;
  getcwd : pystr
}.

Definition strip_filename_from_path (fs : FileSystem) (path : pystr) : pystr :=
  if negb (contains SLASH path) then getcwd fs
  else
    let words := split SLASH path in
    let words := removelast words in
    let new_path := join SLASH words in
    new_path ++ [SLASH].

(** [os.path.join(a, b)] on POSIX. *)
Definition path_join (a b : pystr) : pystr :=
  if startswith b [SLASH] then b
  else if PyStr.eqb a [] || endswith a [SLASH] then a ++ b
  else a ++ SLASH :: b.

(** [random.choice(seq)]: [IndexError] on an empty sequence, otherwise the
    element at the index drawn below [len(seq)]; [draw] is what the random
    source yields. *)
Definition random_choice {A : Type} (draw : nat) (seq : list A) : Result A :=
  match seq with
  | [] => Raise IndexError
  | _ => getitem seq (draw mod length seq)
  end.

Definition is_music_file (file : pystr) : bool :=
  endswith file (lit ".mp3") || endswith file (lit ".wav")
  || endswith file (lit ".ogg").

Definition music_files (files : list pystr) (old_filename : pystr) : list pystr :=
  List.filter (fun file => is_music_file file && negb (PyStr.eqb file old_filename))
    files.

(** [except IndexError or ValueError] evaluates to [except IndexError]. *)
Definition random_file (fs : FileSystem) (draw : nat) (path : pystr) : Result pystr :=
  let old_filename := strip_path_from_filename path in
  let stripped_path := strip_filename_from_path fs path in
  let files := listdir fs stripped_path in
  match random_choice draw (music_files files old_filename) with
  | Ok file => Ok (path_join stripped_path file)
  | Raise IndexError => Raise PygameError
  | Raise e => Raise e
  end.

(** *** Layout engine *)

Record TerminalFrame : Type := { columns : Z; lines : Z }.

Definition term : pystr := lit "...".

(** [int(n / 2)] for an [int] [n]: the true division is exact in binary64
    whenever [|n| < 2^53] (see [int_half_float]), so the result is the
    quotient truncated toward zero. *)
Definition int_half (n : Z) : Z := Z.quot n 2.

(** Shorten the line if it is too long. *)
Definition shorten (line : pystr) (width : Z) : pystr :=
  if Z.min box_width width <? len line
  then slice_to line (Z.min box_width width - len term) ++ term
  else line.

(** One iteration of the body loop of [interface], without the newline. *)
Definition format_line (width : Z) (tupl : DisplayLine) : pystr :=
  let line := shorten tupl.1 width in
  let formatted_line :=
    if tupl.2 then center line (Z.min box_width width)
    else ljust line (Z.min box_width width) in
  center formatted_line width.

Definition interface (i_lines : list DisplayLine) (size : TerminalFrame) : pystr :=
  let width := columns size in
  let height := lines size in
  let string := PyStr.mul [NEWLINE] (int_half height - int_half (len i_lines)) in
  fold_left (fun string tupl => string ++ format_line width tupl ++ [NEWLINE])
    i_lines string.

Definition bar_parser (percentage : float) (max_width : Z) : Result pystr :=
  scaled ← mul_int percentage max_width;
  bar_width ← to_int scaled;
  Ok (PyStr.mul [FULL_BLOCK] bar_width
      ++ PyStr.mul [LIGHT_SHADE] (max_width - bar_width)).

(** [volume + 1 if volume % 10 == 9 else volume]. *)
Definition bump_nine (volume : Z) : Z :=
  if volume mod 10 =? 9 then volume + 1 else volume.

Definition song_info_parser (current_secs total_secs : Z) (volume : float)
    (max_width : Z) : Result pystr :=
  let current_mins := current_secs / 60 in
  let current_secs := current_secs mod 60 in
  let total_mins := total_secs / 60 in
  let total_secs := total_secs mod 60 in
  scaled ← mul_int volume 100;
  volume ← to_int scaled;
  let volume := bump_nine volume in
  let current_time := format_02d current_mins ++ lit ":" ++ format_02d current_secs in
  let total_time := format_02d total_mins ++ lit ":" ++ format_02d total_secs in
  let volume := lit "Volume: " ++ PyStr.of_int volume ++ lit "%" in
  Ok (current_time ++ lit " / " ++ total_time
      ++ rjust volume (max_width - len current_time - len total_time - 3)).

(** *** Playback coordinator *)

(** The pygame mixer is an external collaborator: the handlers only use
    the operations below. *)
Class Playback (M : Type) : Type := {
  music_load : pystr -> M -> Result M;
  music_play : M -> M;
  music_pause : M -> M;
  music_unpause : M -> M;
  music_rewind : M -> M;
  music_get_busy : M -> bool;
  music_get_pos : M -> Z;
  music_get_volume : M -> float;
  music_set_volume : float -> M -> M
}.

(** What the handlers read from outside the process: the file system, the
    duration mutagen reports for a file ([audio.info.length]) and the
    terminal size, queried afresh by every [redraw]. *)
Record Env : Type := {
  fs : FileSystem;
  audio_length : pystr -> float;
  terminal_size : TerminalFrame
}.

Record World (M : Type) : Type := {
  mixer : M;
  i_lines : list DisplayLine;
  m_file : pystr;
  stdout : list pystr
}.
Arguments mixer {M} _.
Arguments i_lines {M} _.
Arguments m_file {M} _.
Arguments stdout {M} _.

(** The volume the F8 and F9 handlers pass to [set_volume]. *)
Definition lower_volume (curr_vol : float) : float :=
  fsub (round (round curr_vol 1) 8) (of_ratio 1 10).

Definition raise_volume (curr_vol : float) : float :=
  fadd (round (round curr_vol 1) 8) (of_ratio 1 10).

(** A handler step: the globals it leaves behind, and its outcome.  The
    globals keep every mutation made before an exception was raised. *)
Definition Act (M A : Type) : Type := World M -> World M * Result A.

Section Coordinator.
Context {M : Type} `{Playback M}.
Variable env : Env.

Definition ret {A : Type} (a : A) : Act M A := fun w => (w, Ok a).

Definition bind {A B : Type} (c : Act M A) (k : A -> Act M B) : Act M B :=
  fun w =>
    match c w with
    | (w', Ok a) => k a w'
    | (w', Raise e) => (w', Raise e)
    end.

Notation "'do' x <~ c ; k" := (bind c (fun x => k))
  (at level 10, x name, c at level 100, k at level 200).
Notation "c ;;; k" := (bind c (fun _ => k))
  (at level 100, k at level 200, right associativity).

(** An expression that may raise but does not touch the globals. *)
Definition eval {A : Type} (r : World M -> Result A) : Act M A :=
  fun w => (w, r w).

(** [try: body except pygame.error: handler]. *)
Definition try_except_pygame (body handler : Act M unit) : Act M unit :=
  fun w =>
    match body w with
    | (w', Raise PygameError) => handler w'
    | r => r
    end.

Definition on_mixer (f : M -> M) : Act M unit :=
  fun w => ({| mixer := f (mixer w); i_lines := i_lines w;
               m_file := m_file w; stdout := stdout w |}, Ok tt).

Definition load_m_file : Act M unit :=
  fun w =>
    match music_load (m_file w) (mixer w) with
    | Ok m => ({| mixer := m; i_lines := i_lines w;
                  m_file := m_file w; stdout := stdout w |}, Ok tt)
    | Raise e => (w, Raise e)
    end.

Definition set_m_file (path : pystr) : Act M unit :=
  fun w => ({| mixer := mixer w; i_lines := i_lines w;
               m_file := path; stdout := stdout w |}, Ok tt).

(** [i_lines[i] = content]. *)
Definition set_line (i : nat) (content : DisplayLine) : Act M unit :=
  fun w =>
    match setitem (i_lines w) i content with
    | Ok l => ({| mixer := mixer w; i_lines := l;
                  m_file := m_file w; stdout := stdout w |}, Ok tt)
    | Raise e => (w, Raise e)
    end.

Definition apply_symbol
    (f : list DisplayLine -> Result (list DisplayLine)) : Act M unit :=
  fun w =>
    match f (i_lines w) with
    | Ok l => ({| mixer := mixer w; i_lines := l;
                  m_file := m_file w; stdout := stdout w |}, Ok tt)
    | Raise e => (w, Raise e)
    end.

(** [redraw]: the frame is computed from the current lines and the
    current terminal size and written out. *)
Definition redraw : Act M unit :=
  fun w => ({| mixer := mixer w; i_lines := i_lines w; m_file := m_file w;
               stdout := stdout w ++ [interface (i_lines w) (terminal_size env)] |},
            Ok tt).

Definition update_bar (w : World M) : Result pystr :=
  secs ← int_truediv (music_get_pos (mixer w)) 1000;
  curr_time ← to_int secs;
  total_time ← to_int (audio_length env (m_file w));
  percentage ← int_truediv curr_time total_time;
  bar_parser percentage box_width.

Definition update_song_info (w : World M) : Result pystr :=
  secs ← int_truediv (music_get_pos (mixer w)) 1000;
  curr_time ← to_int secs;
  total_time ← to_int (audio_length env (m_file w));
  song_info_parser curr_time total_time (music_get_volume (mixer w)) box_width.

(** The body of the [try] shared by the shuffle key and the end-of-track
    watcher. *)
Definition play_random_file (draw : nat) : Act M unit :=
  do path <~ eval (fun w => random_file (fs env) draw (m_file w));
  set_m_file path ;;;
  load_m_file ;;;
  on_mixer music_play ;;;
  do title <~ eval (fun w => Ok (strip_path_from_filename (m_file w)));
  set_line 0 (title, false) ;;;
  do bar <~ eval update_bar;
  set_line 2 (bar, true) ;;;
  do info <~ eval update_song_info;
  set_line 4 (info, true) ;;;
  apply_symbol pause_symbol ;;;
  redraw.

(** [keyboard_listener], PAUSE key. *)
Definition key_pause : Act M unit :=
  do busy <~ eval (fun w => Ok (music_get_busy (mixer w)));
  (if busy : bool
   then on_mixer music_pause ;;; apply_symbol play_symbol
   else on_mixer music_unpause ;;; apply_symbol pause_symbol) ;;;
  redraw.

(** [keyboard_listener], PAGE DOWN key. *)
Definition key_page_down (draw : nat) : Act M unit :=
  try_except_pygame
    (play_random_file draw)
    (on_mixer music_rewind ;;;
     do busy <~ eval (fun w => Ok (music_get_busy (mixer w)));
     if busy : bool then ret tt
     else
       on_mixer music_unpause ;;;
       do bar <~ eval update_bar;
       set_line 2 (bar, true) ;;;
       do info <~ eval update_song_info;
       set_line 4 (info, true) ;;;
       apply_symbol pause_symbol ;;;
       redraw).

(** [keyboard_listener], F8 and F9 keys. *)
Definition key_volume (new_vol : float -> float) : Act M unit :=
  do curr_vol <~ eval (fun w => Ok (music_get_volume (mixer w)));
  on_mixer (music_set_volume (new_vol curr_vol)) ;;;
  do info <~ eval update_song_info;
  set_line 4 (info, true) ;;;
  redraw.

Definition key_f8 : Act M unit := key_volume lower_volume.
Definition key_f9 : Act M unit := key_volume raise_volume.

(** [infinite_queue]: one end-of-track event. *)
Definition track_ended (draw : nat) : Act M unit :=
  try_except_pygame (play_random_file draw) (ret tt).

(** [poll_interface]: one tick. *)
Definition poll_tick : Act M unit :=
  do bar <~ eval update_bar;
  set_line 2 (bar, true) ;;;
  do info <~ eval update_song_info;
  set_line 4 (info, true) ;;;
  redraw.

End Coordinator.

(** *** The keyboard loop and the entry point *)

(** The keys [keyboard_listener] tells apart; it ignores every other
    key. *)
Inductive Key : Type :=
  | KeyEsc
  | KeyPause
  | KeyPageDown
  | KeyF8
  | KeyF9
  | KeyOther (code : nat).

#[global] Instance Key_eq_dec : EqDecision Key.
Proof. solve_decision. Defined.

(** What [keyboard.Events()] yields: presses and releases.  The loop only
    reads [event.key]. *)
Inductive KeyEvent : Type :=
  | Press (key : Key)
  | Release (key : Key).

Definition event_key (event : KeyEvent) : Key :=
  match event with
  | Press key => key
  | Release key => key
  end.

(** [press_or_release[key] += 1] on a [defaultdict] whose default is 0. *)
Definition bump (press_or_release : Key -> nat) (key : Key) : Key -> nat :=
  fun k => if decide (k = key) then S (press_or_release k) else press_or_release k.

(** How a loop stands after the events it was given: still waiting, gone
    with the process ([exit_gracefully] ends in [os._exit(0)]), or ended by
    an exception that nothing catches. *)
Inductive Listener : Type :=
  | Listening
  | Exited
  | Died (e : exn).

(** What [main] leaves behind: the process exited with a status after
    printing a message, or the panel is up and the three loops start. *)
Inductive Startup (M : Type) : Type :=
  | Exit (status : Z) (message : pystr)
  | Started (w : World M).
Arguments Exit {M} status message.
Arguments Started {M} w.

Definition CARRIAGE_RETURN : char := 13.

Section Loops.
Context {M : Type} `{Playback M}.
Variable env : Env.

(** The [print] that clears the user input: sixteen blanks and a carriage
    return, without a newline. *)
Definition clear_input : Act M unit :=
  fun w => ({| mixer := mixer w; i_lines := i_lines w; m_file := m_file w;
               stdout := stdout w ++ [PyStr.mul [SPACE] 16 ++ [CARRIAGE_RETURN]] |},
            Ok tt).

(** The branches of the loop body for the keys other than ESC; [draw] is
    what the random source yields if the branch consults it. *)
Definition key_handler (draw : nat) (key : Key) : Act M unit :=
  match key with
  | KeyPause => key_pause env
  | KeyPageDown => key_page_down env draw
  | KeyF8 => key_f8 env
  | KeyF9 => key_f9 env
  | KeyEsc | KeyOther _ => ret tt
  end.

(** [keyboard_listener] on the events that arrive: every event clears the
    input line and counts; an even count is skipped; ESC ends the process;
    an exception that escapes a branch ends the loop. *)
Fixpoint keyboard_listener (press_or_release : Key -> nat)
    (events : list (KeyEvent * nat)) (w : World M) : World M * Listener :=
  match events with
  | [] => (w, Listening)
  | (event, draw) :: events =>
      let w := (clear_input w).1 in
      let press_or_release := bump press_or_release (event_key event) in
      if Nat.even (press_or_release (event_key event))
      then keyboard_listener press_or_release events w
      else
        match event_key event with
        | KeyEsc => (w, Exited)
        | key =>
            match key_handler draw key w with
            | (w', Ok _) => keyboard_listener press_or_release events w'
            | (w', Raise e) => (w', Died e)
            end
        end
  end.

(** [resize_handler]. *)
Definition resize_handler : Act M unit := redraw env.

(** [poll_interface] for a number of wake-ups: the loop ends with the
    first exception. *)
Fixpoint poll_interface (ticks : nat) (w : World M) : World M * Listener :=
  match ticks with
  | O => (w, Listening)
  | S ticks =>
      match poll_tick env w with
      | (w', Ok _) => poll_interface ticks w'
      | (w', Raise e) => (w', Died e)
      end
  end.

(** [main] up to the point where the threads start.  [isdir] is
    [os.path.isdir]; the world passed in holds the module-level globals
    and the mixer as [pygame.init] leaves it. *)
Definition main (isdir : pystr -> bool) (draw : nat) (argv : list pystr)
    (w : World M) : Result (Startup M) :=
  if negb (len argv =? 2) then Ok (Exit 1 (lit "Usage: pyms <file>"))
  else
    m_file ← getitem argv 1;
    picked ←
      (if isdir m_file then
         last ← getitem m_file (length m_file - 1);
         let m_file :=
           if negb (char_eqb last SLASH) then m_file ++ lit "/" else m_file in
         match random_file (fs env) draw m_file with
         | Ok path => Ok (Some path)
         | Raise PygameError => Ok None
         | Raise e => Raise e
         end
       else Ok (Some m_file));
    match picked with
    | None => Ok (Exit 1 (lit "No music files found in the directory."))
    | Some m_file =>
        match music_load m_file (mixer w) with
        | Ok m =>
            Ok (Started
                  (redraw env
                     {| mixer := music_play m;
                        i_lines := (strip_path_from_filename m_file, false)
                                     :: i_lines w;
                        m_file := m_file;
                        stdout := stdout w |}).1)
        | Raise PygameError =>
            Ok (Exit 1 (lit "Error: Could not load music file."))
        | Raise e => Raise e
        end
    end.

End Loops.

(** ** Vocabulary of the specification *)

(** *** Display state *)

(** What the transport-symbol splice promises about a state [l]: if it
    succeeds, the slots other than 6, 7 and 8 are unchanged, and in those
    three rows the characters before column 10 and from column 16 onward
    are unchanged. *)
Definition splice_frame (f : list DisplayLine -> Result (list DisplayLine))
    (l : list DisplayLine) : Prop :=
  forall l', f l = Ok l' ->
    (forall i : nat, i <> 6%nat -> i <> 7%nat -> i <> 8%nat -> l' !! i = l !! i)
    /\ (forall (i : nat) row row', (6 <= i <= 8)%nat ->
          l !! i = Some row -> l' !! i = Some row' ->
          take 10 row'.1 = take 10 row.1 /\ drop 16 row'.1 = drop 16 row.1).

(** The three glyph rows are at least ten characters wide. *)
Definition glyph_rows_wide (l : list DisplayLine) : Prop :=
  forall (i : nat) row, (6 <= i <= 8)%nat -> l !! i = Some row ->
    (10 <= length row.1)%nat.

(** The panel once [main] has prepended the title line. *)
Definition panel (title : pystr) : list DisplayLine :=
  (title, false) :: i_lines_init.

(** *** Layout *)

(** The body of the loop of [interface] as one concatenation. *)
Definition interface_body (ls : list DisplayLine) (width : Z) : pystr :=
  concat (map (fun tupl => format_line width tupl ++ [NEWLINE]) ls).

(** Every line of the body is exactly as wide as the terminal. *)
Definition body_lines_fit (ls : list DisplayLine) (size : TerminalFrame) : Prop :=
  forall tupl, In tupl ls -> len (format_line (columns size) tupl) = columns size.

(** The number of newline characters a string starts with. *)
Fixpoint leading_newlines (s : pystr) : nat :=
  match s with
  | c :: r => if char_eqb c NEWLINE then S (leading_newlines r) else 0
  | [] => 0
  end.

(** The string does not start with a newline. *)
Definition no_newline_first (s : pystr) : Prop :=
  match s with
  | c :: _ => c <> NEWLINE
  | [] => True
  end.

(** ["Volume: " + str(volume) + "%"]. *)
Definition volume_label (percent : Z) : pystr :=
  lit "Volume: " ++ PyStr.of_int percent ++ lit "%".

(** [int(volume * 100)]. *)
Definition truncated_percent (volume : float) : Result Z :=
  mul_int volume 100 ≫= to_int.

(** The status line was produced and ends with [label]. *)
Definition displays (r : Result pystr) (label : pystr) : bool :=
  match r with
  | Ok line => endswith line label
  | Raise _ => false
  end.

(** *** Floats *)

(** [m * 2^e <= W], for the non-positive exponents of values below
    [2^53]. *)
Definition le_int (m e W : Z) : Prop := e <= 0 /\ m <= W * 2 ^ (- e).

(** A float that is a zero, or positive and at most the integer [W]. *)
Definition nonneg_le (y : float) (W : Z) : Prop :=
  match y with
  | S754_zero _ => True
  | S754_finite s m e => s = false /\ le_int (Zpos m) e W
  | _ => False
  end.

(** What the two volume handlers compute from the volume rounded to one
    decimal stays within [-0.1, 0.9] and [0.1, 1.1]. *)
Definition steps_in_range (r : float) : bool :=
  fleb (of_ratio (-1) 10) (fsub (round r 8) (of_ratio 1 10))
  && fleb (fsub (round r 8) (of_ratio 1 10)) (of_ratio 9 10)
  && fleb (of_ratio 1 10) (fadd (round r 8) (of_ratio 1 10))
  && fleb (fadd (round r 8) (of_ratio 1 10)) (of_ratio 11 10).

(** *** Handlers *)

(** A step leaves the mixer and the current file alone. *)
Definition keeps_player {M A : Type} (c : Act M A) : Prop :=
  forall w, mixer (c w).1 = mixer w /\ m_file (c w).1 = m_file w.

(** A reference mixer, used to run the handlers on concrete worlds. *)
Record SimpleMixer : Type := {
  sm_loaded : pystr;
  sm_busy : bool;
  sm_pos : Z;
  sm_volume : float
}.

#[global] Instance SimpleMixer_playback : Playback SimpleMixer := {|
  music_load path m :=
    if is_music_file path
    then Ok {| sm_loaded := path; sm_busy := false; sm_pos := 0;
               sm_volume := sm_volume m |}
    else Raise PygameError;
  music_play m :=
    {| sm_loaded := sm_loaded m; sm_busy := true; sm_pos := 0;
       sm_volume := sm_volume m |};
  music_pause m :=
    {| sm_loaded := sm_loaded m; sm_busy := false; sm_pos := sm_pos m;
       sm_volume := sm_volume m |};
  music_unpause m :=
    {| sm_loaded := sm_loaded m; sm_busy := true; sm_pos := sm_pos m;
       sm_volume := sm_volume m |};
  music_rewind m :=
    {| sm_loaded := sm_loaded m; sm_busy := sm_busy m; sm_pos := 0;
       sm_volume := sm_volume m |};
  music_get_busy := sm_busy;
  music_get_pos := sm_pos;
  music_get_volume := sm_volume;
  music_set_volume v m :=
    {| sm_loaded := sm_loaded m; sm_busy := sm_busy m; sm_pos := sm_pos m;
       sm_volume := v |}
|}.

(** A directory with two tracks and a text file. *)
Definition demo_fs : FileSystem :=
  {| listdir := fun _ => [lit "a.mp3"; lit "b.ogg"; lit "notes.txt"];
     getcwd := lit "/home/user" |}.

(** A directory that holds the current track only. *)
Definition lonely_fs : FileSystem :=
  {| listdir := fun _ => [lit "a.mp3"]; getcwd := lit "/home/user" |}.

(** A 200 second track in a directory of its own, on an 80x24 terminal. *)
Definition demo_env : Env :=
  {| fs := lonely_fs;
     audio_length := fun _ => of_ratio 200 1;
     terminal_size := {| columns := 80; lines := 24 |} |}.

(** The same, with a track whose metadata reports 0.4 seconds. *)
Definition silent_env : Env :=
  {| fs := lonely_fs;
     audio_length := fun _ => of_ratio 4 10;
     terminal_size := {| columns := 80; lines := 24 |} |}.

Definition demo_world (busy : bool) : World SimpleMixer :=
  {| mixer := {| sm_loaded := lit "music/a.mp3"; sm_busy := busy;
                 sm_pos := 200000; sm_volume := of_ratio 1 1 |};
     i_lines := panel (lit "a.mp3");
     m_file := lit "music/a.mp3";
     stdout := [] |}.

(** *** Panel shape, alignment, time fields and key events *)

(** Columns 10 to 15 of the three glyph rows: the transport symbol on
    display. *)
Definition symbol_columns (l : list DisplayLine) : list (option pystr) :=
  map (fun i : nat => (fun row : DisplayLine => slice row.1 10 16) <$> l !! i)
    [6%nat; 7%nat; 8%nat].

(** What a handler may do to the panel: the number of slots stays, rows
    6 to 8 stay at least ten characters wide if they were, and only the
    slots 0, 2, 4, 6, 7 and 8 are written. *)
Definition panel_step (l l' : list DisplayLine) : Prop :=
  length l' = length l
  /\ (glyph_rows_wide l -> glyph_rows_wide l')
  /\ (forall i : nat, i <> 0%nat -> i <> 2%nat -> i <> 4%nat ->
        i <> 6%nat -> i <> 7%nat -> i <> 8%nat -> l' !! i = l !! i).

Definition keeps_panel {M A : Type} (c : Act M A) : Prop :=
  forall w, panel_step (i_lines w) (i_lines (c w).1).

(** The number of blanks [str.center] puts in front of a string of [n]
    characters centred in [width] columns. *)
Definition center_left (n width : Z) : Z :=
  let marg := width - n in
  marg / 2 + Z.land (Z.land marg width) 1.

(** The column at which the box starts on a terminal of [width] columns. *)
Definition box_left (width : Z) : Z :=
  center_left (Z.min box_width width) width.

(** The value of a decimal digit character. *)
Definition digit_value (c : char) : option Z :=
  if (48 <=? c) && (c <=? 57) then Some (c - 48) else None.

(** The number of seconds a five-character [MM:SS] field denotes. *)
Definition parse_mmss (s : pystr) : option Z :=
  match s with
  | [m1; m0; colon; s1; s0] =>
      if colon =? 58 then
        a ← digit_value m1; b ← digit_value m0;
        c ← digit_value s1; d ← digit_value s0;
        Some (60 * (10 * a + b) + (10 * c + d))
      else None
  | _ => None
  end.

(** The key is down. *)
Definition hold (held : Key -> bool) (key : Key) (down : bool) : Key -> bool :=
  fun k => if decide (k = key) then down else held k.

(** Every key is pressed and released in turn, starting from the keys
    that are [held] down. *)
Fixpoint alternates (held : Key -> bool) (events : list KeyEvent) : bool :=
  match events with
  | [] => true
  | Press key :: events => negb (held key) && alternates (hold held key true) events
  | Release key :: events => held key && alternates (hold held key false) events
  end.

Section Reference.
Context {M : Type} `{Playback M}.
Variable env : Env.

(** A listener that reacts to presses and ignores releases. *)
Fixpoint presses_only (events : list (KeyEvent * nat)) (w : World M)
    : World M * Listener :=
  match events with
  | [] => (w, Listening)
  | (event, draw) :: events =>
      let w := (clear_input w).1 in
      match event with
      | Release _ => presses_only events w
      | Press KeyEsc => (w, Exited)
      | Press key =>
          match key_handler env draw key w with
          | (w', Ok _) => presses_only events w'
          | (w', Raise e) => (w', Died e)
          end
      end
  end.

End Reference.

(** A directory with two tracks, whose metadata reports 200 seconds, on
    an 80x24 terminal. *)
Definition shuffle_env : Env :=
  {| fs := demo_fs;
     audio_length := fun _ => of_ratio 200 1;
     terminal_size := {| columns := 80; lines := 24 |} |}.

(** A mixer without any codec: every load fails. *)
#[global] Instance NoCodec_playback : Playback unit := {|
  music_load _ _ := Raise PygameError;
  music_play m := m;
  music_pause m := m;
  music_unpause m := m;
  music_rewind m := m;
  music_get_busy _ := false;
  music_get_pos _ := 0;
  music_get_volume _ := one;
  music_set_volume _ m := m
|}.

(** A step leaves the current file alone. *)
Definition keeps_file {M A : Type} (c : Act M A) : Prop :=
  forall w, m_file (c w).1 = m_file w.

(** The directory with two tracks, whose metadata reports 0.4 seconds. *)
Definition silent_shuffle_env : Env :=
  {| fs := demo_fs;
     audio_length := fun _ => of_ratio 4 10;
     terminal_size := {| columns := 80; lines := 24 |} |}.

(** ** Properties *)

(** *** The transport symbol *)

Section TransportSymbol.

Lemma bind_Ok {A B} (r : Result A) (k : A -> Result B) b :
  r ≫= k = Ok b -> exists a, r = Ok a /\ k a = Ok b.
Proof. destruct r; [eauto | discriminate]. Qed.

Lemma getitem_Ok {A} (l : list A) i x : getitem l i = Ok x -> l !! i = Some x.
Proof. unfold getitem. destruct (l !! i); congruence. Qed.

Lemma setitem_Ok {A} (l l' : list A) i x :
  setitem l i x = Ok l' -> l' = <[i := x]> l /\ (i < length l)%nat.
Proof.
  unfold setitem. destruct (i <? length l)%nat eqn:E; [|discriminate].
  intros [= <-]. apply Nat.ltb_lt in E. done.
Qed.

Lemma splice_text (text sym : pystr) :
  length sym = 6%nat -> (10 <= length text)%nat ->
  take 10 (slice text 0 10 ++ sym ++ slice_from text 16) = take 10 text
  /\ drop 16 (slice text 0 10 ++ sym ++ slice_from text 16) = drop 16 text.
Proof.
  intros Hs Ht. unfold slice, slice_from. rewrite drop_0. simpl (10 - 0)%nat.
  assert (Hl : length (take 10 text) = 10%nat) by (rewrite length_take; lia).
  split.
  - rewrite take_app_le by lia. rewrite take_ge by lia. done.
  - rewrite app_assoc. rewrite drop_app_ge by (rewrite length_app; lia).
    rewrite length_app, Hl, Hs. simpl. apply drop_0.
Qed.

Lemma splice_symbol_inv s1 s2 s3 l l' :
  splice_symbol s1 s2 s3 l = Ok l' ->
  exists r6 r7 r8,
    l !! 6%nat = Some r6 /\ l !! 7%nat = Some r7 /\ l !! 8%nat = Some r8
    /\ l' = <[8%nat := (slice r8.1 0 10 ++ s3 ++ slice_from r8.1 16, true)]>
             (<[7%nat := (slice r7.1 0 10 ++ s2 ++ slice_from r7.1 16, true)]>
               (<[6%nat := (slice r6.1 0 10 ++ s1 ++ slice_from r6.1 16, true)]> l)).
Proof.
  unfold splice_symbol. intros Hs.
  apply bind_Ok in Hs as (r6 & E6 & Hs).
  apply bind_Ok in Hs as (r7 & E7 & Hs).
  apply bind_Ok in Hs as (r8 & E8 & Hs).
  apply bind_Ok in Hs as (la & S6 & Hs).
  apply bind_Ok in Hs as (lb & S7 & Hs).
  apply setitem_Ok in S6 as [-> _], S7 as [-> _], Hs as [-> _].
  apply getitem_Ok in E6, E7, E8. eauto 10.
Qed.

Lemma splice_symbol_frame s1 s2 s3 l :
  length s1 = 6%nat -> length s2 = 6%nat -> length s3 = 6%nat ->
  glyph_rows_wide l -> splice_frame (splice_symbol s1 s2 s3) l.
Proof.
  intros H1 H2 H3 Hw l' Hs.
  apply splice_symbol_inv in Hs as (r6 & r7 & r8 & E6 & E7 & E8 & ->).
  split.
  - intros i n6 n7 n8.
    rewrite !list_lookup_insert_ne by done. done.
  - intros i row row' Hi Hl Hl'.
    assert (Hrow : forall (r : DisplayLine) s, length s = 6%nat ->
               (10 <= length r.1)%nat -> l !! i = Some r ->
               Some (slice r.1 0 10 ++ s ++ slice_from r.1 16, true) = Some row' ->
               take 10 row'.1 = take 10 row.1 /\ drop 16 row'.1 = drop 16 row.1).
    { intros r s Hs Hr E1 E2.
      assert (row = r) as -> by (apply (inj Some); rewrite <- Hl; exact E1).
      apply (inj Some) in E2. subst row'. apply splice_text; done. }
    assert (i = 6 \/ i = 7 \/ i = 8)%nat as [-> | [-> | ->]] by lia.
    + rewrite list_lookup_insert_ne, list_lookup_insert_ne in Hl' by done.
      rewrite list_lookup_insert_eq in Hl' by (apply lookup_lt_Some in E6; done).
      eapply Hrow; [exact H1 | | exact E6 | exact Hl'].
      eapply (Hw 6%nat); [lia | exact E6].
    + rewrite list_lookup_insert_ne in Hl' by done.
      rewrite list_lookup_insert_eq in Hl'
        by (rewrite length_insert; apply lookup_lt_Some in E7; done).
      eapply Hrow; [exact H2 | | exact E7 | exact Hl'].
      eapply (Hw 7%nat); [lia | exact E7].
    + rewrite list_lookup_insert_eq in Hl'
        by (rewrite !length_insert; apply lookup_lt_Some in E8; done).
      eapply Hrow; [exact H3 | | exact E8 | exact Hl'].
      eapply (Hw 8%nat); [lia | exact E8].
Qed.

Lemma setitem_lt {A} (l : list A) i x :
  (i < length l)%nat -> setitem l i x = Ok (<[i := x]> l).
Proof.
  intros Hi. unfold setitem.
  replace (i <? length l)%nat with true by (symmetry; by apply Nat.ltb_lt).
  done.
Qed.

Lemma splice_symbol_total s1 s2 s3 (l : list DisplayLine) :
  (9 <= length l)%nat -> exists l', splice_symbol s1 s2 s3 l = Ok l'.
Proof.
  intros Hl. unfold splice_symbol, getitem. unfold DisplayLine in *.
  destruct (lookup_lt_is_Some_2 l 6%nat ltac:(lia)) as [r6 ->].
  destruct (lookup_lt_is_Some_2 l 7%nat ltac:(lia)) as [r7 ->].
  destruct (lookup_lt_is_Some_2 l 8%nat ltac:(lia)) as [r8 ->].
  cbn [mbind Result_bind].
  assert (Hlen : forall i (l0 : list (list char * bool)),
                   length l0 = length l -> (i < 9)%nat ->
                   (i < length l0)%nat)
    by (intros i l0 -> Hi; eapply Nat.lt_le_trans; [exact Hi | exact Hl]).
  rewrite setitem_lt by (apply Hlen; [done | lia]).
  cbn [mbind Result_bind].
  rewrite setitem_lt by (apply Hlen; [by rewrite length_insert | lia]).
  cbn [mbind Result_bind].
  rewrite setitem_lt by (apply Hlen; [by rewrite !length_insert | lia]).
  eauto.
Qed.

End TransportSymbol.

(** C9, as amended: on every state with at least nine slots whose rows 6,
    7 and 8 are at least ten characters wide, [pause_symbol] and
    [play_symbol] succeed; every slot other than 6, 7 and 8 is unchanged,
    and in those three rows the characters before column 10 and from
    column 16 onward are unchanged. *)
Theorem transport_symbol_frame (l : list DisplayLine) :
  (9 <= length l)%nat -> glyph_rows_wide l ->
  (exists l', pause_symbol l = Ok l') /\ (exists l', play_symbol l = Ok l')
  /\ splice_frame pause_symbol l /\ splice_frame play_symbol l.
Proof.
  intros Hl Hw.
  split; [by apply splice_symbol_total|]. split; [by apply splice_symbol_total|].
  split; apply splice_symbol_frame; done.
Qed.

Lemma transport_symbol_frame_witness :
  splice_frame pause_symbol (panel (lit "a.mp3"))
  /\ splice_frame play_symbol (panel (lit "a.mp3")).
Proof.
  assert (Hw : glyph_rows_wide (panel (lit "a.mp3"))).
  { intros i row Hi.
    assert (i = 6 \/ i = 7 \/ i = 8)%nat as [-> | [-> | ->]] by lia;
      intros [= <-]; vm_compute; lia. }
  assert (Hl : (9 <= length (panel (lit "a.mp3")))%nat) by (vm_compute; lia).
  destruct (transport_symbol_frame _ Hl Hw) as (_ & _ & Hpause & Hplay).
  split; [exact Hpause | exact Hplay].
Defined.

(** C9 counterexample: in the ten-slot module-level value of [i_lines],
    slot 8 is an empty row; [pause_symbol] turns it into the six glyph
    characters, so its characters before column 10 change. *)
Lemma transport_symbol_short_row :
  ~ splice_frame pause_symbol i_lines_init.
Proof.
  intros Hf.
  destruct (Hf _ eq_refl) as [_ Hrows].
  destruct (Hrows 8%nat ([], true) (paus3, true)) as [Ht _];
    [lia | reflexivity | reflexivity |].
  vm_compute in Ht. discriminate.
Qed.

(** *** The layout engine *)

Section Layout.

Lemma len_app {A} (s t : list A) : len (s ++ t) = len s + len t.
Proof. unfold len. rewrite length_app. lia. Qed.

Lemma len_replicate {A} (n : Z) (c : A) : len (replicate (Z.to_nat n) c) = Z.max 0 n.
Proof. unfold len. rewrite length_replicate. lia. Qed.

Lemma len_nonneg {A} (s : list A) : 0 <= len s.
Proof. unfold len. lia. Qed.

Lemma mul_singleton (c : char) (n : Z) : PyStr.mul [c] n = replicate (Z.to_nat n) c.
Proof.
  unfold PyStr.mul. induction (Z.to_nat n) as [|k IH]; simpl; [done|].
  by rewrite IH.
Qed.

Lemma len_pad s l r : len (pad s l r) = Z.max 0 l + len s + Z.max 0 r.
Proof. unfold pad. rewrite !len_app, !len_replicate. lia. Qed.

Lemma land_one_range x : 0 <= Z.land x 1 <= 1.
Proof.
  replace (Z.land x 1) with (x mod 2).
  - pose proof (Z.mod_pos_bound x 2 ltac:(lia)). lia.
  - symmetry. apply (Z.land_ones x 1). lia.
Qed.

Lemma len_center s w : len s <= w -> len (center s w) = w.
Proof.
  intros Hs. unfold center. destruct (w <=? len s) eqn:E.
  - apply Z.leb_le in E. lia.
  - apply Z.leb_gt in E. rewrite len_pad.
    pose proof (land_one_range (Z.land (w - len s) w)) as Hb.
    set (b := Z.land (Z.land (w - len s) w) 1) in *.
    pose proof (Z.div_mod (w - len s) 2 ltac:(lia)).
    pose proof (Z.mod_pos_bound (w - len s) 2 ltac:(lia)).
    assert (b <= (w - len s) mod 2).
    { subst b. rewrite <- Z.land_assoc, (Z.land_comm w 1), Z.land_assoc.
      replace (Z.land (w - len s) 1) with ((w - len s) mod 2)
        by (symmetry; apply (Z.land_ones (w - len s) 1); lia).
      destruct (Z.eq_dec ((w - len s) mod 2) 0) as [-> | ?].
      - rewrite Z.land_0_l. lia.
      - assert ((w - len s) mod 2 = 1) as -> by lia.
        rewrite Z.land_comm. pose proof (land_one_range w). lia. }
    lia.
Qed.

Lemma len_center_long s w : w <= len s -> center s w = s.
Proof. intros Hs. unfold center. apply Z.leb_le in Hs. by rewrite Hs. Qed.

Lemma len_ljust s w : len s <= w -> len (ljust s w) = w.
Proof.
  intros Hs. unfold ljust. destruct (w <=? len s) eqn:E.
  - apply Z.leb_le in E. lia.
  - rewrite len_pad. lia.
Qed.

Lemma eqb_refl s : PyStr.eqb s s = true.
Proof.
  induction s as [|c s IH]; simpl; [done|].
  unfold char_eqb. rewrite Z.eqb_refl. done.
Qed.

Lemma eqb_eq s t : PyStr.eqb s t = true <-> s = t.
Proof.
  split; [|intros ->; apply eqb_refl].
  revert t; induction s as [|c s IH]; intros [|d t]; simpl; try done.
  unfold char_eqb. intros [Hc Hs]%andb_prop.
  apply Z.eqb_eq in Hc. f_equal; auto.
Qed.

Lemma endswith_app s suffix : endswith (s ++ suffix) suffix = true.
Proof.
  unfold endswith. rewrite length_app.
  apply andb_true_intro; split.
  - apply Nat.leb_le. lia.
  - replace (length s + length suffix - length suffix)%nat with (length s) by lia.
    rewrite drop_app_length. apply eqb_refl.
Qed.

(** The shortened text when the line is too long. *)
Lemma shorten_long line w :
  Z.min box_width w < len line ->
  shorten line w = slice_to line (Z.min box_width w - 3) ++ term.
Proof. intros Hl. unfold shorten. apply Z.ltb_lt in Hl. by rewrite Hl. Qed.

Lemma shorten_fits line w :
  len line <= Z.min box_width w -> shorten line w = line.
Proof.
  intros Hl. unfold shorten.
  destruct (Z.min box_width w <? len line) eqn:E; [|done].
  apply Z.ltb_lt in E. lia.
Qed.

Lemma len_slice_to line k : 0 <= k <= len line -> len (slice_to line k) = k.
Proof.
  intros Hk. unfold slice_to. destruct (0 <=? k) eqn:E.
  - unfold len in *. rewrite length_take. lia.
  - apply Z.leb_gt in E. lia.
Qed.

Lemma len_shorten_long line w :
  3 <= Z.min box_width w -> Z.min box_width w < len line ->
  len (shorten line w) = Z.min box_width w.
Proof.
  intros Hm Hl. rewrite shorten_long by done.
  rewrite len_app, len_slice_to by lia. change (len term) with 3. lia.
Qed.

Lemma len_shorten line w :
  3 <= Z.min box_width w -> len (shorten line w) <= Z.min box_width w.
Proof.
  intros Hm. destruct (Z_lt_le_dec (Z.min box_width w) (len line)).
  - rewrite len_shorten_long by done. lia.
  - rewrite shorten_fits by done. done.
Qed.

Lemma fold_left_body (ls : list DisplayLine) width acc :
  fold_left (fun string tupl => string ++ format_line width tupl ++ [NEWLINE])
    ls acc = acc ++ interface_body ls width.
Proof.
  revert acc; induction ls as [|t ls IH]; intros acc; simpl.
  - by rewrite app_nil_r.
  - rewrite IH. unfold interface_body. simpl. by rewrite <- !app_assoc.
Qed.

Lemma interface_unfold ls size :
  interface ls size =
    replicate (Z.to_nat (int_half (lines size) - int_half (len ls))) NEWLINE
    ++ interface_body ls (columns size).
Proof. unfold interface. by rewrite fold_left_body, mul_singleton. Qed.

Lemma int_half_nonneg n : 0 <= n -> int_half n = n / 2.
Proof. intros Hn. unfold int_half. by rewrite Z.quot_div_nonneg by lia. Qed.

Lemma padding_floor h n :
  0 <= n -> Z.to_nat (int_half h - int_half n) = Z.to_nat (h / 2 - n / 2).
Proof.
  intros Hn. rewrite (int_half_nonneg n) by done.
  destruct (Z_le_gt_dec 0 h).
  - by rewrite int_half_nonneg.
  - unfold int_half.
    pose proof (Z.quot_opp_l h 2 ltac:(lia)).
    assert (Z.quot h 2 <= 0).
    { apply Z.quot_le_upper_bound with (q:=0); lia. }
    assert (h / 2 < 0) by (apply Z.div_lt_upper_bound; lia).
    assert (0 <= n / 2) by (apply Z.div_pos; lia).
    lia.
Qed.

Lemma interface_padding_body ls size :
  interface ls size =
    replicate (Z.to_nat (lines size / 2 - len ls / 2)) NEWLINE
    ++ interface_body ls (columns size).
Proof. rewrite interface_unfold, padding_floor by apply len_nonneg. done. Qed.

End Layout.

Section LeadingNewlines.

Lemma leading_newlines_replicate (k : nat) (s : pystr) :
  no_newline_first s -> leading_newlines (replicate k NEWLINE ++ s) = k.
Proof.
  intros Hs. induction k as [|k IH]; simpl.
  - destruct s as [|c s]; [done|]. simpl in *.
    unfold char_eqb. destruct (Z.eqb_spec c NEWLINE); done.
  - by rewrite IH.
Qed.

Lemma no_newline_first_app (s t : pystr) :
  no_newline_first s -> no_newline_first t -> no_newline_first (s ++ t).
Proof. destruct s; simpl; auto. Qed.

Lemma no_newline_first_app_l (s t : pystr) :
  s <> [] -> no_newline_first s -> no_newline_first (s ++ t).
Proof. destruct s; simpl; auto. done. Qed.

Lemma no_newline_first_replicate (k : nat) : no_newline_first (replicate k SPACE).
Proof. destruct k; simpl; [done|]. discriminate. Qed.

Lemma no_newline_first_take (n : nat) (s : pystr) :
  no_newline_first s -> no_newline_first (take n s).
Proof. destruct s, n; simpl; auto. Qed.

Lemma no_newline_first_pad (s : pystr) (l r : Z) :
  no_newline_first s -> no_newline_first (pad s l r).
Proof.
  intros Hs. unfold pad.
  apply no_newline_first_app; [apply no_newline_first_replicate|].
  apply no_newline_first_app; [done | apply no_newline_first_replicate].
Qed.

Lemma no_newline_first_shorten (line : pystr) (w : Z) :
  no_newline_first line -> no_newline_first (shorten line w).
Proof.
  intros Hl. unfold shorten. destruct (_ <? _); [|done].
  apply no_newline_first_app.
  - unfold slice_to. destruct (0 <=? _); by apply no_newline_first_take.
  - vm_compute. discriminate.
Qed.

Lemma no_newline_first_center (s : pystr) (w : Z) :
  no_newline_first s -> no_newline_first (center s w).
Proof.
  intros Hs. unfold center. destruct (_ <=? _); [done|].
  by apply no_newline_first_pad.
Qed.

Lemma no_newline_first_ljust (s : pystr) (w : Z) :
  no_newline_first s -> no_newline_first (ljust s w).
Proof.
  intros Hs. unfold ljust. destruct (_ <=? _); [done|].
  by apply no_newline_first_pad.
Qed.

Lemma no_newline_first_format_line (w : Z) (tupl : DisplayLine) :
  no_newline_first tupl.1 -> no_newline_first (format_line w tupl).
Proof.
  intros Ht. unfold format_line. apply no_newline_first_center.
  destruct tupl.2.
  - by apply no_newline_first_center, no_newline_first_shorten.
  - by apply no_newline_first_ljust, no_newline_first_shorten.
Qed.

Lemma format_line_nonempty (w : Z) (tupl : DisplayLine) :
  0 < w -> format_line w tupl <> [].
Proof.
  intros Hw Hnil.
  assert (Hlen : w <= len (format_line w tupl)).
  { unfold format_line. set (inner := if tupl.2 then _ else _).
    destruct (Z_le_gt_dec w (len inner)).
    - rewrite len_center_long by done. done.
    - rewrite len_center by lia. lia. }
  rewrite Hnil in Hlen. unfold len in Hlen. simpl in Hlen. lia.
Qed.

Lemma no_newline_first_body (ls : list DisplayLine) (w : Z) :
  0 < w ->
  (forall tupl, head ls = Some tupl -> no_newline_first tupl.1) ->
  no_newline_first (interface_body ls w).
Proof.
  intros Hw Hh. destruct ls as [|t ls]; [done|].
  unfold interface_body. cbn [map concat]. rewrite <- app_assoc.
  apply no_newline_first_app_l.
  - by apply format_line_nonempty.
  - apply no_newline_first_format_line. by apply Hh.
Qed.

End LeadingNewlines.

(** C7 counterexample: on an 80-column terminal a 45-character line
    exceeds [min(box_width, 80) - len("...") = 43], yet it is rendered in
    full, without the ellipsis marker. *)
Lemma truncation_threshold_counterexample :
  let line := replicate 45 (97 : char) in
  Z.min box_width 80 - len term < len line
  /\ shorten line 80 = line
  /\ endswith (shorten line 80) term = false.
Proof. vm_compute. repeat split; congruence. Qed.

(** C7, as amended: on a terminal of at least 3 columns (the length of
    the ellipsis marker) a line is shortened exactly when its length
    exceeds [m = min(box_width, width)]: the shortened text is the first
    [m - 3] characters of the line followed by the marker, [m] characters
    in all, and a line that fits is left as it is.  In particular a line of
    length 60 on a terminal of at least 46 columns ends with the marker
    and has length at most 46. *)
Theorem interface_truncation (line : pystr) (centered : bool) (w : Z) :
  len term <= w ->
  let m := Z.min box_width w in
  (m < len line ->
     shorten line w = take (Z.to_nat (m - len term)) line ++ term
     /\ len (take (Z.to_nat (m - len term)) line) = m - len term
     /\ endswith (shorten line w) term = true
     /\ len (shorten line w) = m)
  /\ (len line <= m -> shorten line w = line)
  /\ (len line = 60 -> 46 <= w ->
        endswith (shorten line w) term = true /\ len (shorten line w) <= 46)
  /\ format_line w (line, centered) =
       center ((if centered then center else ljust) (shorten line w) m) w.
Proof.
  intros Hw m. change (len term) with 3 in *.
  assert (Hm : 3 <= m) by (subst m; unfold box_width; lia).
  assert (Hslice : slice_to line (m - 3) = take (Z.to_nat (m - 3)) line).
  { unfold slice_to. replace (0 <=? m - 3) with true; [done|].
    symmetry. apply Z.leb_le. lia. }
  assert (Hsh : m < len line ->
                shorten line w = take (Z.to_nat (m - 3)) line ++ term).
  { intros Hl. rewrite shorten_long by done. fold m. by rewrite Hslice. }
  split; [|split; [|split]].
  - intros Hl. split; [exact (Hsh Hl)|]. split.
    + rewrite <- Hslice. apply len_slice_to. lia.
    + split; [rewrite (Hsh Hl); apply endswith_app|].
      exact (len_shorten_long line w Hm Hl).
  - apply shorten_fits.
  - intros H60 H46. assert (Hm46 : m = 46) by (subst m; unfold box_width; lia).
    assert (Hl : m < len line) by lia.
    split; [rewrite (Hsh Hl); apply endswith_app|].
    rewrite (len_shorten_long line w Hm Hl). fold m. lia.
  - unfold format_line. simpl. by destruct centered.
Qed.

Lemma interface_truncation_witness :
  let line := replicate 60 (97 : char) in
  endswith (shorten line 80) term = true /\ len (shorten line 80) <= 46.
Proof.
  intros line.
  destruct (interface_truncation line true 80) as (_ & _ & H & _);
    [vm_compute; congruence|].
  apply H; [reflexivity | unfold box_width; lia].
Defined.

(** C8: the string returned by [interface] is
    [floor(lines/2) - floor(len/2)] newlines (none when that number is
    negative) followed by the body; when there are more lines than terminal
    rows the padding is empty.  On a terminal of positive width, and when
    the first line does not itself start with a newline, these are exactly
    the newlines the string starts with. *)
Theorem interface_vertical_padding (ls : list DisplayLine) (size : TerminalFrame) :
  let k := lines size / 2 - len ls / 2 in
  interface ls size =
    replicate (Z.to_nat k) NEWLINE ++ interface_body ls (columns size)
  /\ (0 <= k -> len (replicate (Z.to_nat k) NEWLINE) = k)
  /\ (lines size < len ls -> Z.to_nat k = 0%nat)
  /\ (0 < columns size ->
      (forall tupl, head ls = Some tupl -> no_newline_first tupl.1) ->
      leading_newlines (interface ls size) = Z.to_nat k).
Proof.
  intros k. split; [|split; [|split]].
  - apply interface_padding_body.
  - intros Hk. rewrite len_replicate. lia.
  - intros Hl. subst k.
    assert (lines size / 2 <= len ls / 2) by (apply Z.div_le_mono; lia).
    lia.
  - intros Hw Hh. rewrite interface_padding_body.
    apply leading_newlines_replicate. by apply no_newline_first_body.
Qed.

Lemma interface_vertical_padding_witness :
  leading_newlines
    (interface (panel (lit "a.mp3")) {| columns := 80; lines := 24 |}) = 7%nat
  /\ Z.to_nat (4 / 2 - len (panel (lit "a.mp3")) / 2) = 0%nat.
Proof.
  pose proof (interface_vertical_padding (panel (lit "a.mp3"))
                {| columns := 80; lines := 24 |}) as (_ & _ & _ & Hlead).
  pose proof (interface_vertical_padding (panel (lit "a.mp3"))
                {| columns := 80; lines := 4 |}) as (_ & _ & Hzero & _).
  split.
  - apply Hlead; [reflexivity|].
    intros tupl [= <-]. vm_compute. discriminate.
  - apply Hzero. vm_compute. reflexivity.
Defined.

(** C10: on a terminal of one or two columns the slice bound
    [min(box_width, width) - len(term)] is negative, so a line longer than
    the terminal is not shortened: it loses its last [3 - width] characters
    and gains the three of the marker.  The rendered row has
    [len(line) + width] characters, more than the line had and more than
    the terminal is wide, so the body lines do not fit. *)
Theorem interface_narrow_terminal (line : pystr) (centered : bool) (w : Z) :
  0 < w < len term -> w < len line ->
  format_line w (line, centered)
  = take (Z.to_nat (len line - (len term - w))) line ++ term
  /\ len (format_line w (line, centered)) = len line + w
  /\ (forall (ls : list DisplayLine) (size : TerminalFrame),
        columns size = w -> 0 < lines size -> In (line, centered) ls ->
        ~ body_lines_fit ls size).
Proof.
  intros Hw Hl. change (len term) with 3 in *.
  assert (Hm : Z.min box_width w = w) by (unfold box_width; lia).
  assert (Hs : shorten line w = take (Z.to_nat (len line - (3 - w))) line ++ term).
  { rewrite shorten_long by lia. rewrite Hm. f_equal.
    unfold slice_to. replace (0 <=? w - 3) with false
      by (symmetry; apply Z.leb_gt; lia).
    f_equal. lia. }
  assert (Hlen : len (shorten line w) = len line + w).
  { rewrite Hs, len_app. change (len term) with 3.
    unfold len in *. rewrite length_take. lia. }
  assert (Hf : format_line w (line, centered) = shorten line w).
  { unfold format_line. cbn [fst snd]. rewrite Hm.
    assert (Hi : (if centered then center (shorten line w) w
                  else ljust (shorten line w) w) = shorten line w).
    { destruct centered.
      - apply len_center_long. lia.
      - unfold ljust. replace (w <=? len (shorten line w)) with true; [done|].
        symmetry. apply Z.leb_le. lia. }
    rewrite Hi. apply len_center_long. lia. }
  split; [by rewrite Hf|]. split; [by rewrite Hf|].
  intros ls size Hc _ Hin Hfit.
  specialize (Hfit _ Hin). rewrite Hc, Hf, Hlen in Hfit. lia.
Qed.

Lemma interface_narrow_terminal_witness :
  format_line 2 (PyStr.mul [LIGHT_SHADE] box_width, true)
  = replicate 45 LIGHT_SHADE ++ term
  /\ len (format_line 2 (PyStr.mul [LIGHT_SHADE] box_width, true)) = 48
  /\ ~ body_lines_fit (panel (lit "a.mp3")) {| columns := 2; lines := 24 |}.
Proof.
  destruct (interface_narrow_terminal (PyStr.mul [LIGHT_SHADE] box_width) true 2)
    as (Hf & Hl & Hn); [vm_compute; split; reflexivity | vm_compute; reflexivity |].
  split; [rewrite Hf; reflexivity|]. split; [rewrite Hl; reflexivity|].
  apply Hn; [reflexivity | reflexivity | simpl; tauto].
Defined.

(** X29: on a terminal of at least 3 columns (the length of the ellipsis
    marker), after shortening each line has length at most
    [min(box_width, columns)], centring or left-justifying pads it to
    exactly that, and the final centring pads it to exactly [columns]; the
    string returned by [interface] is the vertical padding followed by
    these lines, each with its newline. *)
Theorem interface_lines_fit (ls : list DisplayLine) (size : TerminalFrame) :
  len term <= columns size ->
  let m := Z.min box_width (columns size) in
  (forall tupl, In tupl ls ->
     len (shorten tupl.1 (columns size)) <= m
     /\ len ((if tupl.2 then center else ljust) (shorten tupl.1 (columns size)) m) = m
     /\ len (format_line (columns size) tupl) = columns size)
  /\ interface ls size =
       replicate (Z.to_nat (lines size / 2 - len ls / 2)) NEWLINE
       ++ concat (map (fun tupl => format_line (columns size) tupl ++ [NEWLINE]) ls).
Proof.
  intros Hc m. change (len term) with 3 in Hc.
  assert (Hm : 3 <= m <= columns size) by (subst m; unfold box_width; lia).
  split.
  - intros [text centered] _. simpl.
    pose proof (len_shorten text (columns size) ltac:(lia)) as Hs.
    fold m in Hs. split; [done|].
    assert (Hi : len ((if centered then center else ljust)
                        (shorten text (columns size)) m) = m).
    { destruct centered; [by apply len_center | by apply len_ljust]. }
    split; [done|].
    unfold format_line. simpl. fold m.
    replace (if centered then center (shorten text (columns size)) m
             else ljust (shorten text (columns size)) m)
      with ((if centered then center else ljust) (shorten text (columns size)) m)
      by (by destruct centered).
    apply len_center. lia.
  - apply interface_padding_body.
Qed.

Lemma interface_lines_fit_witness :
  body_lines_fit (panel (lit "a.mp3")) {| columns := 80; lines := 24 |}.
Proof.
  intros tupl Hin.
  apply (interface_lines_fit (panel (lit "a.mp3"))
           {| columns := 80; lines := 24 |}); [vm_compute; congruence | exact Hin].
Defined.

(** *** The track selector *)

Section Selector.

Lemma random_choice_nil {A} draw : random_choice draw (@nil A) = Raise IndexError.
Proof. done. Qed.

Lemma random_choice_In {A} draw (seq : list A) :
  seq <> [] -> exists x, random_choice draw seq = Ok x /\ In x seq.
Proof.
  intros Hne. destruct seq as [|a seq]; [done|].
  unfold random_choice, getitem.
  set (l := a :: seq).
  assert (Hlt : (draw mod length l < length l)%nat)
    by (apply Nat.mod_upper_bound; done).
  destruct (lookup_lt_is_Some_2 l _ Hlt) as [x Hx].
  rewrite Hx. exists x. split; [done|].
  apply list_elem_of_In, list_elem_of_lookup. eauto.
Qed.

Lemma music_files_In files old file :
  In file (music_files files old) <->
  In file files /\ is_music_file file = true /\ file <> old.
Proof.
  unfold music_files. rewrite filter_In, andb_true_iff, negb_true_iff.
  split; intros (Hi & Hm & Hn); (split; [done|split; [done|]]).
  - intros ->. by rewrite eqb_refl in Hn.
  - destruct (PyStr.eqb file old) eqn:E; [|done]. by apply eqb_eq in E.
Qed.

(** [split] and [join] are inverse, and a path that contains the
    separator is its directory part followed by its last component. *)
Lemma split_nonempty sep s : split sep s <> [].
Proof.
  destruct s as [|c s]; simpl; [done|].
  destruct (char_eqb c sep); [done|]. by destruct (split sep s).
Qed.

Lemma join_split sep s : join sep (split sep s) = s.
Proof.
  induction s as [|c s IH]; simpl; [done|].
  pose proof (split_nonempty sep s) as Hne.
  destruct (char_eqb c sep) eqn:E.
  - apply Z.eqb_eq in E. subst c.
    destruct (split sep s) as [|h t] eqn:Es; [done|].
    simpl in *. by rewrite IH.
  - destruct (split sep s) as [|h t] eqn:Es; [done|].
    destruct t; simpl in *; by rewrite <- IH.
Qed.

Lemma split_contains sep s :
  contains sep s = true -> (2 <= length (split sep s))%nat.
Proof.
  induction s as [|c s IH]; simpl; [done|].
  pose proof (split_nonempty sep s) as Hne.
  unfold char_eqb at 1. rewrite Z.eqb_sym. fold (char_eqb c sep).
  destruct (char_eqb c sep); simpl.
  - intros _. destruct (split sep s); simpl; [done|lia].
  - intros Hc. specialize (IH Hc).
    destruct (split sep s) as [|h t]; simpl in *; lia.
Qed.

Lemma join_cons sep w (ws : list pystr) :
  ws <> [] -> join sep (w :: ws) = w ++ sep :: join sep ws.
Proof. by destruct ws. Qed.

Lemma join_removelast_last sep (ws : list pystr) :
  (2 <= length ws)%nat ->
  join sep (removelast ws) ++ [sep] ++ List.last ws [] = join sep ws.
Proof.
  destruct ws as [|w ws]; [simpl; lia|]. intros Hl.
  assert (Hne : ws <> []) by (destruct ws; [simpl in Hl; lia | done]).
  clear Hl. revert w. induction ws as [|w' ws IH]; intros w; [done|].
  destruct ws as [|w'' ws]; [done|].
  specialize (IH ltac:(done) w').
  change (removelast (w :: w' :: w'' :: ws))
    with (w :: removelast (w' :: w'' :: ws)).
  change (List.last (w :: w' :: w'' :: ws) [])
    with (List.last (w' :: w'' :: ws) []).
  rewrite (join_cons sep w (w' :: w'' :: ws)) by done.
  rewrite <- IH.
  rewrite join_cons by done.
  by rewrite <- !app_assoc.
Qed.

Lemma path_decompose fs path :
  contains SLASH path = true ->
  path = strip_filename_from_path fs path ++ strip_path_from_filename path.
Proof.
  intros Hc. unfold strip_filename_from_path, strip_path_from_filename.
  rewrite Hc. simpl.
  rewrite <- (join_split SLASH path) at 1.
  rewrite <- join_removelast_last by (by apply split_contains).
  by rewrite <- !app_assoc.
Qed.

Lemma contains_app c s t : contains c (s ++ t) = contains c s || contains c t.
Proof. unfold contains. apply existsb_app. Qed.

Lemma endswith_contains s c : endswith s [c] = true -> contains c s = true.
Proof.
  unfold endswith. intros [Hl He]%andb_prop. apply eqb_eq in He.
  rewrite <- (take_drop (length s - length [c]) s), He, contains_app.
  simpl. unfold char_eqb. rewrite Z.eqb_refl. by rewrite orb_true_r.
Qed.

Lemma endswith_app_r s t suffix :
  endswith t suffix = true -> endswith (s ++ t) suffix = true.
Proof.
  unfold endswith. intros [Hl He]%andb_prop.
  apply Nat.leb_le in Hl. apply andb_true_intro. split.
  - apply Nat.leb_le. rewrite length_app. lia.
  - rewrite length_app, drop_app_ge by lia.
    replace (length s + length t - length suffix - length s)%nat
      with (length t - length suffix)%nat by lia.
    done.
Qed.

Lemma startswith_slash_contains b :
  startswith b [SLASH] = true -> contains SLASH b = true.
Proof.
  destruct b as [|c b]; [done|]. unfold startswith. simpl.
  intros [Hc _]%andb_prop. apply Z.eqb_eq in Hc. subst c. reflexivity.
Qed.

(** [os.path.join] with a component that holds no separator. *)
Lemma path_join_cases a b :
  contains SLASH b = false ->
  path_join a b = a ++ b
  \/ (path_join a b = a ++ SLASH :: b /\ a <> []).
Proof.
  intros Hb. unfold path_join.
  destruct (startswith b [SLASH]) eqn:Es.
  - apply startswith_slash_contains in Es. congruence.
  - destruct (PyStr.eqb a [] || endswith a [SLASH]) eqn:E; [by left|].
    right. split; [done|]. intros ->. done.
Qed.

Lemma is_music_file_app s file :
  is_music_file file = true -> is_music_file (s ++ file) = true.
Proof.
  unfold is_music_file. rewrite !orb_true_iff.
  intros [[H|H]|H]; [left; left | left; right | right]; by apply endswith_app_r.
Qed.

Lemma is_music_file_path_join a file :
  is_music_file file = true -> is_music_file (path_join a file) = true.
Proof.
  intros Hm. unfold path_join.
  destruct (startswith file [SLASH]); [done|].
  destruct (PyStr.eqb a [] || endswith a [SLASH]).
  - by apply is_music_file_app.
  - change (a ++ SLASH :: file) with (a ++ [SLASH] ++ file).
    rewrite app_assoc. by apply is_music_file_app.
Qed.

Lemma path_join_differs fs path file :
  contains SLASH file = false ->
  file <> strip_path_from_filename path ->
  path_join (strip_filename_from_path fs path) file <> path.
Proof.
  intros Hf Hne.
  destruct (contains SLASH path) eqn:Hc.
  - pose proof (path_decompose fs path Hc) as Hp.
    assert (He : endswith (strip_filename_from_path fs path) [SLASH] = true).
    { unfold strip_filename_from_path. rewrite Hc. simpl. apply endswith_app. }
    unfold path_join.
    destruct (startswith file [SLASH]) eqn:Es.
    { apply startswith_slash_contains in Es. congruence. }
    rewrite He, orb_true_r. intros Heq.
    assert (Hsame : strip_filename_from_path fs path ++ file
                    = strip_filename_from_path fs path
                      ++ strip_path_from_filename path)
      by (rewrite <- Hp; exact Heq).
    apply app_inv_head in Hsame. done.
  - assert (Hold : strip_path_from_filename path = path)
      by (unfold strip_path_from_filename; by rewrite Hc).
    rewrite Hold in Hne.
    assert (Hslash : forall p, contains SLASH p = true -> p <> path)
      by (intros p Hp ->; congruence).
    unfold path_join.
    destruct (startswith file [SLASH]) eqn:Es; [done|].
    set (dir := strip_filename_from_path fs path).
    destruct (PyStr.eqb dir []) eqn:Ee.
    { apply eqb_eq in Ee. rewrite Ee. done. }
    destruct (endswith dir [SLASH]) eqn:Ed; simpl.
    + apply Hslash. rewrite contains_app.
      apply endswith_contains in Ed. by rewrite Ed.
    + apply Hslash. rewrite contains_app.
      replace (contains SLASH (SLASH :: file)) with true by reflexivity.
      apply orb_true_r.
Qed.

End Selector.

(** C3: [random_file] returns [os.path.join(dir, file)] for a [file] of
    the listing that differs from the current file name and ends in one of
    the three extensions (so does the returned path, which differs from the
    input path whenever [file] holds no separator, as directory entries
    do); it raises [pygame.error] exactly when no such file exists, in
    particular when the directory holds the current file only. *)
Theorem random_file_spec (fs : FileSystem) (draw : nat) (path : pystr) :
  let old_filename := strip_path_from_filename path in
  let stripped_path := strip_filename_from_path fs path in
  let candidates := music_files (listdir fs stripped_path) old_filename in
  match random_file fs draw path with
  | Ok p =>
      exists file,
        p = path_join stripped_path file
        /\ In file (listdir fs stripped_path)
        /\ file <> old_filename
        /\ is_music_file file = true
        /\ is_music_file p = true
        /\ (contains SLASH file = false -> p <> path)
  | Raise e => e = PygameError /\ candidates = []
  end
  /\ (candidates = [] -> random_file fs draw path = Raise PygameError)
  /\ (listdir fs stripped_path = [old_filename] ->
        random_file fs draw path = Raise PygameError).
Proof.
  intros old_filename stripped_path candidates.
  assert (Hnil : candidates = [] -> random_file fs draw path = Raise PygameError).
  { intros Hc. unfold random_file. fold old_filename stripped_path candidates.
    by rewrite Hc. }
  split; [|split; [exact Hnil|]].
  - destruct candidates as [|c cs] eqn:Ec.
    + rewrite Hnil by done. done.
    + destruct (random_choice_In draw candidates) as (file & Hch & Hin);
        [by rewrite Ec|].
      unfold random_file. fold old_filename stripped_path candidates.
      rewrite <- Ec, Hch.
      apply music_files_In in Hin as (Hin & Hm & Hne).
      exists file. repeat split; try done.
      * by apply is_music_file_path_join.
      * intros Hs. by apply path_join_differs.
  - intros Hl. apply Hnil. subst candidates. rewrite Hl.
    unfold music_files. simpl. rewrite eqb_refl, andb_false_r. done.
Qed.

Lemma random_file_spec_witness :
  random_file demo_fs 5 (lit "music/a.mp3") = Ok (lit "music/b.ogg")
  /\ random_file lonely_fs 0 (lit "music/a.mp3") = Raise PygameError.
Proof.
  split; [reflexivity|].
  pose proof (random_file_spec lonely_fs 0 (lit "music/a.mp3")) as (_ & _ & Hs).
  apply Hs. reflexivity.
Defined.

(** *** Recovery when no sibling track exists *)

Section Recovery.
Context {M : Type} `{Playback M}.
Variable env : Env.

Lemma keeps_bind {A B} (c : Act M A) (k : A -> Act M B) :
  keeps_player (M:=M) c -> (forall a, keeps_player (M:=M) (k a)) -> keeps_player (M:=M) (bind c k).
Proof.
  intros Hc Hk w. unfold bind. specialize (Hc w).
  destruct (c w) as [w' [a|e]]; simpl in *; [|done].
  destruct (Hk a w') as [-> ->]. done.
Qed.

Lemma keeps_eval {A} (r : World M -> Result A) : keeps_player (M:=M) (eval r).
Proof. done. Qed.

Lemma keeps_set_line i content : keeps_player (M:=M) (set_line i content).
Proof. intros w. unfold set_line. by destruct (setitem _ _ _). Qed.

Lemma keeps_apply_symbol f : keeps_player (M:=M) (apply_symbol f).
Proof. intros w. unfold apply_symbol. by destruct (f _). Qed.

Lemma keeps_redraw : keeps_player (M:=M) (redraw env).
Proof. done. Qed.

Lemma keeps_refresh :
  keeps_player (M:=M)
    (bind (eval (update_bar env)) (fun bar =>
     bind (set_line 2 (bar, true)) (fun _ =>
     bind (eval (update_song_info env)) (fun info =>
     bind (set_line 4 (info, true)) (fun _ =>
     bind (apply_symbol pause_symbol) (fun _ => redraw env)))))).
Proof.
  repeat (apply keeps_bind; [|intros ?]);
    auto using keeps_eval, keeps_set_line, keeps_apply_symbol, keeps_redraw.
Qed.

Lemma play_random_file_not_found draw w :
  random_file (fs env) draw (m_file w) = Raise PygameError ->
  play_random_file env draw w = (w, Raise PygameError).
Proof. intros Hr. unfold play_random_file, bind, eval. by rewrite Hr. Qed.

End Recovery.

(** C4: when the sibling pick raises [pygame.error], the shuffle key
    keeps the current file, rewinds the mixer and, if the mixer is not busy
    after that, unpauses it (when it is busy nothing else changes); the
    end-of-track watcher leaves the whole world as it was. *)
Theorem not_found_recovery {M : Type} `{Playback M} (env : Env) (draw : nat)
    (w : World M) :
  random_file (fs env) draw (m_file w) = Raise PygameError ->
  let rewound := music_rewind (mixer w) in
  let shuffled := (key_page_down env draw w).1 in
  m_file shuffled = m_file w
  /\ mixer shuffled =
       (if music_get_busy rewound then rewound else music_unpause rewound)
  /\ (music_get_busy rewound = true ->
        key_page_down env draw w =
          ({| mixer := rewound; i_lines := i_lines w; m_file := m_file w;
              stdout := stdout w |}, Ok tt))
  /\ track_ended env draw w = (w, Ok tt).
Proof.
  intros Hr rewound shuffled. subst shuffled.
  unfold key_page_down, track_ended, try_except_pygame.
  rewrite (play_random_file_not_found env draw w Hr).
  split; [|split; [|split]]; [| | |done].
  - unfold bind at 1. unfold on_mixer at 1. unfold bind at 1. unfold eval at 1.
    cbn [mixer]. fold rewound.
    destruct (music_get_busy rewound); [done|].
    unfold bind at 1. unfold on_mixer at 1.
    match goal with |- m_file (?c ?w0).1 = _ =>
      destruct (keeps_refresh env w0) as [_ ->] end.
    done.
  - unfold bind at 1. unfold on_mixer at 1. unfold bind at 1. unfold eval at 1.
    cbn [mixer]. fold rewound.
    destruct (music_get_busy rewound); [done|].
    unfold bind at 1. unfold on_mixer at 1.
    match goal with |- mixer (?c ?w0).1 = _ =>
      destruct (keeps_refresh env w0) as [-> _] end.
    done.
  - intros Hb.
    unfold bind at 1. unfold on_mixer at 1. unfold bind at 1. unfold eval at 1.
    cbn [mixer]. fold rewound. rewrite Hb. done.
Qed.

Lemma not_found_recovery_witness :
  random_file (fs demo_env) 0 (m_file (demo_world false)) = Raise PygameError
  /\ mixer (key_page_down demo_env 0 (demo_world false)).1 =
       {| sm_loaded := lit "music/a.mp3"; sm_busy := true; sm_pos := 0;
          sm_volume := of_ratio 1 1 |}
  /\ track_ended demo_env 0 (demo_world false) = (demo_world false, Ok tt).
Proof.
  assert (Hr : random_file (fs demo_env) 0 (m_file (demo_world false))
               = Raise PygameError) by reflexivity.
  split; [exact Hr|].
  destruct (not_found_recovery demo_env 0 (demo_world false) Hr)
    as (_ & Hm & _ & Ht).
  split; [exact Hm | exact Ht].
Defined.

(** *** Binary64 rounding *)

Section Binary64.

(** *** Mantissa width *)

Lemma digits2_pos_bounds (p : positive) :
  2 ^ (Zpos (digits2_pos p) - 1) <= Zpos p < 2 ^ Zpos (digits2_pos p).
Proof.
  induction p as [p IH | p IH |]; cbn [digits2_pos].
  - rewrite Pos2Z.inj_succ.
    replace (Z.succ (Zpos (digits2_pos p)) - 1) with (Zpos (digits2_pos p) - 1 + 1) by lia.
    rewrite Z.pow_succ_r by lia.
    destruct (Z.eq_dec (Zpos (digits2_pos p)) 1) as [E|E].
    + rewrite E in *. simpl in *. lia.
    + rewrite Z.pow_add_r by lia. change (2 ^ 1) with 2. lia.
  - rewrite Pos2Z.inj_succ.
    replace (Z.succ (Zpos (digits2_pos p)) - 1) with (Zpos (digits2_pos p) - 1 + 1) by lia.
    rewrite Z.pow_succ_r by lia.
    destruct (Z.eq_dec (Zpos (digits2_pos p)) 1) as [E|E].
    + rewrite E in *. simpl in *. lia.
    + rewrite Z.pow_add_r by lia. change (2 ^ 1) with 2. lia.
  - simpl. lia.
Qed.

Lemma pow2_lt_mono a b : 0 <= a -> 2 ^ a < 2 ^ b -> a < b.
Proof.
  intros Ha Hlt. destruct (Z_lt_le_dec a b) as [|Hle]; [done|].
  destruct (Z_lt_le_dec b 0).
  - rewrite (Z.pow_neg_r 2 b) in Hlt by lia. pose proof (Z.pow_pos_nonneg 2 a). lia.
  - pose proof (Z.pow_le_mono_r 2 b a ltac:(lia) Hle). lia.
Qed.

(** *** Right shifts with sticky bits *)

Lemma iter_pos_nat {A} (f : A -> A) (p : positive) (x : A) :
  SpecFloat.iter_pos f p x = Nat.iter (Pos.to_nat p) f x.
Proof.
  revert x. induction p as [p IH | p IH |]; intros x; cbn [SpecFloat.iter_pos].
  - rewrite !IH, Pos2Nat.inj_xI.
    replace (S (2 * Pos.to_nat p)) with (Pos.to_nat p + (Pos.to_nat p + 1))%nat by lia.
    rewrite !Nat.iter_add. simpl. done.
  - rewrite !IH, Pos2Nat.inj_xO.
    replace (2 * Pos.to_nat p)%nat with (Pos.to_nat p + Pos.to_nat p)%nat by lia.
    by rewrite Nat.iter_add.
  - done.
Qed.

Lemma shr_1_m mrs : 0 <= shr_m mrs -> shr_m (shr_1 mrs) = shr_m mrs / 2.
Proof.
  destruct mrs as [m r s]. cbn [shr_m]. intros Hm.
  destruct m as [|[p|p|]|]; cbn [shr_1 shr_m]; try lia; try done.
  - rewrite Pos2Z.inj_xI. apply Z.div_unique with (r := 1); lia.
  - rewrite Pos2Z.inj_xO. apply Z.div_unique with (r := 0); lia.
Qed.

Lemma shr_1_exact mrs :
  0 <= shr_m mrs -> shr_m mrs mod 2 = 0 -> shr_r mrs = false -> shr_s mrs = false ->
  shr_r (shr_1 mrs) = false /\ shr_s (shr_1 mrs) = false.
Proof.
  destruct mrs as [m r s]. cbn [shr_m shr_r shr_s]. intros Hm He -> ->.
  destruct m as [|[p|p|]|]; cbn [shr_1 shr_r shr_s]; try done.
  rewrite Pos2Z.inj_xI in He.
  rewrite Z.add_comm, Z.mul_comm, Z.mod_add in He by lia. done.
Qed.

Lemma shr_iter (k : nat) (m : Z) :
  0 <= m ->
  shr_m (Nat.iter k shr_1 (Build_shr_record m false false)) = m / 2 ^ Z.of_nat k
  /\ (m mod 2 ^ Z.of_nat k = 0 ->
      shr_r (Nat.iter k shr_1 (Build_shr_record m false false)) = false
      /\ shr_s (Nat.iter k shr_1 (Build_shr_record m false false)) = false).
Proof.
  intros Hm. induction k as [|k [IHm IHe]].
  - simpl. rewrite Z.div_1_r. done.
  - rewrite !Nat.iter_succ. set (mrs := Nat.iter k shr_1 _) in *.
    assert (Hpos : 0 <= shr_m mrs)
      by (rewrite IHm; apply Z.div_pos; [done | apply Z.pow_pos_nonneg; lia]).
    rewrite Nat2Z.inj_succ, Z.pow_succ_r by lia.
    split.
    + rewrite shr_1_m, IHm by done.
      rewrite Z.div_div by (try apply Z.pow_pos_nonneg; lia).
      f_equal. lia.
    + intros Hz.
      assert (H2k : 0 < 2 ^ Z.of_nat k) by (apply Z.pow_pos_nonneg; lia).
      pose proof (Z.div_mod m (2 * 2 ^ Z.of_nat k) ltac:(lia)) as Hdm.
      rewrite Hz in Hdm.
      set (q := m / (2 * 2 ^ Z.of_nat k)) in *.
      assert (Hmk : m = (2 * q) * 2 ^ Z.of_nat k) by lia.
      assert (Hmod : m mod 2 ^ Z.of_nat k = 0).
      { rewrite Hmk. apply Z.mod_mul. lia. }
      destruct (IHe Hmod) as [Hr Hs].
      apply shr_1_exact; try done.
      rewrite IHm, Hmk, Z.div_mul by lia.
      rewrite Z.mul_comm. apply Z.mod_mul. lia.
Qed.

(** Shifting an exact mantissa right by [n] bits: the quotient, and no
    sticky bit when nothing is lost. *)
Lemma shr_exact_spec (m e n : Z) :
  0 <= m ->
  let '(mrs, e') := shr (Build_shr_record m false false) e n in
  e' = e + Z.max 0 n
  /\ shr_m mrs = m / 2 ^ Z.max 0 n
  /\ (m mod 2 ^ Z.max 0 n = 0 -> shr_r mrs = false /\ shr_s mrs = false).
Proof.
  intros Hm. destruct n as [|p|p]; cbn [shr].
  - simpl. rewrite Z.div_1_r. split; [lia|done].
  - rewrite iter_pos_nat.
    destruct (shr_iter (Pos.to_nat p) m Hm) as [H1 H2].
    rewrite positive_nat_Z in *.
    replace (Z.max 0 (Z.pos p)) with (Z.pos p) by lia. done.
  - simpl. rewrite Z.div_1_r. split; [lia|done].
Qed.

Lemma round_nearest_even_bounds mrs :
  shr_m mrs <= round_nearest_even (shr_m mrs) (loc_of_shr_record mrs) <= shr_m mrs + 1
  /\ (shr_r mrs = false -> shr_s mrs = false ->
      round_nearest_even (shr_m mrs) (loc_of_shr_record mrs) = shr_m mrs).
Proof.
  destruct mrs as [m [|] [|]]; cbn; try destruct (Z.even m); split; try lia; done.
Qed.

(** *** Rounding never crosses a representable integer *)

Lemma fexp_unfold x : fexp prec emax x = Z.max (x - 53) (-1074).
Proof. reflexivity. Qed.

Lemma digits_le_int (m e W : Z) :
  0 < m -> W < 2 ^ 53 -> le_int m e W -> Zdigits2 m + e <= 53.
Proof.
  intros Hm HW [He Hle]. destruct m as [|p|p]; try lia. cbn [Zdigits2].
  pose proof (digits2_pos_bounds p) as [Hlo _].
  assert (H2e : 0 < 2 ^ (- e)) by (apply Z.pow_pos_nonneg; lia).
  assert (Hlt : 2 ^ (Zpos (digits2_pos p) - 1) < 2 ^ (53 - e)).
  { replace (53 - e) with (53 + - e) by lia. rewrite Z.pow_add_r by lia. nia. }
  apply pow2_lt_mono in Hlt; lia.
Qed.

(** One [shr_fexp] step on an exact mantissa, seen as a division. *)
Lemma shift_le_int (m e W : Z) :
  0 <= m -> 0 <= W < 2 ^ 53 -> le_int m e W ->
  let n := Z.max 0 (fexp prec emax (Zdigits2 m + e) - e) in
  le_int (m / 2 ^ n) (e + n) W
  /\ (m / 2 ^ n = W * 2 ^ (- (e + n)) -> m mod 2 ^ n = 0).
Proof.
  intros Hm HW Hle n.
  assert (Hn : 0 <= n) by (subst n; lia).
  assert (He' : e + n <= 0).
  { pose proof Hle as [He _]. subst n. rewrite fexp_unfold.
    destruct (Z.eq_dec m 0) as [-> | Hne].
    - simpl. lia.
    - pose proof (digits_le_int m e W ltac:(lia) ltac:(lia) ltac:(done)). lia. }
  destruct Hle as [He Hle].
  assert (H2n : 0 < 2 ^ n) by (apply Z.pow_pos_nonneg; lia).
  assert (H2e : 0 < 2 ^ (- (e + n))) by (apply Z.pow_pos_nonneg; lia).
  assert (Hsplit : 2 ^ (- e) = 2 ^ (- (e + n)) * 2 ^ n).
  { rewrite <- Z.pow_add_r by lia. f_equal. lia. }
  rewrite Hsplit in Hle.
  pose proof (Z.div_mod m (2 ^ n) ltac:(lia)) as Hdm.
  pose proof (Z.mod_pos_bound m (2 ^ n) H2n) as Hmod.
  assert (Hq : m / 2 ^ n <= W * 2 ^ (- (e + n))) by nia.
  split; [split; done|].
  intros Heq. nia.
Qed.

Lemma shr_fexp_exact (m e : Z) :
  0 <= m ->
  exists mrs,
    shr_fexp prec emax m e loc_Exact
      = (mrs, e + Z.max 0 (fexp prec emax (Zdigits2 m + e) - e))
    /\ shr_m mrs = m / 2 ^ Z.max 0 (fexp prec emax (Zdigits2 m + e) - e)
    /\ (m mod 2 ^ Z.max 0 (fexp prec emax (Zdigits2 m + e) - e) = 0 ->
        shr_r mrs = false /\ shr_s mrs = false).
Proof.
  intros Hm. unfold shr_fexp. cbn [shr_record_of_loc].
  pose proof (shr_exact_spec m e (fexp prec emax (Zdigits2 m + e) - e) Hm) as Hs.
  destruct (shr _ e _) as [mrs e']. destruct Hs as (-> & H1 & H2).
  exists mrs. done.
Qed.

(** Rounding an exact product or integer that does not exceed the
    integer [W < 2^53] gives a float that does not exceed [W]. *)
Lemma binary_round_aux_le (s : bool) (m e W : Z) :
  0 < m -> 0 <= W < 2 ^ 53 -> le_int m e W ->
  match binary_round_aux prec emax s m e loc_Exact with
  | S754_zero s' => s' = s
  | S754_finite s' m' e' => s' = s /\ le_int (Zpos m') e' W
  | _ => False
  end.
Proof.
  intros Hm HW Hle. unfold binary_round_aux.
  destruct (shr_fexp_exact m e ltac:(lia)) as (mrs & -> & Hm1 & Hx1).
  destruct (shift_le_int m e W ltac:(lia) HW Hle) as [Hle1 Heq1].
  set (n := Z.max 0 (fexp prec emax (Zdigits2 m + e) - e)) in *.
  destruct (round_nearest_even_bounds mrs) as [Hrne Hrx].
  set (m2 := round_nearest_even (shr_m mrs) (loc_of_shr_record mrs)) in *.
  assert (H2n : 0 < 2 ^ n) by (apply Z.pow_pos_nonneg; subst n; lia).
  assert (Hm1pos : 0 <= shr_m mrs) by (rewrite Hm1; apply Z.div_pos; lia).
  assert (Hle2 : le_int m2 (e + n) W).
  { destruct Hle1 as [He1 Hb1]. split; [done|].
    rewrite <- Hm1 in Hb1, Heq1.
    destruct (Z.eq_dec (shr_m mrs) (W * 2 ^ (- (e + n)))) as [Heq | Hne].
    - destruct (Hx1 (Heq1 Heq)) as [Hr Hs]. rewrite (Hrx Hr Hs). done.
    - lia. }
  destruct (shr_fexp_exact m2 (e + n) ltac:(lia)) as (mrs2 & -> & Hm3 & _).
  destruct (shift_le_int m2 (e + n) W ltac:(lia) HW Hle2) as [[He3 Hb3] _].
  set (n2 := Z.max 0 (fexp prec emax (Zdigits2 m2 + (e + n)) - (e + n))) in *.
  rewrite <- Hm3 in Hb3.
  assert (Hm3pos : 0 <= shr_m mrs2)
    by (rewrite Hm3; apply Z.div_pos; [lia | apply Z.pow_pos_nonneg; subst n2; lia]).
  destruct (shr_m mrs2) as [|p|p] eqn:E3; [done| |lia].
  replace (e + n + n2 <=? emax - prec) with true
    by (symmetry; apply Z.leb_le; unfold emax, prec; lia).
  split; [done|]. split; done.
Qed.

(** *** Integers and the unit interval as floats *)

Lemma nat_iter_xO (k : nat) (p : positive) :
  Zpos (Nat.iter k xO p) = Zpos p * 2 ^ Z.of_nat k.
Proof.
  induction k as [|k IH].
  - simpl. lia.
  - rewrite Nat.iter_succ, Pos2Z.inj_xO, IH, Nat2Z.inj_succ, Z.pow_succ_r by lia.
    lia.
Qed.

Lemma pos_iter_xO (d p : positive) :
  Zpos (Pos.iter xO p d) = Zpos p * 2 ^ Zpos d.
Proof.
  rewrite Pos2Nat.inj_iter, <- (positive_nat_Z d).
  exact (nat_iter_xO (Pos.to_nat d) p).
Qed.

Lemma binary_normalize_le (w : Z) :
  0 < w < 2 ^ 53 ->
  match binary_normalize prec emax w 0 false with
  | S754_zero s' => s' = false
  | S754_finite s' m' e' => s' = false /\ le_int (Zpos m') e' w
  | _ => False
  end.
Proof.
  intros Hw. destruct w as [|p|p]; try lia.
  cbn [binary_normalize]. unfold binary_round.
  destruct (shl_align p 0 _) as [mz ez] eqn:Ea.
  apply binary_round_aux_le; [lia | lia |].
  unfold shl_align in Ea.
  destruct (fexp prec emax (Zpos (digits2_pos p) + 0) - 0) as [|d|d] eqn:Ed;
    injection Ea as <- <-.
  - split; [lia|]. simpl. lia.
  - split; [lia|]. simpl. lia.
  - assert (fexp prec emax (Zpos (digits2_pos p) + 0) = Zneg d) as -> by lia.
    split; [lia|]. rewrite pos_iter_xO.
    change (- Z.neg d) with (Z.pos d). apply Z.le_refl.
Qed.

Lemma of_int_le (w : Z) :
  0 < w < 2 ^ 53 ->
  exists y, of_int w = Ok y
    /\ match y with
       | S754_zero s' => s' = false
       | S754_finite s' m' e' => s' = false /\ le_int (Zpos m') e' w
       | _ => False
       end.
Proof.
  intros Hw. pose proof (binary_normalize_le w Hw) as Hb.
  unfold of_int. destruct (binary_normalize prec emax w 0 false); try done; eauto.
Qed.

Lemma one_eq : one = S754_finite false 4503599627370496 (-52).
Proof. reflexivity. Qed.

Lemma valid_digits (s : bool) (m : positive) (e : Z) :
  valid (S754_finite s m e) -> Zpos m < 2 ^ 53.
Proof.
  unfold valid. cbn [valid_binary]. unfold bounded, canonical_mantissa.
  intros [Hc _]%andb_prop. apply Z.eqb_eq in Hc.
  rewrite fexp_unfold in Hc.
  pose proof (digits2_pos_bounds m) as [_ Hhi].
  assert (Zpos (digits2_pos m) <= 53) by lia.
  pose proof (Z.pow_le_mono_r 2 (Zpos (digits2_pos m)) 53 ltac:(lia) ltac:(lia)).
  lia.
Qed.

(** A float of the unit interval is a zero, or [m * 2^e <= 1] with a
    positive sign. *)
Lemma in_unit_inv (x : float) :
  valid x -> in_unit x = true ->
  (exists s, x = S754_zero s)
  \/ (exists m e, x = S754_finite false m e /\ le_int (Zpos m) e 1).
Proof.
  unfold in_unit, fleb, SFleb, zero. rewrite one_eq.
  intros Hv [H0 H1]%andb_prop.
  destruct x as [s | s | | s m e]; [eauto | | |].
  - destruct s; cbn [SFcompare] in *; discriminate.
  - cbn [SFcompare] in *; discriminate.
  - right. destruct s; [cbn [SFcompare] in H0; discriminate|].
    exists m, e. split; [done|].
    pose proof (valid_digits false m e Hv) as Hd.
    cbn [SFcompare] in H1.
    destruct (Z.compare_spec e (-52)) as [-> | Hlt | Hgt]; [| |done].
    + rewrite Pos.compare_cont_spec in H1. cbn [Pos.switch_Eq] in H1.
      split; [lia|]. change (2 ^ (- -52)) with 4503599627370496.
      destruct (m ?= 4503599627370496)%positive eqn:Ec;
        cbn [Pos.switch_Eq] in H1; [| |discriminate].
      * apply Pos.compare_eq in Ec. rewrite Ec. apply Z.le_refl.
      * apply Pos.compare_lt_iff, Pos2Z.pos_lt_pos in Ec.
        rewrite Z.mul_1_l. apply Z.lt_le_incl. exact Ec.
    + split; [lia|].
      pose proof (Z.pow_le_mono_r 2 53 (- e) ltac:(lia) ltac:(lia)) as Hp.
      clear - Hd Hp. lia.
Qed.

End Binary64.

(** *** The progress bar *)

Section ProgressBar.

Lemma of_int_nonneg_le (w : Z) :
  0 < w < 2 ^ 53 -> exists y, of_int w = Ok y /\ nonneg_le y w.
Proof.
  intros Hw. destruct (of_int_le w Hw) as (y & Hy & Hb).
  exists y. split; [done|]. destruct y; done.
Qed.

Lemma fmul_unit_le (x y : float) (W : Z) :
  valid x -> in_unit x = true -> 0 <= W < 2 ^ 53 -> nonneg_le y W ->
  nonneg_le (fmul x y) W.
Proof.
  intros Hv Hu HW Hy.
  destruct (in_unit_inv x Hv Hu) as [[s ->] | (mx & ex & -> & Hex & Hmx)].
  - destruct y as [sy | sy | | sy my ey]; cbn in Hy |- *; done.
  - destruct y as [sy | sy | | sy my ey]; try done.
    destruct Hy as [-> [Hey Hmy]].
    unfold fmul. cbn [SFmul xorb].
    pose proof (binary_round_aux_le false (Zpos (mx * my)) (ex + ey) W) as Hr.
    assert (H2x : 0 < 2 ^ (- ex)) by (apply Z.pow_pos_nonneg; lia).
    assert (H2y : 0 < 2 ^ (- ey)) by (apply Z.pow_pos_nonneg; lia).
    assert (Hle : le_int (Zpos (mx * my)) (ex + ey) W).
    { split; [lia|].
      replace (- (ex + ey)) with (- ex + - ey) by lia.
      rewrite Z.pow_add_r, Pos2Z.inj_mul by lia. nia. }
    specialize (Hr ltac:(lia) HW Hle).
    destruct (binary_round_aux _ _ _ _ _ _); done.
Qed.

Lemma shiftl_nonpos (m e : Z) : e <= 0 -> Z.shiftl m e = m / 2 ^ (- e).
Proof.
  intros He. rewrite <- Z.shiftr_div_pow2 by lia.
  rewrite <- (Z.opp_involutive e) at 1. apply Z.shiftl_opp_r.
Qed.

Lemma to_int_nonneg_le (y : float) (W : Z) :
  0 <= W -> nonneg_le y W ->
  to_int y = Ok (floor y) /\ 0 <= floor y <= W.
Proof.
  intros HW Hy. destruct y as [s | s | | s m e]; [|done|done|].
  - cbn. split; [reflexivity|lia].
  - destruct Hy as [-> [He Hm]]. cbn [to_int floor cond_Zopp].
    split; [done|]. rewrite shiftl_nonpos by done.
    assert (H2 : 0 < 2 ^ (- e)) by (apply Z.pow_pos_nonneg; lia).
    split.
    + apply Z.div_pos; lia.
    + apply Z.div_le_upper_bound; lia.
Qed.

Lemma len_bar (filled w : Z) :
  0 <= filled <= w ->
  len (PyStr.mul [FULL_BLOCK] filled ++ PyStr.mul [LIGHT_SHADE] (w - filled)) = w.
Proof.
  intros Hf. rewrite len_app, !mul_singleton, !len_replicate. lia.
Qed.

End ProgressBar.

(** C5: for every float [f] with [0.0 <= f <= 1.0] and every width
    [0 < w < 2^53], [bar_parser] returns a string of length exactly [w]:
    [floor(f * w)] full blocks, where [f * w] is the product
    [percentage * max_width] as the source computes it, followed by
    light-shade characters.  The bound on [w] leaves out no bar that can
    exist: a string of [2^53] characters cannot be built, the source raises
    [MemoryError] there, which the total string repetition of the model
    does not represent. *)
Theorem bar_parser_spec (f : float) (w : Z) :
  valid f -> in_unit f = true -> 0 < w < 2 ^ 53 ->
  exists scaled,
    mul_int f w = Ok scaled
    /\ 0 <= floor scaled <= w
    /\ bar_parser f w =
         Ok (replicate (Z.to_nat (floor scaled)) FULL_BLOCK
             ++ replicate (Z.to_nat (w - floor scaled)) LIGHT_SHADE)
    /\ (forall bar, bar_parser f w = Ok bar -> len bar = w).
Proof.
  intros Hv Hu Hw.
  destruct (of_int_nonneg_le w Hw) as (y & Hy & Hyle).
  pose proof (fmul_unit_le f y w Hv Hu ltac:(lia) Hyle) as Hp.
  destruct (to_int_nonneg_le (fmul f y) w ltac:(lia) Hp) as [Hti Hb].
  exists (fmul f y).
  assert (Hm : mul_int f w = Ok (fmul f y)) by (unfold mul_int; by rewrite Hy).
  assert (Hbar : bar_parser f w =
            Ok (PyStr.mul [FULL_BLOCK] (floor (fmul f y))
                ++ PyStr.mul [LIGHT_SHADE] (w - floor (fmul f y)))).
  { unfold bar_parser. rewrite Hm. cbn [mbind Result_bind]. by rewrite Hti. }
  split; [done|]. split; [done|]. split.
  - rewrite Hbar, !mul_singleton. done.
  - intros bar. rewrite Hbar. intros [= <-]. by apply len_bar.
Qed.

Lemma bar_parser_spec_witness :
  bar_parser (of_ratio 1 2) 46
  = Ok (replicate 23 FULL_BLOCK ++ replicate 23 LIGHT_SHADE).
Proof.
  destruct (bar_parser_spec (of_ratio 1 2) 46) as (scaled & Hs & _ & Hb & _);
    [reflexivity | reflexivity | split; reflexivity |].
  rewrite Hb. injection Hs as <-. reflexivity.
Defined.

(** *** Halving an integer through binary64 *)

Section Halving.

Lemma Zdigits2_unique (m d : Z) :
  0 < m -> 2 ^ (d - 1) <= m < 2 ^ d -> Zdigits2 m = d.
Proof.
  intros Hm [Hlo Hhi]. destruct m as [|p|p]; try lia. cbn [Zdigits2].
  pose proof (digits2_pos_bounds p) as [Hlo' Hhi'].
  assert (Hd : 1 <= d).
  { destruct (Z_lt_le_dec d 1) as [Hlt|]; [|done].
    assert (2 ^ d <= 2 ^ 0).
    { destruct (Z_lt_le_dec d 0).
      - rewrite Z.pow_neg_r by lia. simpl. lia.
      - apply Z.pow_le_mono_r; lia. }
    simpl in *. lia. }
  assert (H1 : d - 1 < Zpos (digits2_pos p))
    by (apply pow2_lt_mono; [lia|]; lia).
  assert (H2 : Zpos (digits2_pos p) - 1 < d)
    by (apply pow2_lt_mono; [lia|]; lia).
  lia.
Qed.

(** Dividing an integer below [2^53] by two is exact: the quotient
    keeps the 53-bit mantissa and lowers the exponent by one. *)
Lemma of_ratio_half (p : positive) :
  Zpos p < 2 ^ 53 ->
  exists q : positive,
    of_ratio (Zpos p) 2 = S754_finite false q (Zpos (digits2_pos p) - 54)
    /\ Zpos q = Zpos p * 2 ^ (53 - Zpos (digits2_pos p)).
Proof.
  intros Hp.
  pose proof (digits2_pos_bounds p) as [Hlo Hhi].
  set (d := Zpos (digits2_pos p)) in *.
  assert (Hd1 : 1 <= d) by (subst d; lia).
  assert (Hd : d <= 53).
  { assert (d - 1 < 53) by (apply pow2_lt_mono; lia). lia. }
  set (k := 53 - d).
  assert (Hk : 0 <= k) by (subst k; lia).
  assert (H2k : 0 < 2 ^ k) by (apply Z.pow_pos_nonneg; lia).
  unfold of_ratio, fdiv, raw. cbn [SFdiv xorb].
  unfold SFdiv_core_binary.
  change (Zdigits2 (Zpos p)) with d. change (Zdigits2 2) with 2.
  rewrite fexp_unfold.
  replace (Z.min (Z.max (d + 0 - (2 + 0) - 53) (-1074)) (0 - 0)) with (- (k + 2))
    by (subst k; lia).
  replace (0 - 0 - - (k + 2)) with (k + 2) by lia.
  destruct (k + 2) as [|s|s] eqn:Es; try lia.
  rewrite <- Es. rewrite Z.shiftl_mul_pow2 by lia.
  assert (Hdiv : Z.div_eucl (Zpos p * 2 ^ (k + 2)) 2 = (Zpos p * 2 ^ (k + 1), 0)).
  { pose proof (Z.div_eucl_eq (Zpos p * 2 ^ (k + 2)) 2 ltac:(lia)) as He.
    pose proof (Z.mod_pos_bound (Zpos p * 2 ^ (k + 2)) 2 ltac:(lia)) as Hb.
    unfold Z.modulo in Hb.
    destruct (Z.div_eucl (Zpos p * 2 ^ (k + 2)) 2) as [q r].
    replace (k + 2) with (Z.succ (k + 1)) in He by lia.
    rewrite Z.pow_succ_r in He by lia.
    replace (Z.pos p * (2 * 2 ^ (k + 1))) with (2 * (Z.pos p * 2 ^ (k + 1)))
      in He by ring.
    generalize dependent (Z.pos p * 2 ^ (k + 1)). intros X He.
    assert (r = 0) by lia. subst r.
    f_equal. lia. }
  rewrite Hdiv.
  change (new_location 2 0) with loc_Exact.
  unfold binary_round_aux.
  set (Q := Zpos p * 2 ^ (k + 1)).
  assert (HQ : 0 < Q) by (subst Q; apply Z.mul_pos_pos; [lia | apply Z.pow_pos_nonneg; lia]).
  assert (HQd : Zdigits2 Q = 54).
  { apply Zdigits2_unique; [done|]. subst Q.
    replace (54 - 1) with (d - 1 + (k + 1)) by (subst k; lia).
    replace 54 with (d + (k + 1)) by (subst k; lia).
    rewrite !Z.pow_add_r by lia.
    assert (0 < 2 ^ (k + 1)) by (apply Z.pow_pos_nonneg; lia).
    split; [apply Z.mul_le_mono_nonneg_r | apply Z.mul_lt_mono_pos_r]; lia. }
  destruct (shr_fexp_exact Q (- (k + 2)) ltac:(lia)) as (mrs & -> & Hm1 & Hx1).
  rewrite HQd, fexp_unfold in Hm1, Hx1 |- *.
  replace (Z.max 0 (Z.max (54 + - (k + 2) - 53) (-1074) - - (k + 2))) with 1
    in Hm1, Hx1 |- * by (subst k; lia).
  change (2 ^ 1) with 2 in Hm1, Hx1.
  assert (HQ2 : Q = 2 * (Zpos p * 2 ^ k)).
  { subst Q. rewrite Z.pow_add_r by lia. change (2 ^ 1) with 2. lia. }
  assert (Hm1' : shr_m mrs = Zpos p * 2 ^ k).
  { rewrite Hm1, HQ2, Z.mul_comm, Z.div_mul by lia. done. }
  assert (Hmod : Q mod 2 = 0).
  { rewrite HQ2, Z.mul_comm. apply Z.mod_mul. lia. }
  destruct (Hx1 Hmod) as [Hr Hs].
  destruct (round_nearest_even_bounds mrs) as [_ Hrx].
  rewrite (Hrx Hr Hs), Hm1'.
  set (m2 := Zpos p * 2 ^ k).
  assert (Hm2 : 0 < m2) by (subst m2; nia).
  assert (Hm2d : Zdigits2 m2 = 53).
  { apply Zdigits2_unique; [done|]. subst m2.
    replace (53 - 1) with (d - 1 + k) by (subst k; lia).
    replace 53 with (d + k) by (subst k; lia).
    rewrite !Z.pow_add_r by lia.
    split; [apply Z.mul_le_mono_nonneg_r | apply Z.mul_lt_mono_pos_r]; lia. }
  destruct (shr_fexp_exact m2 (- (k + 2) + 1) ltac:(lia)) as (mrs2 & -> & Hm3 & _).
  rewrite Hm2d, fexp_unfold in Hm3 |- *.
  replace (Z.max 0 (Z.max (53 + (- (k + 2) + 1) - 53) (-1074) - (- (k + 2) + 1)))
    with 0 in Hm3 |- * by (subst k; lia).
  rewrite Z.div_1_r in Hm3.
  destruct (shr_m mrs2) as [|q|q] eqn:E3; try lia.
  replace (- (k + 2) + 1 + 0 <=? emax - prec) with true
    by (symmetry; apply Z.leb_le; unfold emax, prec; lia).
  exists q. split.
  - f_equal. subst k. lia.
  - rewrite Hm3. subst m2 k. done.
Qed.

(** [int(n / 2)] through binary64 is the integer quotient. *)
Lemma int_half_float (n : Z) :
  0 <= n < 2 ^ 53 -> int_truediv n 2 ≫= to_int = Ok (int_half n).
Proof.
  intros Hn. destruct n as [|p|p]; try lia.
  - reflexivity.
  - destruct (of_ratio_half p ltac:(lia)) as (q & Hq & Hqv).
    pose proof (digits2_pos_bounds p) as [Hlo Hhi].
    set (d := Zpos (digits2_pos p)) in *.
    assert (Hd : d <= 53).
    { assert (d - 1 < 53) by (apply pow2_lt_mono; lia). lia. }
    unfold int_truediv. change (2 =? 0) with false. cbv iota. rewrite Hq.
    cbn [mbind Result_bind to_int cond_Zopp]. f_equal.
    rewrite shiftl_nonpos by lia. rewrite Hqv.
    unfold int_half. rewrite Z.quot_div_nonneg by lia.
    replace (- (d - 54)) with (53 - d + 1) by lia.
    rewrite Z.pow_add_r by lia. change (2 ^ 1) with 2.
    assert (0 < 2 ^ (53 - d)) by (apply Z.pow_pos_nonneg; lia).
    rewrite (Z.mul_comm (2 ^ (53 - d)) 2).
    rewrite Z.div_mul_cancel_r by lia. done.
Qed.

End Halving.

(** *** The volume keys *)

Section Volume.

Lemma nearest_even_unit (m e : Z) :
  0 < m -> le_int m e 1 -> 0 <= nearest_even (m * 10) e <= 10.
Proof.
  intros Hm [He Hle]. unfold nearest_even.
  destruct (0 <=? e) eqn:E.
  - apply Z.leb_le in E. assert (e = 0) as -> by lia.
    change (2 ^ (- 0)) with 1 in Hle. change (2 ^ 0) with 1. lia.
  - assert (Hd : 0 < 2 ^ (- e)) by (apply Z.pow_pos_nonneg; lia).
    set (d := 2 ^ (- e)) in *.
    pose proof (Z.div_mod (m * 10) d ltac:(lia)) as Hdm.
    pose proof (Z.mod_pos_bound (m * 10) d Hd) as Hmod.
    assert (Hq0 : 0 <= m * 10 / d) by (apply Z.div_pos; lia).
    assert (Hq : m * 10 / d <= 10) by (apply Z.div_le_upper_bound; lia).
    destruct (Z.eq_dec (m * 10 / d) 10) as [E10 | N10].
    + assert (Hz : (m * 10) mod d = 0) by nia.
      rewrite Hz, E10. change (2 * 0) with 0.
      destruct (Z.compare_spec 0 d) as [Heq | Hlt | Hgt]; [lia | | lia].
      lia.
    + destruct (2 * ((m * 10) mod d) ?= d); [destruct (Z.even _)| |]; lia.
Qed.

(** Rounding a volume of the unit interval to one decimal gives one of
    the eleven tenths (or the zero itself). *)
Lemma round_unit (v : float) :
  valid v -> in_unit v = true ->
  (exists s, round v 1 = S754_zero s)
  \/ (exists k, 0 <= k <= 10 /\ round v 1 = of_ratio k 10).
Proof.
  intros Hv Hu.
  destruct (in_unit_inv v Hv Hu) as [[s ->] | (m & e & -> & Hle)].
  - left. by exists s.
  - right. exists (nearest_even (Zpos m * 10) e). split.
    + apply nearest_even_unit; [lia | done].
    + unfold round. change (10 ^ Z.of_nat 1) with 10. reflexivity.
Qed.

Lemma steps_in_range_tenths (k : Z) :
  0 <= k <= 10 -> steps_in_range (of_ratio k 10) = true.
Proof.
  intros Hk.
  assert (k = 0 \/ k = 1 \/ k = 2 \/ k = 3 \/ k = 4 \/ k = 5 \/ k = 6
          \/ k = 7 \/ k = 8 \/ k = 9 \/ k = 10) as Hc by lia.
  repeat (destruct Hc as [-> | Hc]; [vm_compute; reflexivity|]).
  subst k. vm_compute. reflexivity.
Qed.

Lemma steps_in_range_unit (v : float) :
  valid v -> in_unit v = true -> steps_in_range (round v 1) = true.
Proof.
  intros Hv Hu. destruct (round_unit v Hv Hu) as [[s ->] | (k & Hk & ->)].
  - destruct s; vm_compute; reflexivity.
  - by apply steps_in_range_tenths.
Qed.

Context {M : Type} `{Playback M}.
Variable env : Env.

Lemma key_volume_mixer (new_vol : float -> float) (w : World M) :
  mixer (key_volume env new_vol w).1
  = music_set_volume (new_vol (music_get_volume (mixer w))) (mixer w).
Proof.
  unfold key_volume. unfold bind at 1. unfold eval at 1.
  unfold bind at 1. unfold on_mixer at 1.
  match goal with |- mixer (?c ?w0).1 = _ =>
    assert (Hk : keeps_player c) end.
  { repeat (apply keeps_bind; [|intros ?]);
      auto using keeps_eval, keeps_set_line, keeps_redraw. }
  destruct (Hk {| mixer := music_set_volume (new_vol (music_get_volume (mixer w))) (mixer w);
                  i_lines := i_lines w; m_file := m_file w; stdout := stdout w |})
    as [-> _].
  done.
Qed.

End Volume.

(** C2 counterexample: at volume 0.0 the F8 handler passes -0.1, and at
    volume 1.0 the F9 handler passes 1.1. *)
Lemma volume_not_clamped :
  in_unit zero = true /\ in_unit one = true
  /\ lower_volume zero = of_ratio (-1) 10
  /\ in_unit (lower_volume zero) = false
  /\ raise_volume one = of_ratio 11 10
  /\ in_unit (raise_volume one) = false.
Proof. vm_compute. repeat split; reflexivity. Qed.

(** C2, as amended: the F8 and F9 handlers pass
    [round(round(v, 1), 8) - 0.1] and [round(round(v, 1), 8) + 0.1] to
    [set_volume] without clamping; for a current volume [v] of the unit
    interval the value passed lies in [-0.1, 0.9] and in [0.1, 1.1]
    respectively. *)
Theorem volume_keys_range {M : Type} `{Playback M} (env : Env) (w : World M) :
  let v := music_get_volume (mixer w) in
  mixer (key_f8 env w).1 = music_set_volume (lower_volume v) (mixer w)
  /\ mixer (key_f9 env w).1 = music_set_volume (raise_volume v) (mixer w)
  /\ lower_volume v = fsub (round (round v 1) 8) (of_ratio 1 10)
  /\ raise_volume v = fadd (round (round v 1) 8) (of_ratio 1 10)
  /\ (valid v -> in_unit v = true ->
        fleb (of_ratio (-1) 10) (lower_volume v) = true
        /\ fleb (lower_volume v) (of_ratio 9 10) = true
        /\ fleb (of_ratio 1 10) (raise_volume v) = true
        /\ fleb (raise_volume v) (of_ratio 11 10) = true).
Proof.
  intros v. split; [apply key_volume_mixer|]. split; [apply key_volume_mixer|].
  split; [done|]. split; [done|].
  intros Hv Hu. pose proof (steps_in_range_unit v Hv Hu) as Hs.
  unfold steps_in_range in Hs.
  apply andb_prop in Hs as [Hs H4]. apply andb_prop in Hs as [Hs H3].
  apply andb_prop in Hs as [H1 H2]. done.
Qed.

Lemma volume_keys_range_witness :
  fleb (of_ratio (-1) 10) (lower_volume (of_ratio 38 128)) = true
  /\ fleb (lower_volume (of_ratio 38 128)) (of_ratio 9 10) = true
  /\ fleb (of_ratio 1 10) (raise_volume (of_ratio 38 128)) = true
  /\ fleb (raise_volume (of_ratio 38 128)) (of_ratio 11 10) = true.
Proof.
  pose proof (volume_keys_range demo_env
           {| mixer := {| sm_loaded := []; sm_busy := true; sm_pos := 0;
                          sm_volume := of_ratio 38 128 |};
              i_lines := []; m_file := []; stdout := [] |}) as Hk.
  destruct Hk as (_ & _ & _ & _ & Hr).
  apply Hr; reflexivity.
Defined.

(** *** The status line and the periodic update *)

Section StatusLine.

Lemma endswith_rjust (s : pystr) (width : Z) : endswith (rjust s width) s = true.
Proof.
  unfold rjust. destruct (width <=? len s).
  - apply (endswith_app []).
  - unfold pad. rewrite app_nil_r. apply endswith_app.
Qed.

Lemma bump_nine_spec (p : Z) :
  (p mod 10 = 9 -> bump_nine p = p + 1 /\ bump_nine p mod 10 = 0)
  /\ (p mod 10 <> 9 -> bump_nine p = p).
Proof.
  unfold bump_nine. split; intros Hp.
  - rewrite Hp. simpl. split; [done|].
    rewrite <- Zplus_mod_idemp_l, Hp. reflexivity.
  - destruct (p mod 10 =? 9) eqn:E; [|done]. apply Z.eqb_eq in E. done.
Qed.

Lemma song_info_parser_label (cs ts : Z) (volume : float) (w p : Z) :
  truncated_percent volume = Ok p ->
  exists line, song_info_parser cs ts volume w = Ok line
    /\ endswith line (volume_label (bump_nine p)) = true.
Proof.
  unfold truncated_percent. intros Hp.
  apply bind_Ok in Hp as (scaled & Hs & Hp).
  unfold song_info_parser. rewrite Hs. cbn [mbind Result_bind]. rewrite Hp.
  cbn [mbind Result_bind]. eexists. split; [reflexivity|].
  rewrite !app_assoc. apply endswith_app_r. apply endswith_rjust.
Qed.

End StatusLine.

(** C6 counterexample: [0.29 * 100] evaluates to 28.999999999999996, so
    volume 0.29 is shown as 28%, not as 30%. *)
Lemma volume_029_shows_28 :
  truncated_percent (of_ratio 29 100) = Ok 28
  /\ displays (song_info_parser 0 0 (of_ratio 29 100) box_width)
       (lit "Volume: 28%") = true
  /\ displays (song_info_parser 0 0 (of_ratio 29 100) box_width)
       (lit "Volume: 30%") = false.
Proof. repeat split; vm_compute; reflexivity. Qed.

(** C6, as amended: the status line ends with the volume label of
    [p = int(volume * 100)], where a last digit of 9 is rounded up to the
    next multiple of 10 and every other [p] is shown as it is; 0.25 is
    shown as 25%, and 38/128 (what the mixer reports once 0.3 was set)
    truncates to 29 and is shown as 30%. *)
Theorem volume_display_rounding (cs ts : Z) (volume : float) (w p : Z) :
  truncated_percent volume = Ok p ->
  displays (song_info_parser cs ts volume w) (volume_label (bump_nine p)) = true
  /\ (p mod 10 = 9 -> bump_nine p = p + 1 /\ bump_nine p mod 10 = 0)
  /\ (p mod 10 <> 9 -> bump_nine p = p)
  /\ truncated_percent (of_ratio 25 100) = Ok 25
  /\ bump_nine 25 = 25
  /\ truncated_percent (of_ratio 38 128) = Ok 29
  /\ bump_nine 29 = 30.
Proof.
  intros Hp. split.
  { destruct (song_info_parser_label cs ts volume w p Hp) as (line & -> & Hl).
    exact Hl. }
  split; [apply bump_nine_spec|]. split; [apply bump_nine_spec|].
  repeat split; vm_compute; reflexivity.
Qed.

Lemma volume_display_rounding_witness :
  displays (song_info_parser 75 200 (of_ratio 38 128) box_width)
    (lit "Volume: 30%") = true.
Proof.
  pose proof (volume_display_rounding 75 200 (of_ratio 38 128) box_width 29) as Hd.
  destruct Hd as (Hl & _); [vm_compute; reflexivity|].
  exact Hl.
Defined.

(** C1: when the duration of the track truncates to zero seconds,
    [update_bar] raises [ZeroDivisionError], and so does the periodic
    update, which leaves the panel as it was. *)
Theorem update_bar_zero_duration {M : Type} `{Playback M} (env : Env)
    (w : World M) (secs : float) (curr_time : Z) :
  int_truediv (music_get_pos (mixer w)) 1000 = Ok secs ->
  to_int secs = Ok curr_time ->
  to_int (audio_length env (m_file w)) = Ok 0 ->
  update_bar env w = Raise ZeroDivisionError
  /\ poll_tick env w = (w, Raise ZeroDivisionError).
Proof.
  intros Hs Hc Ht.
  assert (Hu : update_bar env w = Raise ZeroDivisionError).
  { unfold update_bar. rewrite Hs. cbn [mbind Result_bind]. rewrite Hc.
    cbn [mbind Result_bind]. rewrite Ht. reflexivity. }
  split; [done|]. unfold poll_tick, bind, eval. by rewrite Hu.
Qed.

Lemma update_bar_zero_duration_witness :
  poll_tick silent_env (demo_world true) = (demo_world true, Raise ZeroDivisionError).
Proof.
  pose proof (update_bar_zero_duration silent_env (demo_world true)
                (of_ratio 200 1) 200) as Hz.
  destruct Hz as [_ Hp]; [vm_compute; reflexivity ..|].
  exact Hp.
Defined.

(** ** Further properties of the code *)

(** *** Paths and file names *)

Section Paths.

Lemma char_eqb_sym a b : char_eqb a b = char_eqb b a.
Proof. unfold char_eqb. apply Z.eqb_sym. Qed.

Lemma split_app sep a f : split sep (a ++ sep :: f) = split sep a ++ split sep f.
Proof.
  induction a as [|c a IH]; simpl.
  - unfold char_eqb. by rewrite Z.eqb_refl.
  - rewrite IH. destruct (char_eqb c sep); [done|].
    pose proof (split_nonempty sep a) as Hne.
    destruct (split sep a) as [|h t]; done.
Qed.

Lemma split_no_sep sep s : contains sep s = false -> split sep s = [s].
Proof.
  induction s as [|c s IH]; simpl; [done|].
  rewrite char_eqb_sym. destruct (char_eqb c sep); simpl; [done|].
  intros Hc. by rewrite IH.
Qed.

Lemma last_split_no_sep sep s : contains sep (List.last (split sep s) []) = false.
Proof.
  induction s as [|c s IH]; simpl; [done|].
  pose proof (split_nonempty sep s) as Hne.
  destruct (char_eqb c sep) eqn:E.
  - destruct (split sep s) as [|h t]; [done|]. exact IH.
  - destruct (split sep s) as [|h t]; [done|].
    destruct t as [|h' t]; [|exact IH].
    simpl in *. rewrite char_eqb_sym, E. exact IH.
Qed.

Lemma strip_path_no_slash path :
  contains SLASH (strip_path_from_filename path) = false.
Proof.
  unfold strip_path_from_filename.
  destruct (contains SLASH path) eqn:E; [apply last_split_no_sep | done].
Qed.

Lemma last_app_ne {A} (l1 l2 : list A) d : l2 <> [] -> List.last (l1 ++ l2) d = List.last l2 d.
Proof.
  intros Hne. induction l1 as [|x l1 IH]; [done|].
  simpl. destruct (l1 ++ l2) eqn:E; [|done].
  apply app_eq_nil in E as [_ ->]. done.
Qed.

Lemma strip_of_join fs a f :
  contains SLASH f = false ->
  strip_path_from_filename (a ++ SLASH :: f) = f
  /\ strip_filename_from_path fs (a ++ SLASH :: f) = a ++ [SLASH].
Proof.
  intros Hf.
  assert (Hc : contains SLASH (a ++ SLASH :: f) = true).
  { rewrite contains_app. replace (contains SLASH (SLASH :: f)) with true by reflexivity.
    apply orb_true_r. }
  unfold strip_path_from_filename, strip_filename_from_path. rewrite Hc. simpl.
  rewrite split_app, (split_no_sep SLASH f Hf). split.
  - by rewrite last_app_ne.
  - rewrite removelast_app by done. simpl. rewrite app_nil_r.
    by rewrite join_split.
Qed.

End Paths.

(** X1: for a path that contains a slash, the directory part returned by
    [strip_filename_from_path] followed by the file name returned by
    [strip_path_from_filename] is the path again; the directory part ends
    with a slash and the file name contains none. *)
Theorem path_split_round_trip (fs : FileSystem) (path : pystr) :
  contains SLASH path = true ->
  strip_filename_from_path fs path ++ strip_path_from_filename path = path
  /\ endswith (strip_filename_from_path fs path) [SLASH] = true
  /\ contains SLASH (strip_path_from_filename path) = false.
Proof.
  intros Hc. split; [symmetry; by apply path_decompose|]. split.
  - unfold strip_filename_from_path. rewrite Hc. simpl. apply endswith_app.
  - apply strip_path_no_slash.
Qed.

Lemma path_split_round_trip_witness :
  strip_filename_from_path demo_fs (lit "music/rock/a.mp3")
  ++ strip_path_from_filename (lit "music/rock/a.mp3") = lit "music/rock/a.mp3".
Proof.
  destruct (path_split_round_trip demo_fs (lit "music/rock/a.mp3")) as (Hr & _ & _);
    [reflexivity|].
  exact Hr.
Defined.

(** X2: splitting undoes joining: for a file name without a slash,
    [dir + "/" + file] splits into the file name [file] and the directory
    part [dir + "/"], whatever [dir] is. *)
Theorem path_split_of_join (fs : FileSystem) (dir file : pystr) :
  contains SLASH file = false ->
  strip_path_from_filename (dir ++ SLASH :: file) = file
  /\ strip_filename_from_path fs (dir ++ SLASH :: file) = dir ++ [SLASH].
Proof. apply strip_of_join. Qed.

Lemma path_split_of_join_witness :
  strip_path_from_filename (lit "music/rock" ++ SLASH :: lit "a.mp3") = lit "a.mp3"
  /\ strip_filename_from_path demo_fs (lit "music/rock" ++ SLASH :: lit "a.mp3")
     = lit "music/rock" ++ [SLASH].
Proof. apply (path_split_of_join demo_fs (lit "music/rock") (lit "a.mp3")). reflexivity. Defined.

(** X3: [strip_path_from_filename] is idempotent: the file name it returns
    is returned unchanged when it is stripped again. *)
Theorem strip_path_idempotent (path : pystr) :
  strip_path_from_filename (strip_path_from_filename path)
  = strip_path_from_filename path.
Proof.
  pose proof (strip_path_no_slash path) as Hn.
  unfold strip_path_from_filename at 1. by rewrite Hn.
Qed.

Section Shuffle.

Lemma path_join_dir a f :
  endswith a [SLASH] = true -> contains SLASH f = false -> path_join a f = a ++ f.
Proof.
  intros Ha Hf. unfold path_join.
  destruct (startswith f [SLASH]) eqn:Es.
  - apply startswith_slash_contains in Es. congruence.
  - by rewrite Ha, orb_true_r.
Qed.

Lemma endswith_inv s suffix : endswith s suffix = true -> exists a, s = a ++ suffix.
Proof.
  unfold endswith. intros [_ He]%andb_prop. apply eqb_eq in He.
  exists (take (length s - length suffix) s).
  rewrite <- (take_drop (length s - length suffix) s) at 1. by rewrite He.
Qed.

Lemma random_file_inv fs draw path p :
  random_file fs draw path = Ok p ->
  exists file,
    p = path_join (strip_filename_from_path fs path) file
    /\ In file (music_files (listdir fs (strip_filename_from_path fs path))
                  (strip_path_from_filename path)).
Proof.
  unfold random_file.
  destruct (music_files _ _) as [|c cs] eqn:Ec; [done|].
  destruct (random_choice_In draw (c :: cs)) as (file & Hch & Hin); [done|].
  rewrite Hch. intros [= <-]. eauto.
Qed.

End Shuffle.

(** X4: when the current path contains a slash and the directory listing
    holds plain names (no slash in them), a path returned by [random_file]
    lies in the directory of the current path and names a listed file with
    a music extension other than the current file. *)
Theorem random_file_same_directory (fs : FileSystem) (draw : nat) (path p : pystr) :
  contains SLASH path = true ->
  (forall file, In file (listdir fs (strip_filename_from_path fs path)) ->
     contains SLASH file = false) ->
  random_file fs draw path = Ok p ->
  strip_filename_from_path fs p = strip_filename_from_path fs path
  /\ In (strip_path_from_filename p) (listdir fs (strip_filename_from_path fs path))
  /\ is_music_file (strip_path_from_filename p) = true
  /\ strip_path_from_filename p <> strip_path_from_filename path.
Proof.
  intros Hc Hfiles Hr.
  apply random_file_inv in Hr as (file & -> & Hin).
  apply music_files_In in Hin as (Hin & Hm & Hne).
  pose proof (Hfiles file Hin) as Hf.
  assert (He : endswith (strip_filename_from_path fs path) [SLASH] = true).
  { unfold strip_filename_from_path. rewrite Hc. simpl. apply endswith_app. }
  rewrite path_join_dir by done.
  destruct (endswith_inv _ _ He) as [a Ha]. rewrite Ha.
  rewrite <- app_assoc. simpl.
  destruct (strip_of_join fs a file Hf) as [-> ->].
  rewrite <- Ha. done.
Qed.

Lemma random_file_same_directory_witness :
  strip_filename_from_path demo_fs (lit "music/b.ogg") = lit "music/"
  /\ strip_path_from_filename (lit "music/b.ogg") <> lit "a.mp3".
Proof.
  destruct (random_file_same_directory demo_fs 5 (lit "music/a.mp3") (lit "music/b.ogg"))
    as (Hd & _ & _ & Hn).
  - reflexivity.
  - intros file Hin. simpl in Hin.
    destruct Hin as [<- | [<- | [<- | []]]]; reflexivity.
  - reflexivity.
  - split; [exact Hd | exact Hn].
Defined.

(** X5: every candidate can be drawn: for each music file of the directory
    other than the current one there is a value of the random draw for
    which [random_file] returns that file joined to the directory. *)
Theorem random_file_reaches_every_candidate (fs : FileSystem) (path file : pystr) :
  In file (music_files (listdir fs (strip_filename_from_path fs path))
             (strip_path_from_filename path)) ->
  exists draw,
    random_file fs draw path = Ok (path_join (strip_filename_from_path fs path) file).
Proof.
  intros Hin. apply list_elem_of_In, list_elem_of_lookup in Hin as [i Hi].
  exists i. unfold random_file.
  destruct (music_files _ _) as [|c cs] eqn:Ec; [done|].
  unfold random_choice, getitem.
  rewrite Nat.mod_small by (by apply lookup_lt_Some in Hi).
  by rewrite Hi.
Qed.

Lemma random_file_reaches_every_candidate_witness :
  exists draw, random_file demo_fs draw (lit "music/a.mp3") = Ok (lit "music/b.ogg").
Proof.
  apply (random_file_reaches_every_candidate demo_fs (lit "music/a.mp3") (lit "b.ogg")).
  simpl. left. reflexivity.
Defined.

(** *** The transport symbol: errors, result and repetition *)

Section Symbol.

Lemma splice_symbol_Ok s1 s2 s3 (l : list DisplayLine) r6 r7 r8 :
  l !! 6%nat = Some r6 -> l !! 7%nat = Some r7 -> l !! 8%nat = Some r8 ->
  splice_symbol s1 s2 s3 l
  = Ok (<[8%nat := (slice r8.1 0 10 ++ s3 ++ slice_from r8.1 16, true)]>
         (<[7%nat := (slice r7.1 0 10 ++ s2 ++ slice_from r7.1 16, true)]>
           (<[6%nat := (slice r6.1 0 10 ++ s1 ++ slice_from r6.1 16, true)]> l))).
Proof.
  intros E6 E7 E8. unfold splice_symbol, getitem.
  pose proof (lookup_lt_Some _ _ _ E8) as Hl.
  unfold DisplayLine in *. rewrite E6, E7, E8.
  cbn [mbind Result_bind].
  assert (Hlen : forall i (l0 : list (list char * bool)),
                   length l0 = length l -> (i < 9)%nat ->
                   (i < length l0)%nat)
    by (intros i l0 -> Hi; lia).
  rewrite setitem_lt by (apply Hlen; [done | lia]).
  cbn [mbind Result_bind].
  rewrite setitem_lt by (apply Hlen; [by rewrite length_insert | lia]).
  cbn [mbind Result_bind].
  rewrite setitem_lt by (apply Hlen; [by rewrite !length_insert | lia]).
  done.
Qed.

Lemma splice_symbol_short s1 s2 s3 (l : list DisplayLine) :
  (length l < 9)%nat -> splice_symbol s1 s2 s3 l = Raise IndexError.
Proof.
  intros Hl. unfold splice_symbol, getitem.
  destruct (l !! 6%nat) as [r6|] eqn:E6; [|done].
  destruct (l !! 7%nat) as [r7|] eqn:E7; [|done].
  destruct (l !! 8%nat) as [r8|] eqn:E8; [|done].
  apply lookup_lt_Some in E8. lia.
Qed.

Lemma splice_symbol_cases s1 s2 s3 (l : list DisplayLine) :
  ((9 <= length l)%nat /\ exists l', splice_symbol s1 s2 s3 l = Ok l')
  \/ ((length l < 9)%nat /\ splice_symbol s1 s2 s3 l = Raise IndexError).
Proof.
  destruct (Nat.lt_ge_cases (length l) 9) as [Hlt | Hge].
  - right. split; [done | by apply splice_symbol_short].
  - left. split; [done | by apply splice_symbol_total].
Qed.

Lemma spliced_length sym text :
  length sym = 6%nat -> (10 <= length text)%nat ->
  length (slice text 0 10 ++ sym ++ slice_from text 16) = Nat.max 16 (length text).
Proof.
  intros Hs Ht. unfold slice, slice_from.
  rewrite !length_app, length_take, !length_drop, Hs. lia.
Qed.

Lemma spliced_columns sym text :
  length sym = 6%nat -> (10 <= length text)%nat ->
  slice (slice text 0 10 ++ sym ++ slice_from text 16) 10 16 = sym.
Proof.
  intros Hs Ht. unfold slice, slice_from. rewrite drop_0. simpl (10 - 0)%nat.
  simpl (16 - 10)%nat.
  assert (Hl : length (take 10 text) = 10%nat) by (rewrite length_take; lia).
  rewrite drop_app_ge by lia. rewrite Hl. simpl (10 - 10)%nat. rewrite drop_0.
  rewrite take_app_le by lia. apply take_ge. lia.
Qed.

Lemma spliced_again sym sym' text :
  length sym = 6%nat -> (10 <= length text)%nat ->
  slice (slice text 0 10 ++ sym ++ slice_from text 16) 0 10 ++ sym'
    ++ slice_from (slice text 0 10 ++ sym ++ slice_from text 16) 16
  = slice text 0 10 ++ sym' ++ slice_from text 16.
Proof.
  intros Hs Ht.
  destruct (splice_text text sym Hs Ht) as [H1 H2].
  unfold slice at 1. unfold slice_from at 2. rewrite drop_0. simpl (10 - 0)%nat.
  rewrite H1, H2. unfold slice, slice_from. by rewrite drop_0.
Qed.

Lemma splice_splice s1 s2 s3 t1 t2 t3 (l l1 : list DisplayLine) :
  length s1 = 6%nat -> length s2 = 6%nat -> length s3 = 6%nat ->
  glyph_rows_wide l ->
  splice_symbol s1 s2 s3 l = Ok l1 ->
  splice_symbol t1 t2 t3 l1 = splice_symbol t1 t2 t3 l.
Proof.
  intros H1 H2 H3 Hw Hs.
  apply splice_symbol_inv in Hs as (r6 & r7 & r8 & E6 & E7 & E8 & ->).
  pose proof (lookup_lt_Some _ _ _ E6) as L6.
  pose proof (lookup_lt_Some _ _ _ E7) as L7.
  pose proof (lookup_lt_Some _ _ _ E8) as L8.
  pose proof (Hw 6%nat r6 ltac:(lia) E6) as W6.
  pose proof (Hw 7%nat r7 ltac:(lia) E7) as W7.
  pose proof (Hw 8%nat r8 ltac:(lia) E8) as W8.
  rewrite (splice_symbol_Ok t1 t2 t3 l r6 r7 r8 E6 E7 E8).
  erewrite splice_symbol_Ok.
  2:{ rewrite list_lookup_insert_ne, list_lookup_insert_ne by done.
      apply list_lookup_insert_eq. done. }
  2:{ rewrite list_lookup_insert_ne by done.
      apply list_lookup_insert_eq. by rewrite length_insert. }
  2:{ apply list_lookup_insert_eq. by rewrite !length_insert. }
  cbn [fst]. rewrite !spliced_again by done.
  f_equal. apply list_eq. intros i.
  rewrite !list_lookup_insert, !length_insert.
  repeat case_decide; try done; lia.
Qed.

End Symbol.

Section SymbolWritten.

Lemma splice_symbol_written s1 s2 s3 (l l' : list DisplayLine) :
  length s1 = 6%nat -> length s2 = 6%nat -> length s3 = 6%nat ->
  glyph_rows_wide l -> splice_symbol s1 s2 s3 l = Ok l' ->
  symbol_columns l' = [Some s1; Some s2; Some s3]
  /\ length l' = length l
  /\ (forall (i : nat) row, (6 <= i <= 8)%nat -> l' !! i = Some row ->
        row.2 = true /\ (16 <= length row.1)%nat)
  /\ (forall (i : nat) row row', l !! i = Some row -> l' !! i = Some row' ->
        (16 <= length row.1)%nat -> length row'.1 = length row.1).
Proof.
  intros H1 H2 H3 Hw Hs.
  apply splice_symbol_inv in Hs as (r6 & r7 & r8 & E6 & E7 & E8 & ->).
  pose proof (lookup_lt_Some _ _ _ E6) as L6.
  pose proof (lookup_lt_Some _ _ _ E7) as L7.
  pose proof (lookup_lt_Some _ _ _ E8) as L8.
  pose proof (Hw 6%nat r6 ltac:(lia) E6) as W6.
  pose proof (Hw 7%nat r7 ltac:(lia) E7) as W7.
  pose proof (Hw 8%nat r8 ltac:(lia) E8) as W8.
  split; [|split; [|split]].
  - unfold symbol_columns. cbn [map].
    rewrite (list_lookup_insert_ne _ 8 6), (list_lookup_insert_ne _ 7 6) by done.
    rewrite (list_lookup_insert_ne _ 8 7) by done.
    rewrite !list_lookup_insert_eq by (by rewrite ?length_insert).
    cbn [fmap option_fmap option_map fst].
    rewrite !spliced_columns by done. done.
  - by rewrite !length_insert.
  - intros i row Hi.
    assert (i = 6 \/ i = 7 \/ i = 8)%nat as [-> | [-> | ->]] by lia.
    + rewrite (list_lookup_insert_ne _ 8 6), (list_lookup_insert_ne _ 7 6) by done.
      rewrite list_lookup_insert_eq by done.
      intros [= <-]; cbn [fst snd]. rewrite spliced_length by done. split; [done | lia].
    + rewrite (list_lookup_insert_ne _ 8 7) by done.
      rewrite list_lookup_insert_eq by (by rewrite ?length_insert).
      intros [= <-]; cbn [fst snd]. rewrite spliced_length by done. split; [done | lia].
    + rewrite list_lookup_insert_eq by (by rewrite ?length_insert).
      intros [= <-]; cbn [fst snd]. rewrite spliced_length by done. split; [done | lia].
  - intros i row row' Hl.
    destruct (decide (i = 8%nat)) as [-> | N8].
    { rewrite list_lookup_insert_eq by (by rewrite ?length_insert).
      assert (row = r8) as -> by (apply (inj Some); rewrite <- Hl; exact E8).
      intros [= <-] Hlen. cbn [fst]. rewrite spliced_length by done.
      apply Nat.max_r. exact Hlen. }
    rewrite list_lookup_insert_ne by done.
    destruct (decide (i = 7%nat)) as [-> | N7].
    { rewrite list_lookup_insert_eq by (by rewrite ?length_insert).
      assert (row = r7) as -> by (apply (inj Some); rewrite <- Hl; exact E7).
      intros [= <-] Hlen. cbn [fst]. rewrite spliced_length by done.
      apply Nat.max_r. exact Hlen. }
    rewrite list_lookup_insert_ne by done.
    destruct (decide (i = 6%nat)) as [-> | N6].
    { rewrite list_lookup_insert_eq by done.
      assert (row = r6) as -> by (apply (inj Some); rewrite <- Hl; exact E6).
      intros [= <-] Hlen. cbn [fst]. rewrite spliced_length by done.
      apply Nat.max_r. exact Hlen. }
    rewrite list_lookup_insert_ne by done. intros Hl' _.
    assert (row' = row) as -> by (apply (inj Some); rewrite <- Hl'; exact Hl).
    done.
Qed.

End SymbolWritten.

(** X6: [pause_symbol] and [play_symbol] raise exactly when [i_lines] has
    fewer than nine slots, and [IndexError] is the only exception they
    raise. *)
Theorem transport_symbol_index_error (l : list DisplayLine) :
  ((length l < 9)%nat <-> pause_symbol l = Raise IndexError)
  /\ ((length l < 9)%nat <-> play_symbol l = Raise IndexError)
  /\ (forall e, pause_symbol l = Raise e \/ play_symbol l = Raise e ->
        e = IndexError /\ (length l < 9)%nat).
Proof.
  assert (Hc : forall s1 s2 s3,
             ((length l < 9)%nat <-> splice_symbol s1 s2 s3 l = Raise IndexError)
             /\ (forall e, splice_symbol s1 s2 s3 l = Raise e ->
                   e = IndexError /\ (length l < 9)%nat)).
  { intros s1 s2 s3.
    destruct (splice_symbol_cases s1 s2 s3 l) as [[Hge [l' Hl']] | [Hlt Hr]];
      rewrite ?Hl', ?Hr.
    - split; [split; [lia | done] | done].
    - split; [done|]. by intros e [= <-]. }
  split; [apply Hc|]. split; [apply Hc|].
  intros e [He | He]; eapply Hc; exact He.
Qed.

Lemma transport_symbol_index_error_witness :
  pause_symbol [] = Raise IndexError
  /\ play_symbol (take 8 i_lines_init) = Raise IndexError.
Proof.
  split.
  - apply (transport_symbol_index_error []). simpl. lia.
  - apply (transport_symbol_index_error (take 8 i_lines_init)). simpl. lia.
Defined.

(** X7: when rows 6 to 8 are at least ten characters wide, a successful
    [pause_symbol] leaves the pause glyph, and a successful [play_symbol]
    the play glyph, in columns 10 to 15 of rows 6, 7 and 8.  The number of
    slots is unchanged, the three rows are marked as centred and are at
    least 16 characters wide, and a row that was at least 16 characters
    wide keeps its length. *)
Theorem transport_symbol_written (l l' : list DisplayLine) :
  glyph_rows_wide l ->
  pause_symbol l = Ok l' \/ play_symbol l = Ok l' ->
  (pause_symbol l = Ok l' -> symbol_columns l' = [Some paus1; Some paus2; Some paus3])
  /\ (play_symbol l = Ok l' -> symbol_columns l' = [Some play1; Some play2; Some play3])
  /\ length l' = length l
  /\ (forall (i : nat) row, (6 <= i <= 8)%nat -> l' !! i = Some row ->
        row.2 = true /\ (16 <= length row.1)%nat)
  /\ (forall (i : nat) row row', l !! i = Some row -> l' !! i = Some row' ->
        (16 <= length row.1)%nat -> length row'.1 = length row.1).
Proof.
  intros Hw Hs.
  split; [|split].
  - intros Hp. by apply (splice_symbol_written paus1 paus2 paus3 l l').
  - intros Hp. by apply (splice_symbol_written play1 play2 play3 l l').
  - destruct Hs as [Hs | Hs].
    + by apply (splice_symbol_written paus1 paus2 paus3 l l').
    + by apply (splice_symbol_written play1 play2 play3 l l').
Qed.

Lemma transport_symbol_written_witness :
  exists l', play_symbol (panel (lit "a.mp3")) = Ok l'
    /\ symbol_columns l' = [Some play1; Some play2; Some play3].
Proof.
  assert (Hw : glyph_rows_wide (panel (lit "a.mp3"))).
  { intros i row Hi.
    assert (i = 6 \/ i = 7 \/ i = 8)%nat as [-> | [-> | ->]] by lia;
      intros [= <-]; vm_compute; lia. }
  eexists. split; [reflexivity|].
  match goal with |- symbol_columns ?l' = _ =>
    destruct (transport_symbol_written (panel (lit "a.mp3")) l' Hw) as (_ & Hp & _);
      [right; reflexivity|] end.
  apply Hp. reflexivity.
Defined.

(** X8: of two updates of the transport symbol the later one wins: on a
    panel whose rows 6 to 8 are at least ten characters wide,
    [pause_symbol] after a successful [play_symbol] gives what
    [pause_symbol] alone gives, and the other way round; repeating the same
    update changes nothing. *)
Theorem transport_symbol_last_wins (l l1 : list DisplayLine) :
  glyph_rows_wide l ->
  (play_symbol l = Ok l1 ->
     pause_symbol l1 = pause_symbol l /\ play_symbol l1 = Ok l1)
  /\ (pause_symbol l = Ok l1 ->
     play_symbol l1 = play_symbol l /\ pause_symbol l1 = Ok l1).
Proof.
  intros Hw. split; intros Hs.
  - split.
    + by apply (splice_splice play1 play2 play3 paus1 paus2 paus3 l l1).
    + rewrite <- Hs. by apply (splice_splice play1 play2 play3 play1 play2 play3 l l1).
  - split.
    + by apply (splice_splice paus1 paus2 paus3 play1 play2 play3 l l1).
    + rewrite <- Hs. by apply (splice_splice paus1 paus2 paus3 paus1 paus2 paus3 l l1).
Qed.

Lemma transport_symbol_last_wins_witness :
  exists l1, play_symbol (panel (lit "a.mp3")) = Ok l1
    /\ pause_symbol l1 = Ok (panel (lit "a.mp3")).
Proof.
  assert (Hw : glyph_rows_wide (panel (lit "a.mp3"))).
  { intros i row Hi.
    assert (i = 6 \/ i = 7 \/ i = 8)%nat as [-> | [-> | ->]] by lia;
      intros [= <-]; vm_compute; lia. }
  eexists. split; [reflexivity|].
  match goal with |- pause_symbol ?l1 = _ =>
    destruct (transport_symbol_last_wins (panel (lit "a.mp3")) l1 Hw) as [Hp _] end.
  destruct (Hp eq_refl) as [-> _]. reflexivity.
Defined.

(** *** A line that fits *)

Section Alignment.

Lemma center_left_range n w : n <= w -> 0 <= center_left n w <= w - n.
Proof.
  intros Hn. unfold center_left. cbv zeta.
  pose proof (land_one_range (Z.land (w - n) w)) as Hb.
  set (b := Z.land (Z.land (w - n) w) 1) in *.
  pose proof (Z.div_mod (w - n) 2 ltac:(lia)).
  pose proof (Z.mod_pos_bound (w - n) 2 ltac:(lia)).
  assert (b <= (w - n) mod 2).
  { subst b. rewrite <- Z.land_assoc, (Z.land_comm w 1), Z.land_assoc.
    replace (Z.land (w - n) 1) with ((w - n) mod 2)
      by (symmetry; apply (Z.land_ones (w - n) 1); lia).
    destruct (Z.eq_dec ((w - n) mod 2) 0) as [-> | ?].
    - rewrite Z.land_0_l. lia.
    - assert ((w - n) mod 2 = 1) as -> by lia.
      rewrite Z.land_comm. pose proof (land_one_range w). lia. }
  lia.
Qed.

Lemma center_pad s w :
  len s <= w ->
  center s w = pad s (center_left (len s) w) (w - len s - center_left (len s) w).
Proof.
  intros Hs. unfold center. destruct (w <=? len s) eqn:E; [|done].
  apply Z.leb_le in E. assert (w = len s) as -> by lia.
  unfold center_left. rewrite Z.sub_diag. simpl. unfold pad. simpl.
  by rewrite app_nil_r.
Qed.

Lemma ljust_pad s w : len s <= w -> ljust s w = pad s 0 (w - len s).
Proof.
  intros Hs. unfold ljust. destruct (w <=? len s) eqn:E; [|done].
  apply Z.leb_le in E. assert (w = len s) as -> by lia.
  rewrite Z.sub_diag. unfold pad. simpl. by rewrite app_nil_r.
Qed.

Lemma replicate_add_z {A} (a b : Z) (c : A) :
  0 <= a -> 0 <= b ->
  replicate (Z.to_nat a) c ++ replicate (Z.to_nat b) c = replicate (Z.to_nat (a + b)) c.
Proof. intros Ha Hb. rewrite Z2Nat.inj_add by done. by rewrite replicate_add. Qed.

Lemma pad_pad s a b c d :
  0 <= a -> 0 <= b -> 0 <= c -> 0 <= d ->
  pad (pad s a b) c d = pad s (c + a) (b + d).
Proof.
  intros Ha Hb Hc Hd. unfold pad.
  rewrite <- !replicate_add_z by done.
  by rewrite <- !app_assoc.
Qed.

End Alignment.

(** X9: a line that fits in [min(box_width, width)] columns is rendered by
    [interface] as the text itself between blanks: [box_left width + inner]
    of them in front, where [inner] is 0 for a left-justified line and the
    centring offset inside the box for a centred one, both within their
    margins; the rendered row is exactly [width] characters long. *)
Theorem format_line_keeps_text (w : Z) (text : pystr) (centered : bool) :
  len text <= Z.min box_width w ->
  let m := Z.min box_width w in
  let inner := if centered then center_left (len text) m else 0 in
  format_line w (text, centered)
  = pad text (box_left w + inner) (w - len text - (box_left w + inner))
  /\ 0 <= inner <= m - len text
  /\ 0 <= box_left w <= w - m
  /\ len (format_line w (text, centered)) = w.
Proof.
  intros Hfit m inner.
  assert (Hmw : m <= w) by (subst m; lia).
  pose proof (center_left_range m w Hmw) as Hbox.
  change (center_left m w) with (box_left w) in Hbox.
  assert (Hin : 0 <= inner <= m - len text).
  { subst inner. destruct centered; [by apply center_left_range | lia]. }
  assert (Hl : format_line w (text, centered)
               = pad text (box_left w + inner) (w - len text - (box_left w + inner))).
  { unfold format_line. cbn [fst snd]. rewrite shorten_fits by done. fold m.
    assert (Hi : (if centered then center text m else ljust text m)
                 = pad text inner (m - len text - inner)).
    { subst inner. destruct centered.
      - by apply center_pad.
      - rewrite ljust_pad by done. f_equal. lia. }
    rewrite Hi.
    assert (Hlen : len (pad text inner (m - len text - inner)) = m)
      by (rewrite len_pad; lia).
    rewrite center_pad by lia. rewrite Hlen.
    change (center_left m w) with (box_left w).
    rewrite pad_pad by lia. f_equal; lia. }
  split; [done|]. split; [done|]. split; [done|].
  rewrite Hl, len_pad. lia.
Qed.

Lemma format_line_keeps_text_witness :
  format_line 80 (lit "a.mp3", false) = pad (lit "a.mp3") 17 58.
Proof.
  destruct (format_line_keeps_text 80 (lit "a.mp3") false) as (Hf & _);
    [vm_compute; congruence|].
  exact Hf.
Defined.

(** X10: the number of leading newlines [int(height/2) - int(len(lines)/2)],
    computed as the source does through binary64 division and truncation,
    raises nothing and is the difference of the integer halves [height / 2]
    and [count / 2], for all non-negative operands below 2^53. *)
Theorem interface_padding_through_floats (height count : Z) :
  0 <= height < 2 ^ 53 -> 0 <= count < 2 ^ 53 ->
  (a ← int_truediv height 2 ≫= to_int;
   b ← int_truediv count 2 ≫= to_int;
   Ok (PyStr.mul [NEWLINE] (a - b)))
  = Ok (PyStr.mul [NEWLINE] (int_half height - int_half count))
  /\ int_half height = height / 2 /\ int_half count = count / 2.
Proof.
  intros Hh Hc.
  rewrite (int_half_float height Hh), (int_half_float count Hc).
  split; [reflexivity|].
  split; apply int_half_nonneg; lia.
Qed.

Lemma interface_padding_through_floats_witness :
  (a ← int_truediv 24 2 ≫= to_int;
   b ← int_truediv 11 2 ≫= to_int;
   Ok (PyStr.mul [NEWLINE] (a - b)))
  = Ok (replicate 7 NEWLINE).
Proof.
  destruct (interface_padding_through_floats 24 11) as (Hp & _ & _);
    [split; [lia | reflexivity] | split; [lia | reflexivity] |].
  rewrite Hp. reflexivity.
Defined.

(** *** Rounding after a division *)

Section Division.

Lemma shr_iter_m (k : nat) (mrs : shr_record) :
  0 <= shr_m mrs ->
  shr_m (Nat.iter k shr_1 mrs) = shr_m mrs / 2 ^ Z.of_nat k.
Proof.
  intros Hm. induction k as [|k IH].
  - simpl. by rewrite Z.div_1_r.
  - rewrite Nat.iter_succ.
    assert (Hpos : 0 <= shr_m (Nat.iter k shr_1 mrs))
      by (rewrite IH; apply Z.div_pos; [done | apply Z.pow_pos_nonneg; lia]).
    rewrite shr_1_m, IH by done.
    rewrite Nat2Z.inj_succ, Z.pow_succ_r by lia.
    rewrite Z.div_div by (try apply Z.pow_pos_nonneg; lia).
    f_equal. lia.
Qed.

Lemma shr_fexp_m (m e : Z) (l : location) :
  0 <= m ->
  exists mrs,
    shr_fexp prec emax m e l
      = (mrs, e + Z.max 0 (fexp prec emax (Zdigits2 m + e) - e))
    /\ shr_m mrs = m / 2 ^ Z.max 0 (fexp prec emax (Zdigits2 m + e) - e).
Proof.
  intros Hm. unfold shr_fexp.
  assert (Hrec : shr_m (shr_record_of_loc m l) = m) by (by destruct l as [|[]]).
  destruct (fexp prec emax (Zdigits2 m + e) - e) as [|p|p]; cbn [shr].
  - eexists. split; [f_equal; lia|]. simpl. by rewrite Z.div_1_r.
  - eexists. split; [f_equal; lia|].
    rewrite iter_pos_nat, shr_iter_m by (rewrite Hrec; done).
    rewrite Hrec, positive_nat_Z. done.
  - eexists. split; [f_equal; lia|]. simpl. by rewrite Z.div_1_r.
Qed.

(** Rounding a value strictly below the integer [W < 2^53], whatever was
    lost before, gives a float that does not exceed [W]. *)
Lemma binary_round_aux_lt (s : bool) (m e W : Z) (l : location) :
  0 <= m -> 0 <= W < 2 ^ 53 -> e <= 0 -> m < W * 2 ^ (- e) ->
  match binary_round_aux prec emax s m e l with
  | S754_zero s' => s' = s
  | S754_finite s' m' e' => s' = s /\ le_int (Zpos m') e' W
  | _ => False
  end.
Proof.
  intros Hm HW He Hlt. unfold binary_round_aux.
  destruct (shr_fexp_m m e l Hm) as (mrs & -> & Hm1).
  assert (Hle : le_int m e W) by (split; lia).
  destruct (shift_le_int m e W Hm HW Hle) as [Hle1 Heq1].
  set (n := Z.max 0 (fexp prec emax (Zdigits2 m + e) - e)) in *.
  destruct (round_nearest_even_bounds mrs) as [Hrne _].
  set (m2 := round_nearest_even (shr_m mrs) (loc_of_shr_record mrs)) in *.
  assert (H2n : 0 < 2 ^ n) by (apply Z.pow_pos_nonneg; subst n; lia).
  assert (Hm1pos : 0 <= shr_m mrs) by (rewrite Hm1; apply Z.div_pos; lia).
  assert (Hle2 : le_int m2 (e + n) W).
  { destruct Hle1 as [He1 Hb1]. split; [done|].
    rewrite <- Hm1 in Hb1, Heq1.
    destruct (Z.eq_dec (shr_m mrs) (W * 2 ^ (- (e + n)))) as [Heq | Hne]; [|lia].
    exfalso.
    assert (Hsplit : 2 ^ (- e) = 2 ^ (- (e + n)) * 2 ^ n).
    { rewrite <- Z.pow_add_r by (subst n; lia). f_equal. lia. }
    pose proof (Z.div_mod m (2 ^ n) ltac:(lia)) as Hdm.
    pose proof (Z.mod_pos_bound m (2 ^ n) H2n) as Hmod.
    rewrite <- Hm1, Heq in Hdm. rewrite Hsplit in Hlt.
    clear - Hdm Hmod Hlt. nia. }
  destruct (shr_fexp_exact m2 (e + n) ltac:(lia)) as (mrs2 & -> & Hm3 & _).
  destruct (shift_le_int m2 (e + n) W ltac:(lia) HW Hle2) as [[He3 Hb3] _].
  set (n2 := Z.max 0 (fexp prec emax (Zdigits2 m2 + (e + n)) - (e + n))) in *.
  rewrite <- Hm3 in Hb3.
  assert (Hm3pos : 0 <= shr_m mrs2)
    by (rewrite Hm3; apply Z.div_pos; [lia | apply Z.pow_pos_nonneg; subst n2; lia]).
  destruct (shr_m mrs2) as [|p|p] eqn:E3; [done| |lia].
  replace (e + n + n2 <=? emax - prec) with true
    by (symmetry; apply Z.leb_le; unfold emax, prec; lia).
  split; [done|]. split; done.
Qed.

Lemma new_location_exact (nb : Z) : new_location nb 0 = loc_Exact.
Proof. unfold new_location. destruct (Z.even nb); reflexivity. Qed.

(** The quotient of two positive integers, rounded to binary64, does not
    exceed an integer bound that the exact quotient respects. *)
Lemma of_ratio_le (a b : positive) (W : Z) :
  0 <= W < 2 ^ 53 -> Zpos a <= W * Zpos b ->
  nonneg_le (of_ratio (Zpos a) (Zpos b)) W.
Proof.
  intros HW Hab.
  unfold of_ratio, fdiv, raw. cbn [SFdiv xorb].
  unfold SFdiv_core_binary.
  set (e' := Z.min (fexp prec emax (Zdigits2 (Zpos a) + 0 - (Zdigits2 (Zpos b) + 0)))
               (0 - 0)).
  assert (He' : e' <= 0) by (subst e'; lia).
  replace (0 - 0 - e') with (- e') by lia.
  assert (Hm' : match - e' with
                | 0 => Zpos a
                | Zpos _ => Z.shiftl (Zpos a) (- e')
                | Zneg _ => 0
                end = Zpos a * 2 ^ (- e')).
  { destruct (- e') as [|p|p] eqn:E; [simpl; lia | | lia].
    rewrite Z.shiftl_mul_pow2 by lia. done. }
  rewrite Hm'.
  assert (H2 : 0 < 2 ^ (- e')) by (apply Z.pow_pos_nonneg; lia).
  pose proof (Z.div_eucl_eq (Zpos a * 2 ^ (- e')) (Zpos b) ltac:(lia)) as Heq.
  pose proof (Z.mod_pos_bound (Zpos a * 2 ^ (- e')) (Zpos b) ltac:(lia)) as Hb.
  unfold Z.modulo in Hb.
  destruct (Z.div_eucl (Zpos a * 2 ^ (- e')) (Zpos b)) as [q r].
  assert (Hq0 : 0 <= q).
  { destruct (Z_lt_le_dec q 0) as [Hneg|]; [|done].
    assert (0 < Zpos a * 2 ^ (- e')) by (apply Z.mul_pos_pos; lia).
    clear - Heq Hb Hneg H. nia. }
  assert (Hbound : Zpos b * q + r <= Zpos b * (W * 2 ^ (- e'))).
  { rewrite <- Heq.
    replace (Zpos b * (W * 2 ^ (- e'))) with ((W * Zpos b) * 2 ^ (- e')) by ring.
    apply Z.mul_le_mono_nonneg_r; lia. }
  set (P := 2 ^ (- e')) in *.
  destruct (Z.eq_dec r 0) as [-> | Hr].
  - rewrite new_location_exact.
    assert (Hqpos : 0 < q).
    { assert (0 < Zpos a * P) by (apply Z.mul_pos_pos; lia).
      clear - Heq H Hq0. nia. }
    assert (Hqle : q <= W * P) by (clear - Hbound; nia).
    pose proof (binary_round_aux_le false q e' W Hqpos HW) as Hr.
    specialize (Hr ltac:(split; done)).
    destruct (binary_round_aux _ _ _ _ _ _); done.
  - assert (Hqlt : q < W * P) by (clear - Hbound Hb Hr; nia).
    pose proof (binary_round_aux_lt false q e' W (new_location (Zpos b) r)
                  Hq0 HW He' Hqlt) as Hr'.
    destruct (binary_round_aux _ _ _ _ _ _); done.
Qed.

(** [x * y] for [x] at most one and [y] at most [W]. *)
Lemma fmul_le (x y : float) (W : Z) :
  nonneg_le x 1 -> 0 <= W < 2 ^ 53 -> nonneg_le y W -> nonneg_le (fmul x y) W.
Proof.
  intros Hx HW Hy.
  destruct x as [sx | sx | | sx mx ex]; [|done|done|].
  - destruct y as [sy | sy | | sy my ey]; cbn in Hy |- *; done.
  - destruct Hx as [-> [Hex Hmx]].
    destruct y as [sy | sy | | sy my ey]; try done.
    destruct Hy as [-> [Hey Hmy]].
    unfold fmul. cbn [SFmul xorb].
    pose proof (binary_round_aux_le false (Zpos (mx * my)) (ex + ey) W) as Hr.
    assert (H2x : 0 < 2 ^ (- ex)) by (apply Z.pow_pos_nonneg; lia).
    assert (H2y : 0 < 2 ^ (- ey)) by (apply Z.pow_pos_nonneg; lia).
    assert (Hle : le_int (Zpos (mx * my)) (ex + ey) W).
    { split; [lia|].
      replace (- (ex + ey)) with (- ex + - ey) by lia.
      rewrite Z.pow_add_r, Pos2Z.inj_mul by lia. nia. }
    specialize (Hr ltac:(lia) HW Hle).
    destruct (binary_round_aux _ _ _ _ _ _); done.
Qed.

Lemma int_truediv_le (a b W : Z) :
  0 <= a -> 0 < b -> 0 <= W < 2 ^ 53 -> a <= W * b ->
  exists x, int_truediv a b = Ok x /\ nonneg_le x W.
Proof.
  intros Ha Hb HW Hab. unfold int_truediv.
  replace (b =? 0) with false by (symmetry; apply Z.eqb_neq; lia).
  destruct b as [|pb|pb]; try lia.
  destruct a as [|pa|pa]; try lia.
  - exists (S754_zero false). split; [reflexivity | done].
  - pose proof (of_ratio_le pa pb W HW Hab) as Hr.
    destruct (of_ratio (Zpos pa) (Zpos pb)) as [s | s | | s m e] eqn:E; try done; eauto.
Qed.

End Division.

(** *** Exact conversions and the ends of the bar *)

Section Exact.

Lemma Zdigits2_shift (m k : Z) :
  0 < m -> 0 <= k -> Zdigits2 (m * 2 ^ k) = Zdigits2 m + k.
Proof.
  intros Hm Hk.
  assert (H2k : 0 < 2 ^ k) by (apply Z.pow_pos_nonneg; lia).
  apply Zdigits2_unique; [apply Z.mul_pos_pos; lia|].
  destruct m as [|p|p]; try lia. cbn [Zdigits2].
  pose proof (digits2_pos_bounds p) as [Hlo Hhi].
  replace (Z.pos (digits2_pos p) + k - 1) with (Z.pos (digits2_pos p) - 1 + k) by lia.
  rewrite !Z.pow_add_r by lia.
  split; [apply Z.mul_le_mono_nonneg_r | apply Z.mul_lt_mono_pos_r]; lia.
Qed.

(** Rounding a value that is already a canonical binary64 number, given
    with [k] spare low bits, returns that number. *)
Lemma binary_round_aux_canonical (s : bool) (m : positive) (e k : Z) :
  0 <= k -> fexp prec emax (Zdigits2 (Zpos m) + e) = e -> e <= emax - prec ->
  binary_round_aux prec emax s (Zpos m * 2 ^ k) (e - k) loc_Exact
  = S754_finite s m e.
Proof.
  intros Hk Hc He.
  assert (H2k : 0 < 2 ^ k) by (apply Z.pow_pos_nonneg; lia).
  unfold binary_round_aux.
  destruct (shr_fexp_exact (Zpos m * 2 ^ k) (e - k) ltac:(lia)) as (mrs & -> & Hm1 & Hx1).
  rewrite (Zdigits2_shift (Zpos m) k) in Hm1, Hx1 |- * by (clear - Hk; lia).
  replace (Zdigits2 (Zpos m) + k + (e - k)) with (Zdigits2 (Zpos m) + e)
    in Hm1, Hx1 |- * by lia.
  rewrite Hc in Hm1, Hx1 |- *.
  replace (Z.max 0 (e - (e - k))) with k in Hm1, Hx1 |- * by lia.
  rewrite Z.div_mul in Hm1 by lia.
  assert (Hmod : (Zpos m * 2 ^ k) mod 2 ^ k = 0) by (apply Z.mod_mul; lia).
  destruct (Hx1 Hmod) as [Hr Hs].
  destruct (round_nearest_even_bounds mrs) as [_ Hrx].
  rewrite (Hrx Hr Hs), Hm1.
  replace (e - k + k) with e by lia.
  destruct (shr_fexp_exact (Zpos m) e ltac:(lia)) as (mrs2 & -> & Hm3 & _).
  rewrite Hc in Hm3 |- *. rewrite Z.sub_diag in Hm3 |- *.
  change (Z.max 0 0) with 0 in Hm3 |- *. rewrite Z.div_1_r in Hm3.
  rewrite Hm3, Z.add_0_r.
  replace (e <=? emax - prec) with true by (symmetry; by apply Z.leb_le).
  done.
Qed.

(** [float(w)] is exact below [2^53]: a canonical mantissa and a
    non-positive exponent with [m * 2^e = w]. *)
Lemma of_int_exact (w : Z) :
  0 < w < 2 ^ 53 ->
  exists (m : positive) (e : Z),
    of_int w = Ok (S754_finite false m e)
    /\ e <= 0 /\ Zpos m = w * 2 ^ (- e)
    /\ fexp prec emax (Zdigits2 (Zpos m) + e) = e.
Proof.
  intros Hw. destruct w as [|p|p]; try lia.
  pose proof (digits2_pos_bounds p) as [Hlo Hhi].
  set (d := Zpos (digits2_pos p)) in *.
  assert (Hd1 : 1 <= d) by (subst d; lia).
  assert (Hd : d <= 53).
  { assert (d - 1 < 53) by (apply pow2_lt_mono; lia). lia. }
  unfold of_int. cbn [binary_normalize]. unfold binary_round.
  assert (Hal : exists mz : positive,
             shl_align p 0 (fexp prec emax (Zpos (digits2_pos p) + 0)) = (mz, d - 53)
             /\ Zpos mz = Zpos p * 2 ^ (53 - d)).
  { unfold shl_align. fold d. rewrite fexp_unfold.
    replace (Z.max (d + 0 - 53) (-1074)) with (d - 53) by lia.
    destruct (d - 53 - 0) as [|q|q] eqn:Eq; try lia.
    - exists p. split; [f_equal; lia|]. replace (53 - d) with 0 by lia. simpl. lia.
    - eexists. split; [reflexivity|]. rewrite pos_iter_xO.
      replace (53 - d) with (Z.pos q) by lia. done. }
  destruct Hal as (mz & -> & Hmz).
  assert (Hdz : Zdigits2 (Zpos mz) = 53).
  { rewrite Hmz, Zdigits2_shift by lia. cbn [Zdigits2]. fold d. lia. }
  pose proof (binary_round_aux_canonical false mz (d - 53) 0 ltac:(lia)) as Hr.
  rewrite Z.mul_1_r, Z.sub_0_r in Hr.
  assert (Hc : fexp prec emax (Zdigits2 (Zpos mz) + (d - 53)) = d - 53)
    by (rewrite Hdz, fexp_unfold; lia).
  rewrite Hr by (try done; unfold emax, prec; lia).
  exists mz, (d - 53). split; [done|]. split; [lia|]. split; [|done].
  rewrite Hmz. f_equal. f_equal. lia.
Qed.

Lemma fmul_one_canonical (m : positive) (e : Z) :
  fexp prec emax (Zdigits2 (Zpos m) + e) = e -> e <= emax - prec ->
  fmul one (S754_finite false m e) = S754_finite false m e.
Proof.
  intros Hc He. rewrite one_eq. unfold fmul. cbn [SFmul xorb].
  rewrite Pos2Z.inj_mul, Z.mul_comm.
  change (Z.pos 4503599627370496) with (2 ^ 52).
  replace (-52 + e) with (e - 52) by lia.
  apply binary_round_aux_canonical; [lia | done | done].
Qed.

Lemma to_int_exact (m : positive) (e w : Z) :
  e <= 0 -> Zpos m = w * 2 ^ (- e) -> to_int (S754_finite false m e) = Ok w.
Proof.
  intros He Hm. cbn [to_int cond_Zopp]. f_equal.
  rewrite shiftl_nonpos, Hm by done.
  apply Z.div_mul. apply Z.pow_nonzero; lia.
Qed.

End Exact.

Section Bar.

Lemma bar_parser_le (f : float) (w : Z) :
  nonneg_le f 1 -> 0 < w < 2 ^ 53 ->
  exists filled, 0 <= filled <= w
    /\ bar_parser f w
       = Ok (replicate (Z.to_nat filled) FULL_BLOCK
             ++ replicate (Z.to_nat (w - filled)) LIGHT_SHADE).
Proof.
  intros Hf Hw.
  destruct (of_int_nonneg_le w Hw) as (y & Hy & Hyle).
  pose proof (fmul_le f y w Hf ltac:(lia) Hyle) as Hp.
  destruct (to_int_nonneg_le (fmul f y) w ltac:(lia) Hp) as [Hti Hb].
  exists (floor (fmul f y)). split; [done|].
  unfold bar_parser, mul_int. rewrite Hy. cbn [mbind Result_bind]. rewrite Hti.
  cbn [mbind Result_bind]. by rewrite !mul_singleton.
Qed.

End Bar.

(** X11: for every width [0 < w < 2^53], [bar_parser(0.0, w)] is [w]
    light-shade characters and [bar_parser(1.0, w)] is [w] full blocks. *)
Theorem bar_parser_endpoints (w : Z) :
  0 < w < 2 ^ 53 ->
  bar_parser zero w = Ok (replicate (Z.to_nat w) LIGHT_SHADE)
  /\ bar_parser one w = Ok (replicate (Z.to_nat w) FULL_BLOCK).
Proof.
  intros Hw.
  destruct (of_int_exact w Hw) as (m & e & Hy & He & Hm & Hc).
  unfold bar_parser, mul_int. rewrite Hy. cbn [mbind Result_bind]. split.
  - unfold zero, fmul. cbn [SFmul xorb to_int mbind Result_bind].
    by rewrite !mul_singleton, Z.sub_0_r.
  - rewrite fmul_one_canonical by (try done; unfold emax, prec; lia).
    rewrite (to_int_exact m e w He Hm). cbn [mbind Result_bind].
    rewrite !mul_singleton, Z.sub_diag. simpl. by rewrite app_nil_r.
Qed.

Lemma bar_parser_endpoints_witness :
  bar_parser zero 46 = Ok (replicate 46 LIGHT_SHADE)
  /\ bar_parser one 46 = Ok (replicate 46 FULL_BLOCK).
Proof. apply (bar_parser_endpoints 46). split; reflexivity. Defined.

Lemma update_bar_ok {M : Type} `{Playback M} (env : Env) (w : World M)
    (total : Z) :
  to_int (audio_length env (m_file w)) = Ok total ->
  0 < total < 2 ^ 53 ->
  0 <= music_get_pos (mixer w) <= 1000 * total ->
  exists filled, 0 <= filled <= box_width
    /\ update_bar env w
       = Ok (replicate (Z.to_nat filled) FULL_BLOCK
             ++ replicate (Z.to_nat (box_width - filled)) LIGHT_SHADE)
    /\ forall bar, update_bar env w = Ok bar -> len bar = box_width.
Proof.
  intros Ht Htot Hpos.
  destruct (int_truediv_le (music_get_pos (mixer w)) 1000 total)
    as (secs & Hs & Hsle); [lia | lia | lia | lia |].
  destruct (to_int_nonneg_le secs total ltac:(lia) Hsle) as [Hc Hcb].
  destruct (int_truediv_le (floor secs) total 1)
    as (pct & Hp & Hple); [lia | lia | lia | lia |].
  destruct (bar_parser_le pct box_width Hple ltac:(done)) as (filled & Hf & Hb).
  assert (Hu : update_bar env w
               = Ok (replicate (Z.to_nat filled) FULL_BLOCK
                     ++ replicate (Z.to_nat (box_width - filled)) LIGHT_SHADE)).
  { unfold update_bar. rewrite Hs. cbn [mbind Result_bind]. rewrite Hc.
    cbn [mbind Result_bind]. rewrite Ht. cbn [mbind Result_bind]. rewrite Hp.
    cbn [mbind Result_bind]. exact Hb. }
  exists filled. split; [done|]. split; [done|].
  intros bar. rewrite Hu. intros [= <-].
  rewrite len_app, !len_replicate. lia.
Qed.

(** X12: when the track length truncates to [total] seconds with
    [0 < total < 2^53] and the mixer reports a position between 0 and
    [1000 * total] milliseconds, [update_bar] raises nothing and returns
    [box_width] characters: between 0 and [box_width] full blocks followed
    by light-shade characters. *)
Theorem update_bar_in_range {M : Type} `{Playback M} (env : Env) (w : World M)
    (total : Z) :
  to_int (audio_length env (m_file w)) = Ok total ->
  0 < total < 2 ^ 53 ->
  0 <= music_get_pos (mixer w) <= 1000 * total ->
  exists filled, 0 <= filled <= box_width
    /\ update_bar env w
       = Ok (replicate (Z.to_nat filled) FULL_BLOCK
             ++ replicate (Z.to_nat (box_width - filled)) LIGHT_SHADE)
    /\ forall bar, update_bar env w = Ok bar -> len bar = box_width.
Proof. apply update_bar_ok. Qed.

Lemma update_bar_in_range_witness :
  exists filled, 0 <= filled <= box_width
    /\ update_bar demo_env (demo_world true)
       = Ok (replicate (Z.to_nat filled) FULL_BLOCK
             ++ replicate (Z.to_nat (box_width - filled)) LIGHT_SHADE).
Proof.
  destruct (update_bar_in_range demo_env (demo_world true) 200)
    as (filled & Hf & Hu & _).
  - vm_compute. reflexivity.
  - split; [reflexivity | reflexivity].
  - simpl. lia.
  - exists filled. split; [exact Hf | exact Hu].
Defined.

(** *** Width and fields of the status line *)

Section StatusWidth.

Lemma forallb_below (P : Z -> bool) (n : nat) :
  forallb P (map Z.of_nat (seq 0 n)) = true ->
  forall z, 0 <= z < Z.of_nat n -> P z = true.
Proof.
  intros Hall z Hz. rewrite forallb_forall in Hall. apply Hall.
  apply in_map_iff. exists (Z.to_nat z). split; [lia|].
  apply in_seq. lia.
Qed.

Lemma format_02d_two_digits (n : Z) :
  0 <= n < 100 -> format_02d n = [digit (n / 10); digit (n mod 10)].
Proof.
  intros Hn.
  apply (eqb_eq (format_02d n) [digit (n / 10); digit (n mod 10)]).
  apply (forallb_below
           (fun n => PyStr.eqb (format_02d n) [digit (n / 10); digit (n mod 10)]) 100);
    [vm_compute; reflexivity | exact Hn].
Qed.

Lemma len_of_int_percent (p : Z) : 0 <= p <= 100 -> len (PyStr.of_int p) <= 3.
Proof.
  intros Hp. apply Z.leb_le.
  apply (forallb_below (fun p => len (PyStr.of_int p) <=? 3) 101);
    [vm_compute; reflexivity | lia].
Qed.

Lemma in_unit_nonneg_le (v : float) :
  valid v -> in_unit v = true -> nonneg_le v 1.
Proof.
  intros Hv Hu.
  destruct (in_unit_inv v Hv Hu) as [[s ->] | (m & e & -> & Hle)]; done.
Qed.

Lemma truncated_percent_range (v : float) :
  nonneg_le v 1 -> exists p, truncated_percent v = Ok p /\ 0 <= p <= 100.
Proof.
  intros Hv.
  destruct (of_int_nonneg_le 100 ltac:(split; reflexivity)) as (y & Hy & Hyle).
  pose proof (fmul_le v y 100 Hv ltac:(split; [lia | reflexivity]) Hyle) as Hp.
  destruct (to_int_nonneg_le (fmul v y) 100 ltac:(lia) Hp) as [Hti Hb].
  exists (floor (fmul v y)). split; [|done].
  unfold truncated_percent, mul_int. rewrite Hy. cbn [mbind Result_bind]. done.
Qed.

Lemma bump_nine_range (p : Z) : 0 <= p <= 100 -> 0 <= bump_nine p <= 100.
Proof.
  intros Hp. unfold bump_nine.
  destruct (p mod 10 =? 9) eqn:E; [|done].
  apply Z.eqb_eq in E.
  assert (p <> 100) by (intros ->; discriminate). lia.
Qed.

Lemma len_rjust (s : pystr) (w : Z) : len s <= w -> len (rjust s w) = w.
Proof.
  intros Hs. unfold rjust. destruct (w <=? len s) eqn:E.
  - apply Z.leb_le in E. lia.
  - rewrite len_pad. lia.
Qed.

Lemma song_info_parser_Ok (cs ts : Z) (volume : float) (w p : Z) :
  truncated_percent volume = Ok p ->
  song_info_parser cs ts volume w
  = Ok ((format_02d (cs / 60) ++ lit ":" ++ format_02d (cs mod 60))
        ++ lit " / "
        ++ (format_02d (ts / 60) ++ lit ":" ++ format_02d (ts mod 60))
        ++ rjust (volume_label (bump_nine p))
             (w - len (format_02d (cs / 60) ++ lit ":" ++ format_02d (cs mod 60))
                - len (format_02d (ts / 60) ++ lit ":" ++ format_02d (ts mod 60)) - 3)).
Proof.
  unfold truncated_percent. intros Hp.
  apply bind_Ok in Hp as (scaled & Hs & Hp).
  unfold song_info_parser. rewrite Hs. cbn [mbind Result_bind]. rewrite Hp.
  reflexivity.
Qed.

Lemma time_field (s : Z) :
  0 <= s < 6000 ->
  format_02d (s / 60) ++ lit ":" ++ format_02d (s mod 60)
  = [digit (s / 60 / 10); digit (s / 60 mod 10); 58;
     digit (s mod 60 / 10); digit (s mod 60 mod 10)].
Proof.
  intros Hs.
  assert (0 <= s / 60 < 100).
  { split; [apply Z.div_pos; lia | apply Z.div_lt_upper_bound; lia]. }
  pose proof (Z.mod_pos_bound s 60 ltac:(lia)).
  rewrite !format_02d_two_digits by lia. reflexivity.
Qed.

Lemma digit_value_digit (d : Z) : 0 <= d <= 9 -> digit_value (digit d) = Some d.
Proof.
  intros Hd. unfold digit_value, digit.
  replace (48 <=? 48 + d) with true by (symmetry; apply Z.leb_le; lia).
  replace (48 + d <=? 57) with true by (symmetry; apply Z.leb_le; lia).
  simpl. f_equal. lia.
Qed.

Lemma parse_time_field (s : Z) :
  0 <= s < 6000 ->
  parse_mmss (format_02d (s / 60) ++ lit ":" ++ format_02d (s mod 60)) = Some s.
Proof.
  intros Hs. rewrite time_field by done.
  assert (Hm : 0 <= s / 60 < 100).
  { split; [apply Z.div_pos; lia | apply Z.div_lt_upper_bound; lia]. }
  pose proof (Z.mod_pos_bound s 60 ltac:(lia)) as Hr.
  assert (Hd : forall n, 0 <= n < 100 -> 0 <= n / 10 <= 9 /\ 0 <= n mod 10 <= 9).
  { intros n Hn. pose proof (Z.mod_pos_bound n 10 ltac:(lia)).
    assert (0 <= n / 10) by (apply Z.div_pos; lia).
    assert (n / 10 < 10) by (apply Z.div_lt_upper_bound; lia). lia. }
  destruct (Hd (s / 60) Hm) as [Ha Hb].
  destruct (Hd (s mod 60) ltac:(lia)) as [Hc Hd'].
  unfold parse_mmss. change (58 =? 58) with true. cbv iota.
  rewrite !digit_value_digit by done. cbn [mbind option_bind]. f_equal.
  pose proof (Z.div_mod (s / 60) 10 ltac:(lia)).
  pose proof (Z.div_mod (s mod 60) 10 ltac:(lia)).
  pose proof (Z.div_mod s 60 ltac:(lia)).
  lia.
Qed.

End StatusWidth.

Lemma song_info_parser_width (cs ts : Z) (volume : float) (w : Z) :
  valid volume -> in_unit volume = true ->
  0 <= cs < 6000 -> 0 <= ts < 6000 -> 25 <= w ->
  exists line, song_info_parser cs ts volume w = Ok line /\ len line = w.
Proof.
  intros Hv Hu Hcs Hts Hw.
  destruct (truncated_percent_range volume (in_unit_nonneg_le volume Hv Hu))
    as (p & Hp & Hpr).
  rewrite (song_info_parser_Ok cs ts volume w p Hp).
  eexists. split; [reflexivity|].
  rewrite !time_field by done.
  pose proof (len_of_int_percent (bump_nine p) (bump_nine_range p Hpr)) as Hl.
  change (len [digit (cs / 60 / 10); digit (cs / 60 mod 10); 58;
               digit (cs mod 60 / 10); digit (cs mod 60 mod 10)]) with 5.
  change (len [digit (ts / 60 / 10); digit (ts / 60 mod 10); 58;
               digit (ts mod 60 / 10); digit (ts mod 60 mod 10)]) with 5.
  rewrite !len_app, len_rjust.
  - change (len (lit " / ")) with 3.
    change (len [digit (cs / 60 / 10); digit (cs / 60 mod 10); 58;
                 digit (cs mod 60 / 10); digit (cs mod 60 mod 10)]) with 5.
    change (len [digit (ts / 60 / 10); digit (ts / 60 mod 10); 58;
                 digit (ts mod 60 / 10); digit (ts mod 60 mod 10)]) with 5.
    lia.
  - unfold volume_label. rewrite !len_app.
    change (len (lit "Volume: ")) with 8. change (len (lit "%")) with 1. lia.
Qed.

(** X13: for times below 100 minutes, a volume of the unit interval and a
    width of at least 25, [song_info_parser] returns a line of exactly
    [max_width] characters. *)
Theorem status_line_width (cs ts : Z) (volume : float) (w : Z) :
  valid volume -> in_unit volume = true ->
  0 <= cs < 6000 -> 0 <= ts < 6000 -> 25 <= w ->
  exists line, song_info_parser cs ts volume w = Ok line /\ len line = w.
Proof. apply song_info_parser_width. Qed.

Lemma status_line_width_witness :
  exists line, song_info_parser 75 200 (of_ratio 38 128) box_width = Ok line
    /\ len line = box_width.
Proof.
  apply (status_line_width 75 200 (of_ratio 38 128) box_width);
    [reflexivity | reflexivity | lia | lia | unfold box_width; lia].
Defined.

(** X14: for times below 100 minutes, a status line returned by
    [song_info_parser] starts with the current time as [MM:SS], then
    [" / "], then the total time as [MM:SS]; read back as minutes and
    seconds the two fields give [current_secs] and [total_secs]. *)
Theorem status_line_times (cs ts : Z) (volume : float) (w : Z) (line : pystr) :
  0 <= cs < 6000 -> 0 <= ts < 6000 ->
  song_info_parser cs ts volume w = Ok line ->
  parse_mmss (slice line 0 5) = Some cs
  /\ slice line 5 8 = lit " / "
  /\ parse_mmss (slice line 8 13) = Some ts.
Proof.
  intros Hcs Hts Hl.
  assert (Hp : exists p, truncated_percent volume = Ok p).
  { unfold song_info_parser in Hl. unfold truncated_percent.
    destruct (mul_int volume 100) as [scaled|]; [|done]. cbn [mbind Result_bind] in *.
    destruct (to_int scaled) as [p|]; [|done]. eauto. }
  destruct Hp as [p Hp].
  rewrite (song_info_parser_Ok cs ts volume w p Hp) in Hl. injection Hl as <-.
  pose proof (parse_time_field cs Hcs) as Pc.
  pose proof (parse_time_field ts Hts) as Pt.
  rewrite !time_field in * by done.
  cbn [app slice take drop Nat.sub lit]. done.
Qed.

Lemma status_line_times_witness :
  exists line, song_info_parser 75 200 (of_ratio 38 128) box_width = Ok line
    /\ parse_mmss (slice line 0 5) = Some 75
    /\ parse_mmss (slice line 8 13) = Some 200.
Proof.
  eexists. split; [vm_compute; reflexivity|].
  edestruct (status_line_times 75 200 (of_ratio 38 128) box_width) as (Hc & _ & Ht);
    [lia | lia | vm_compute; reflexivity |].
  split; [exact Hc | exact Ht].
Defined.

(** *** Volume steps *)

Section VolumeSteps.

Lemma tenth_steps (k : Z) :
  0 <= k <= 10 ->
  round (fsub (round (of_ratio k 10) 8) (of_ratio 1 10)) 1 = of_ratio (k - 1) 10
  /\ round (fadd (round (of_ratio k 10) 8) (of_ratio 1 10)) 1 = of_ratio (k + 1) 10.
Proof.
  intros Hk.
  assert (k = 0 \/ k = 1 \/ k = 2 \/ k = 3 \/ k = 4 \/ k = 5 \/ k = 6
          \/ k = 7 \/ k = 8 \/ k = 9 \/ k = 10) as Hc by lia.
  repeat (destruct Hc as [-> | Hc]; [split; vm_compute; reflexivity|]).
  subst k. split; vm_compute; reflexivity.
Qed.

End VolumeSteps.

(** X15: the volume keys step between neighbouring tenths: for a volume [v]
    of the unit interval there is a [k] from 0 to 10 with
    [round(v, 1) = k/10] (or [v] is a zero and [k = 0]), and the values
    that the F8 and F9 branches pass to [set_volume], rounded to one
    decimal, are the floats [(k-1)/10] and [(k+1)/10]. *)
Theorem volume_steps_on_tenths (v : float) :
  valid v -> in_unit v = true ->
  exists k, 0 <= k <= 10
    /\ (round v 1 = of_ratio k 10 \/ (k = 0 /\ exists s, v = S754_zero s))
    /\ round (lower_volume v) 1 = of_ratio (k - 1) 10
    /\ round (raise_volume v) 1 = of_ratio (k + 1) 10.
Proof.
  intros Hv Hu. unfold lower_volume, raise_volume.
  destruct (in_unit_inv v Hv Hu) as [[s ->] | (m & e & -> & Hle)].
  - clear Hv Hu. exists 0. split; [lia|]. split; [right; split; [reflexivity | by exists s]|].
    destruct s; split; vm_compute; reflexivity.
  - exists (nearest_even (Zpos m * 10) e).
    pose proof (nearest_even_unit (Zpos m) e (Pos2Z.is_pos m) Hle) as Hk.
    assert (Hr : round (S754_finite false m e) 1
                 = of_ratio (nearest_even (Zpos m * 10) e) 10)
      by (unfold round; change (10 ^ Z.of_nat 1) with 10; reflexivity).
    clear Hv Hu Hle.
    split; [exact Hk|]. split; [left; exact Hr|].
    rewrite Hr. exact (tenth_steps _ Hk).
Qed.

Lemma volume_steps_on_tenths_witness :
  exists k, 0 <= k <= 10
    /\ round (lower_volume (of_ratio 38 128)) 1 = of_ratio (k - 1) 10
    /\ round (raise_volume (of_ratio 38 128)) 1 = of_ratio (k + 1) 10.
Proof.
  destruct (volume_steps_on_tenths (of_ratio 38 128)) as (k & Hk & _ & Hl & Hu);
    [vm_compute; reflexivity | vm_compute; reflexivity |].
  exists k. split; [exact Hk|]. split; [exact Hl | exact Hu].
Defined.

(** *** Shape of the panel *)

Section PanelShape.
Context {M : Type} `{Playback M}.
Variable env : Env.

Lemma panel_step_refl (l : list DisplayLine) : panel_step l l.
Proof. done. Qed.

Lemma panel_step_trans (l1 l2 l3 : list DisplayLine) :
  panel_step l1 l2 -> panel_step l2 l3 -> panel_step l1 l3.
Proof.
  intros (L1 & G1 & F1) (L2 & G2 & F2). split; [congruence|]. split; [auto|].
  intros i n0 n2 n4 n6 n7 n8. rewrite F2, F1 by done. done.
Qed.

Lemma panel_step_insert (l : list DisplayLine) (i : nat) (x : DisplayLine) :
  i = 0%nat \/ i = 2%nat \/ i = 4%nat -> panel_step l (<[i := x]> l).
Proof.
  intros Hi. split; [apply length_insert|]. split.
  - intros Hw j row Hj. rewrite list_lookup_insert_ne by lia. by apply Hw.
  - intros j n0 n2 n4 _ _ _. apply list_lookup_insert_ne. lia.
Qed.

Lemma panel_step_splice s1 s2 s3 (l l' : list DisplayLine) :
  length s1 = 6%nat -> length s2 = 6%nat -> length s3 = 6%nat ->
  splice_symbol s1 s2 s3 l = Ok l' -> panel_step l l'.
Proof.
  intros H1 H2 H3 Hs. split; [|split].
  - apply splice_symbol_inv in Hs as (r6 & r7 & r8 & E6 & E7 & E8 & ->).
    by rewrite !length_insert.
  - intros Hw i row Hi Hl.
    destruct (splice_symbol_written s1 s2 s3 l l' H1 H2 H3 Hw Hs) as (_ & _ & Hr & _).
    destruct (Hr i row Hi Hl) as [_ H16]. lia.
  - apply splice_symbol_inv in Hs as (r6 & r7 & r8 & E6 & E7 & E8 & ->).
    intros i _ _ _ n6 n7 n8. by rewrite !list_lookup_insert_ne.
Qed.

Lemma keeps_panel_bind {A B} (c : Act M A) (k : A -> Act M B) :
  keeps_panel c -> (forall a, keeps_panel (k a)) -> keeps_panel (bind c k).
Proof.
  intros Hc Hk w. unfold bind. specialize (Hc w).
  destruct (c w) as [w' [a|e]]; simpl in *; [|done].
  eapply panel_step_trans; [exact Hc | apply Hk].
Qed.

Lemma keeps_panel_try (body handler : Act M unit) :
  keeps_panel body -> keeps_panel handler ->
  keeps_panel (try_except_pygame body handler).
Proof.
  intros Hb Hh w. unfold try_except_pygame. specialize (Hb w).
  destruct (body w) as [w' [a|e]]; simpl in *; [done|].
  destruct e; try done.
  eapply panel_step_trans; [exact Hb | apply Hh].
Qed.

Lemma keeps_panel_ret {A} (a : A) : keeps_panel (M:=M) (ret a).
Proof. intros w. apply panel_step_refl. Qed.

Lemma keeps_panel_eval {A} (r : World M -> Result A) : keeps_panel (eval r).
Proof. intros w. apply panel_step_refl. Qed.

Lemma keeps_panel_on_mixer (f : M -> M) : keeps_panel (on_mixer f).
Proof. intros w. apply panel_step_refl. Qed.

Lemma keeps_panel_set_m_file (path : pystr) : keeps_panel (M:=M) (set_m_file path).
Proof. intros w. apply panel_step_refl. Qed.

Lemma keeps_panel_load_m_file : keeps_panel (M:=M) load_m_file.
Proof.
  intros w. unfold load_m_file. destruct (music_load _ _); apply panel_step_refl.
Qed.

Lemma keeps_panel_redraw : keeps_panel (M:=M) (redraw env).
Proof. intros w. apply panel_step_refl. Qed.

Lemma keeps_panel_clear_input : keeps_panel (M:=M) clear_input.
Proof. intros w. apply panel_step_refl. Qed.

Lemma keeps_panel_set_line (i : nat) (content : DisplayLine) :
  i = 0%nat \/ i = 2%nat \/ i = 4%nat -> keeps_panel (M:=M) (set_line i content).
Proof.
  intros Hi w. unfold set_line.
  destruct (setitem (i_lines w) i content) as [l|e] eqn:E; [|apply panel_step_refl].
  apply setitem_Ok in E as [-> _]. cbn [fst i_lines]. by apply panel_step_insert.
Qed.

Lemma keeps_panel_pause_symbol : keeps_panel (M:=M) (apply_symbol pause_symbol).
Proof.
  intros w. unfold apply_symbol.
  destruct (pause_symbol (i_lines w)) as [l|e] eqn:E; [|apply panel_step_refl].
  cbn [fst i_lines]. by apply (panel_step_splice paus1 paus2 paus3).
Qed.

Lemma keeps_panel_play_symbol : keeps_panel (M:=M) (apply_symbol play_symbol).
Proof.
  intros w. unfold apply_symbol.
  destruct (play_symbol (i_lines w)) as [l|e] eqn:E; [|apply panel_step_refl].
  cbn [fst i_lines]. by apply (panel_step_splice play1 play2 play3).
Qed.

End PanelShape.

Create HintDb panel.

#[local] Hint Resolve keeps_panel_ret keeps_panel_eval keeps_panel_on_mixer
  keeps_panel_set_m_file keeps_panel_load_m_file keeps_panel_redraw
  keeps_panel_pause_symbol keeps_panel_play_symbol keeps_panel_clear_input : panel.

Ltac solve_keeps_panel :=
  repeat first
    [ apply keeps_panel_bind; [|intros ?]
    | apply keeps_panel_try
    | apply keeps_panel_set_line; lia
    | match goal with |- keeps_panel (if ?b then _ else _) => destruct b end
    | solve [auto with panel] ].

Section Handlers.
Context {M : Type} `{Playback M}.
Variable env : Env.

Lemma keeps_panel_play_random_file draw : keeps_panel (play_random_file env draw).
Proof. unfold play_random_file. solve_keeps_panel. Qed.

Lemma keeps_panel_key_pause : keeps_panel (key_pause env).
Proof. unfold key_pause. solve_keeps_panel. Qed.

Lemma keeps_panel_key_page_down draw : keeps_panel (key_page_down env draw).
Proof.
  unfold key_page_down. apply keeps_panel_try;
    [apply keeps_panel_play_random_file|]. solve_keeps_panel.
Qed.

Lemma keeps_panel_key_volume f : keeps_panel (key_volume env f).
Proof. unfold key_volume. solve_keeps_panel. Qed.

Lemma keeps_panel_track_ended draw : keeps_panel (track_ended env draw).
Proof.
  unfold track_ended. apply keeps_panel_try;
    [apply keeps_panel_play_random_file | apply keeps_panel_ret].
Qed.

Lemma keeps_panel_poll_tick : keeps_panel (poll_tick env).
Proof. unfold poll_tick. solve_keeps_panel. Qed.

Lemma keeps_panel_key_handler draw key : keeps_panel (key_handler env draw key).
Proof.
  destruct key; cbn [key_handler];
    auto using keeps_panel_ret, keeps_panel_key_pause, keeps_panel_key_page_down,
      keeps_panel_key_volume.
  - apply keeps_panel_key_volume.
  - apply keeps_panel_key_volume.
Qed.

End Handlers.

(** X16: every handler (the PAUSE, PAGE DOWN, F8 and F9 branches, an
    end-of-track event, a tick of [poll_interface] and [resize_handler])
    keeps the number of slots of [i_lines], keeps rows 6 to 8 at least ten
    characters wide if they were, and writes no slot other than 0, 2, 4,
    6, 7 and 8, whether it returns or raises. *)
Theorem handlers_keep_panel_shape {M : Type} `{Playback M} (env : Env) (draw : nat) :
  keeps_panel (M:=M) (key_pause env)
  /\ keeps_panel (M:=M) (key_page_down env draw)
  /\ keeps_panel (M:=M) (key_f8 env)
  /\ keeps_panel (M:=M) (key_f9 env)
  /\ keeps_panel (M:=M) (track_ended env draw)
  /\ keeps_panel (M:=M) (poll_tick env)
  /\ keeps_panel (M:=M) (resize_handler env).
Proof.
  split; [apply keeps_panel_key_pause|].
  split; [apply keeps_panel_key_page_down|].
  split; [apply keeps_panel_key_volume|].
  split; [apply keeps_panel_key_volume|].
  split; [apply keeps_panel_track_ended|].
  split; [apply keeps_panel_poll_tick | apply keeps_panel_redraw].
Qed.

(** X17: the shape of the panel survives whole runs: after any sequence of
    key events handled by [keyboard_listener], whatever the press/release
    counts it starts from, and after any number of ticks of
    [poll_interface], [i_lines] has the same number of slots, rows 6 to 8
    are at least ten characters wide if they were, and the slots other
    than 0, 2, 4, 6, 7 and 8 are as they were. *)
Theorem loops_keep_panel_shape {M : Type} `{Playback M} (env : Env)
    (press_or_release : Key -> nat) (events : list (KeyEvent * nat))
    (ticks : nat) (w : World M) :
  panel_step (i_lines w) (i_lines (keyboard_listener env press_or_release events w).1)
  /\ panel_step (i_lines w) (i_lines (poll_interface env ticks w).1).
Proof.
  split.
  - revert press_or_release w.
    induction events as [|[event draw] events IH]; intros counts w;
      [apply panel_step_refl|].
    cbn [keyboard_listener].
    destruct (Nat.even _).
    + eapply panel_step_trans; [apply (keeps_panel_clear_input w) | apply IH].
    + pose proof (keeps_panel_key_handler env draw (event_key event)
                    (clear_input w).1) as Hh.
      assert (Hrun : panel_step (i_lines w)
                (i_lines (match key_handler env draw (event_key event) (clear_input w).1 with
                          | (w', Ok _) =>
                              keyboard_listener env (bump counts (event_key event)) events w'
                          | (w', Raise e) => (w', Died e)
                          end).1)).
      { destruct (key_handler env draw (event_key event) (clear_input w).1)
          as [w' [a|e]]; cbn [fst] in *.
        - eapply panel_step_trans; [exact Hh | apply IH].
        - exact Hh. }
      destruct (event_key event); try exact Hrun. apply panel_step_refl.
  - revert w. induction ticks as [|ticks IH]; intros w; [apply panel_step_refl|].
    cbn [poll_interface].
    pose proof (keeps_panel_poll_tick env w) as Hp.
    destruct (poll_tick env w) as [w' [a|e]]; cbn [fst] in *.
    + eapply panel_step_trans; [exact Hp | apply IH].
    + exact Hp.
Qed.

(** *** The pause key and a failed load *)

Section Runs.
Context {M : Type} `{Playback M}.
Variable env : Env.

Lemma bind_run {A B} (c : Act M A) (k : A -> Act M B) w w1 a :
  c w = (w1, Ok a) -> bind c k w = k a w1.
Proof. intros Hc. unfold bind. by rewrite Hc. Qed.

Lemma bind_raise {A B} (c : Act M A) (k : A -> Act M B) w w1 e :
  c w = (w1, Raise e) -> bind c k w = (w1, Raise e).
Proof. intros Hc. unfold bind. by rewrite Hc. Qed.

Lemma bind_inv {A B} (c : Act M A) (k : A -> Act M B) w w2 b :
  bind c k w = (w2, Ok b) -> exists w1 a, c w = (w1, Ok a) /\ k a w1 = (w2, Ok b).
Proof.
  unfold bind. destruct (c w) as [w1 [a|e]]; [eauto | discriminate].
Qed.

Lemma set_line_inv i content (w w' : World M) u :
  set_line i content w = (w', Ok u) ->
  (i < length (i_lines w))%nat
  /\ w' = {| mixer := mixer w; i_lines := <[i := content]> (i_lines w);
             m_file := m_file w; stdout := stdout w |}.
Proof.
  unfold set_line. destruct (setitem _ _ _) as [l|e] eqn:E; [|discriminate].
  apply setitem_Ok in E as [-> Hi]. intros [= <-]. done.
Qed.

Lemma apply_symbol_inv f (w w' : World M) u :
  apply_symbol f w = (w', Ok u) ->
  exists l, f (i_lines w) = Ok l
    /\ w' = {| mixer := mixer w; i_lines := l; m_file := m_file w;
               stdout := stdout w |}.
Proof.
  unfold apply_symbol. destruct (f _) as [l|e] eqn:E; [|discriminate].
  intros [= <-]. eauto.
Qed.

Lemma eval_inv {A} (r : World M -> Result A) (w w' : World M) a :
  eval r w = (w', Ok a) -> w' = w /\ r w = Ok a.
Proof. unfold eval. intros [= -> ->]. done. Qed.

Lemma update_bar_ext (w1 w2 : World M) :
  mixer w1 = mixer w2 -> m_file w1 = m_file w2 ->
  update_bar env w1 = update_bar env w2.
Proof. intros Hm Hf. unfold update_bar. by rewrite Hm, Hf. Qed.

Lemma update_song_info_ext (w1 w2 : World M) :
  mixer w1 = mixer w2 -> m_file w1 = m_file w2 ->
  update_song_info env w1 = update_song_info env w2.
Proof. intros Hm Hf. unfold update_song_info. by rewrite Hm, Hf. Qed.

Lemma try_except_Ok (body handler : Act M unit) w w' :
  body w = (w', Ok tt) -> try_except_pygame body handler w = (w', Ok tt).
Proof. intros Hb. unfold try_except_pygame. by rewrite Hb. Qed.

Lemma play_random_file_load_error draw (w : World M) p :
  random_file (fs env) draw (m_file w) = Ok p ->
  music_load p (mixer w) = Raise PygameError ->
  play_random_file env draw w
  = ({| mixer := mixer w; i_lines := i_lines w; m_file := p; stdout := stdout w |},
     Raise PygameError).
Proof.
  intros Hr Hl. unfold play_random_file.
  unfold bind at 1. unfold eval at 1. rewrite Hr.
  unfold bind at 1. unfold set_m_file at 1.
  unfold bind at 1. unfold load_m_file at 1. cbn [mixer m_file].
  by rewrite Hl.
Qed.

Lemma keeps_slot0_refresh (w : World M) :
  i_lines
    (bind (eval (update_bar env)) (fun bar =>
     bind (set_line 2 (bar, true)) (fun _ =>
     bind (eval (update_song_info env)) (fun info =>
     bind (set_line 4 (info, true)) (fun _ =>
     bind (apply_symbol pause_symbol) (fun _ => redraw env))))) w).1 !! 0%nat
  = i_lines w !! 0%nat.
Proof.
  unfold bind at 1. unfold eval at 1.
  destruct (update_bar env w) as [bar|e]; [|done].
  unfold bind at 1.
  destruct (set_line 2 (bar, true) w) as [w1 [u1|e]] eqn:E1.
  2:{ unfold set_line in E1. destruct (setitem _ _ _); [discriminate|].
      injection E1 as <- _. done. }
  apply set_line_inv in E1 as [_ ->].
  unfold bind at 1. unfold eval at 1.
  match goal with |- context [update_song_info env ?w0] =>
    destruct (update_song_info env w0) as [info|e] end.
  2:{ cbn [fst i_lines]. by rewrite list_lookup_insert_ne. }
  unfold bind at 1.
  match goal with |- context [set_line 4 ?c ?w0] =>
    destruct (set_line 4 c w0) as [w2 [u2|e]] eqn:E2 end.
  2:{ unfold set_line in E2. destruct (setitem _ _ _); [discriminate|].
      injection E2 as <- _. cbn [fst i_lines]. by rewrite list_lookup_insert_ne. }
  apply set_line_inv in E2 as [_ ->]. cbn [mixer i_lines m_file stdout].
  unfold bind at 1.
  match goal with |- context [apply_symbol pause_symbol ?w0] =>
    destruct (apply_symbol pause_symbol w0) as [w3 [u3|e]] eqn:E3 end.
  2:{ unfold apply_symbol in E3. destruct (pause_symbol _); [discriminate|].
      injection E3 as <- _. cbn [fst i_lines].
      by rewrite !list_lookup_insert_ne. }
  apply apply_symbol_inv in E3 as (l & Hl & ->). cbn [mixer i_lines m_file stdout] in *.
  unfold redraw. cbn [fst i_lines].
  apply splice_symbol_inv in Hl as (r6 & r7 & r8 & _ & _ & _ & ->).
  by rewrite !list_lookup_insert_ne.
Qed.

End Runs.

(** X18: on a panel of at least nine slots whose rows 6 to 8 are at
    least ten characters wide, the PAUSE branch leaves a busy mixer paused
    with the play glyph in the panel, and an idle one unpaused with the
    pause glyph; the symbol update itself does not fail there, and [m_file]
    is unchanged.  This is the state the branch leaves whether or not the
    closing [redraw] succeeds; if the branch returns, the panel was printed
    once. *)
Theorem pause_key_toggles {M : Type} `{Playback M} (env : Env) (w : World M) :
  (9 <= length (i_lines w))%nat -> glyph_rows_wide (i_lines w) ->
  let busy := music_get_busy (mixer w) in
  let w' := (key_pause env w).1 in
  exists l',
    (if busy then play_symbol else pause_symbol) (i_lines w) = Ok l'
    /\ symbol_columns l'
       = (if busy then [Some play1; Some play2; Some play3]
          else [Some paus1; Some paus2; Some paus3])
    /\ mixer w' = (if busy then music_pause else music_unpause) (mixer w)
    /\ i_lines w' = l'
    /\ m_file w' = m_file w
    /\ (forall u, (key_pause env w).2 = Ok u ->
          stdout w' = stdout w ++ [interface l' (terminal_size env)]).
Proof.
  intros Hlen Hw busy w'.
  destruct (splice_symbol_total play1 play2 play3 (i_lines w) Hlen) as [lp Hp].
  destruct (splice_symbol_total paus1 paus2 paus3 (i_lines w) Hlen) as [lq Hq].
  fold play_symbol in Hp. fold pause_symbol in Hq.
  assert (Hk : exists l',
             (if busy then play_symbol else pause_symbol) (i_lines w) = Ok l'
             /\ symbol_columns l'
                = (if busy then [Some play1; Some play2; Some play3]
                   else [Some paus1; Some paus2; Some paus3])
             /\ key_pause env w
                = ({| mixer := (if busy then music_pause else music_unpause) (mixer w);
                      i_lines := l'; m_file := m_file w;
                      stdout := stdout w ++ [interface l' (terminal_size env)] |},
                   Ok tt)).
  { unfold key_pause. unfold bind at 1. unfold eval at 1. fold busy.
    destruct busy.
    - exists lp. split; [done|]. split.
      + by apply (splice_symbol_written play1 play2 play3 (i_lines w) lp).
      + unfold bind, on_mixer, apply_symbol, redraw. cbn [mixer i_lines m_file stdout].
        by rewrite Hp.
    - exists lq. split; [done|]. split.
      + by apply (splice_symbol_written paus1 paus2 paus3 (i_lines w) lq).
      + unfold bind, on_mixer, apply_symbol, redraw. cbn [mixer i_lines m_file stdout].
        by rewrite Hq. }
  destruct Hk as (l' & Hs & Hc & Hk). exists l'. subst w'. rewrite Hk.
  cbn [fst snd mixer i_lines m_file stdout].
  split; [exact Hs|]. split; [exact Hc|]. repeat (split; [reflexivity|]).
  intros u _. reflexivity.
Qed.

Lemma pause_key_toggles_witness :
  sm_busy (mixer (key_pause demo_env (demo_world true)).1) = false
  /\ symbol_columns (i_lines (key_pause demo_env (demo_world true)).1)
     = [Some play1; Some play2; Some play3].
Proof.
  assert (Hw : glyph_rows_wide (panel (lit "a.mp3"))).
  { intros i row Hi.
    assert (i = 6 \/ i = 7 \/ i = 8)%nat as [-> | [-> | ->]] by lia;
      intros [= <-]; vm_compute; lia. }
  destruct (pause_key_toggles demo_env (demo_world true))
    as (l' & _ & Hc & Hm & Hl & _); [vm_compute; lia | exact Hw |].
  split; [rewrite Hm; reflexivity | rewrite Hl; exact Hc].
Defined.

(** X19: when [random_file] picks a path that the mixer then fails to load
    with [pygame.error], [m_file] already names that path.  The end-of-track
    handler returns with the mixer and the panel untouched and [m_file]
    changed; the PAGE DOWN branch rewinds, unpausing if the mixer is not
    busy, with [m_file] changed and the title in slot 0 still the one of
    the old track. *)
Theorem load_failure_state {M : Type} `{Playback M} (env : Env) (draw : nat)
    (w : World M) (path : pystr) :
  random_file (fs env) draw (m_file w) = Ok path ->
  music_load path (mixer w) = Raise PygameError ->
  let rewound := music_rewind (mixer w) in
  track_ended env draw w
  = ({| mixer := mixer w; i_lines := i_lines w; m_file := path;
        stdout := stdout w |}, Ok tt)
  /\ m_file (key_page_down env draw w).1 = path
  /\ mixer (key_page_down env draw w).1
     = (if music_get_busy rewound then rewound else music_unpause rewound)
  /\ i_lines (key_page_down env draw w).1 !! 0%nat = i_lines w !! 0%nat.
Proof.
  intros Hr Hl rewound.
  pose proof (play_random_file_load_error env draw w path Hr Hl) as Hp.
  split; [unfold track_ended, try_except_pygame; by rewrite Hp|].
  assert (Hk : key_page_down env draw w
               = if music_get_busy rewound
                 then ({| mixer := rewound; i_lines := i_lines w; m_file := path;
                          stdout := stdout w |}, Ok tt)
                 else
                   bind (eval (update_bar env)) (fun bar =>
                   bind (set_line 2 (bar, true)) (fun _ =>
                   bind (eval (update_song_info env)) (fun info =>
                   bind (set_line 4 (info, true)) (fun _ =>
                   bind (apply_symbol pause_symbol) (fun _ => redraw env)))))
                     {| mixer := music_unpause rewound; i_lines := i_lines w;
                        m_file := path; stdout := stdout w |}).
  { unfold key_page_down, try_except_pygame. rewrite Hp.
    unfold bind at 1. unfold on_mixer at 1. unfold bind at 1. unfold eval at 1.
    cbn [mixer i_lines m_file stdout]. fold rewound.
    destruct (music_get_busy rewound); [reflexivity|].
    unfold bind at 1. unfold on_mixer at 1. reflexivity. }
  rewrite Hk. destruct (music_get_busy rewound); [done|].
  match goal with |- m_file (?c ?w0).1 = _ /\ _ =>
    destruct (keeps_refresh env w0) as [Hm Hf];
    pose proof (keeps_slot0_refresh env w0) as H0 end.
  split; [exact Hf|]. split; [exact Hm | exact H0].
Qed.

Lemma load_failure_state_witness :
  let w := {| mixer := tt; i_lines := panel (lit "a.mp3");
              m_file := lit "music/a.mp3"; stdout := [] |} in
  track_ended shuffle_env 5 w
  = ({| mixer := tt; i_lines := panel (lit "a.mp3");
        m_file := lit "music/b.ogg"; stdout := [] |}, Ok tt).
Proof.
  intros w.
  destruct (load_failure_state shuffle_env 5 w (lit "music/b.ogg")) as (Ht & _);
    [reflexivity | reflexivity |].
  exact Ht.
Defined.

(** *** A successful shuffle and a tick *)

Section Success.
Context {M : Type} `{Playback M}.
Variable env : Env.

Lemma load_m_file_inv (w w' : World M) u :
  load_m_file w = (w', Ok u) ->
  exists m, music_load (m_file w) (mixer w) = Ok m
    /\ w' = {| mixer := m; i_lines := i_lines w; m_file := m_file w;
               stdout := stdout w |}.
Proof.
  unfold load_m_file. destruct (music_load _ _) as [m|e]; [|discriminate].
  intros [= <-]. eauto.
Qed.

Lemma play_random_file_inv draw (w w' : World M) u :
  play_random_file env draw w = (w', Ok u) ->
  exists path m bar info l',
    random_file (fs env) draw (m_file w) = Ok path
    /\ music_load path (mixer w) = Ok m
    /\ update_bar env w' = Ok bar
    /\ update_song_info env w' = Ok info
    /\ (4 < length (i_lines w))%nat
    /\ pause_symbol
         (<[4%nat := (info, true)]>
            (<[2%nat := (bar, true)]>
               (<[0%nat := (strip_path_from_filename path, false)]> (i_lines w))))
       = Ok l'
    /\ w' = {| mixer := music_play m; i_lines := l'; m_file := path;
               stdout := stdout w ++ [interface l' (terminal_size env)] |}.
Proof.
  unfold play_random_file. intros Hrun.
  apply bind_inv in Hrun as (w1 & path & E1 & Hrun).
  apply eval_inv in E1 as [-> Hpath].
  apply bind_inv in Hrun as (w2 & [] & E2 & Hrun).
  unfold set_m_file in E2. injection E2 as <-.
  apply bind_inv in Hrun as (w3 & [] & E3 & Hrun).
  apply load_m_file_inv in E3 as (m & Hload & ->). cbn [mixer i_lines m_file stdout] in *.
  apply bind_inv in Hrun as (w4 & [] & E4 & Hrun).
  unfold on_mixer in E4. injection E4 as <-. cbn [mixer i_lines m_file stdout] in *.
  apply bind_inv in Hrun as (w5 & title & E5 & Hrun).
  apply eval_inv in E5 as [-> Htitle]. cbn [mixer i_lines m_file stdout] in *.
  injection Htitle as <-.
  apply bind_inv in Hrun as (w6 & [] & E6 & Hrun).
  apply set_line_inv in E6 as [L0 ->]. cbn [mixer i_lines m_file stdout] in *.
  apply bind_inv in Hrun as (w7 & bar & E7 & Hrun).
  apply eval_inv in E7 as [-> Hbar].
  apply bind_inv in Hrun as (w8 & [] & E8 & Hrun).
  apply set_line_inv in E8 as [L2 ->]. cbn [mixer i_lines m_file stdout] in *.
  apply bind_inv in Hrun as (w9 & info & E9 & Hrun).
  apply eval_inv in E9 as [-> Hinfo].
  apply bind_inv in Hrun as (w10 & [] & E10 & Hrun).
  apply set_line_inv in E10 as [L4 ->]. cbn [mixer i_lines m_file stdout] in *.
  apply bind_inv in Hrun as (w11 & [] & E11 & Hrun).
  apply apply_symbol_inv in E11 as (l' & Hl' & ->). cbn [mixer i_lines m_file stdout] in *.
  unfold redraw in Hrun. cbn [mixer i_lines m_file stdout] in Hrun.
  injection Hrun as <-.
  exists path, m, bar, info, l'.
  split; [done|]. split; [done|].
  split; [rewrite <- Hbar; by apply update_bar_ext|].
  split; [rewrite <- Hinfo; by apply update_song_info_ext|].
  split; [by rewrite !length_insert in L4|]. split; done.
Qed.

End Success.

(** X20: when the shuffle body runs to its end, the PAGE DOWN branch and the
    end-of-track handler end in the same state: [m_file] is the path that
    [random_file] picked, the mixer has loaded it and plays it, slot 0
    holds its file name left-justified, slots 2 and 4 hold the bar and the
    status line computed for the new track, the pause glyph is on display
    (if rows 6 to 8 were at least ten characters wide) and the panel was
    printed once. *)
Theorem shuffle_success {M : Type} `{Playback M} (env : Env) (draw : nat)
    (w w' : World M) :
  play_random_file env draw w = (w', Ok tt) ->
  key_page_down env draw w = (w', Ok tt)
  /\ track_ended env draw w = (w', Ok tt)
  /\ random_file (fs env) draw (m_file w) = Ok (m_file w')
  /\ (exists m, music_load (m_file w') (mixer w) = Ok m /\ mixer w' = music_play m)
  /\ i_lines w' !! 0%nat = Some (strip_path_from_filename (m_file w'), false)
  /\ (exists bar, update_bar env w' = Ok bar /\ i_lines w' !! 2%nat = Some (bar, true))
  /\ (exists info, update_song_info env w' = Ok info
        /\ i_lines w' !! 4%nat = Some (info, true))
  /\ (glyph_rows_wide (i_lines w) ->
        symbol_columns (i_lines w') = [Some paus1; Some paus2; Some paus3])
  /\ stdout w' = stdout w ++ [interface (i_lines w') (terminal_size env)].
Proof.
  intros Hrun.
  split; [unfold key_page_down; by apply try_except_Ok|].
  split; [unfold track_ended; by apply try_except_Ok|].
  apply play_random_file_inv in Hrun
    as (path & m & bar & info & l' & Hpath & Hload & Hbar & Hinfo & L4 & Hl' & ->).
  cbn [mixer i_lines m_file stdout] in *.
  split; [done|]. split; [eauto|].
  pose proof Hl' as Hinv.
  apply splice_symbol_inv in Hinv as (r6 & r7 & r8 & _ & _ & _ & ->).
  split.
  { rewrite !list_lookup_insert_ne by done.
    apply list_lookup_insert_eq. clear - L4. unfold DisplayLine in *. lia. }
  split.
  { exists bar. split; [done|].
    rewrite !list_lookup_insert_ne by done.
    apply list_lookup_insert_eq. rewrite length_insert.
    clear - L4. unfold DisplayLine in *. lia. }
  split.
  { exists info. split; [done|].
    rewrite !list_lookup_insert_ne by done.
    apply list_lookup_insert_eq. rewrite !length_insert.
    clear - L4. unfold DisplayLine in *. lia. }
  split; [|done].
  intros Hw.
  eapply (splice_symbol_written paus1 paus2 paus3); [done | done | done | | exact Hl'].
  intros i row Hi. rewrite !list_lookup_insert_ne by lia. by apply Hw.
Qed.

Lemma shuffle_success_witness :
  exists w', key_page_down shuffle_env 5 (demo_world true) = (w', Ok tt)
    /\ m_file w' = lit "music/b.ogg"
    /\ i_lines w' !! 0%nat = Some (lit "b.ogg", false).
Proof.
  destruct (play_random_file shuffle_env 5 (demo_world true)) as [w' [[]|e]] eqn:E;
    [|vm_compute in E; discriminate].
  destruct (shuffle_success shuffle_env 5 (demo_world true) w' E)
    as (Hk & _ & Hr & _ & Ht & _).
  exists w'. split; [exact Hk|].
  assert (Hm : m_file w' = lit "music/b.ogg").
  { assert (Hc : random_file (fs shuffle_env) 5 (m_file (demo_world true))
                 = Ok (lit "music/b.ogg")) by reflexivity.
    rewrite Hc in Hr. injection Hr as Hr. symmetry. exact Hr. }
  split; [exact Hm|]. rewrite Ht, Hm. reflexivity.
Defined.

(** X21: when mutagen reports a length of at least one second and less
    than 100 minutes and the mixer a position within the track and a
    volume of the unit interval, the two refresh computations of a tick of
    [poll_interface] raise nothing and give a bar and a status line of
    exactly [box_width] characters; on a panel of at least five slots the
    tick stores them in slots 2 and 4 and leaves the mixer and [m_file]
    alone.  This is the state the tick leaves whether or not the closing
    [redraw] succeeds; if the tick returns, the panel was printed once. *)
Theorem tick_refreshes {M : Type} `{Playback M} (env : Env) (w : World M)
    (total : Z) :
  to_int (audio_length env (m_file w)) = Ok total ->
  0 < total < 6000 ->
  0 <= music_get_pos (mixer w) <= 1000 * total ->
  valid (music_get_volume (mixer w)) ->
  in_unit (music_get_volume (mixer w)) = true ->
  (4 < length (i_lines w))%nat ->
  exists bar info,
    update_bar env w = Ok bar /\ len bar = box_width
    /\ update_song_info env w = Ok info /\ len info = box_width
    /\ let l' := <[4%nat := (info, true)]> (<[2%nat := (bar, true)]> (i_lines w)) in
       let w' := (poll_tick env w).1 in
       i_lines w' = l' /\ mixer w' = mixer w /\ m_file w' = m_file w
       /\ (forall u, (poll_tick env w).2 = Ok u ->
             stdout w' = stdout w ++ [interface l' (terminal_size env)]).
Proof.
  intros Ht Htot Hpos Hv Hu Hlen.
  assert (H53 : 6000 < 2 ^ 53) by reflexivity.
  destruct (update_bar_ok env w total Ht ltac:(clear - Htot H53; lia) Hpos)
    as (filled & Hf & Hbar & Hbl).
  destruct (int_truediv_le (music_get_pos (mixer w)) 1000 total)
    as (secs & Hs & Hsle); [clear - Hpos; lia | lia | clear - Htot H53; lia
                            | clear - Hpos; lia |].
  destruct (to_int_nonneg_le secs total ltac:(clear - Htot; lia) Hsle) as [Hc Hcb].
  destruct (song_info_parser_width (floor secs) total (music_get_volume (mixer w))
              box_width Hv Hu) as (info & Hi & Hil);
    [clear - Hcb Htot; lia | clear - Htot; lia | unfold box_width; lia |].
  assert (Hinfo : update_song_info env w = Ok info).
  { unfold update_song_info. rewrite Hs. cbn [mbind Result_bind]. rewrite Hc.
    cbn [mbind Result_bind]. rewrite Ht. cbn [mbind Result_bind]. exact Hi. }
  eexists _, info. split; [exact Hbar|]. split; [by apply Hbl|].
  split; [exact Hinfo|]. split; [exact Hil|].
  cbv zeta.
  match goal with |- i_lines _ = ?l' /\ _ =>
    assert (Hk : poll_tick env w
                 = ({| mixer := mixer w; i_lines := l'; m_file := m_file w;
                       stdout := stdout w ++ [interface l' (terminal_size env)] |},
                    Ok tt)) end;
    [|rewrite Hk; cbn [fst snd mixer i_lines m_file stdout];
      repeat (split; [reflexivity|]); intros u _; reflexivity].
  unfold poll_tick.
  unfold bind at 1. unfold eval at 1. rewrite Hbar.
  unfold bind at 1. unfold set_line at 1.
  rewrite setitem_lt by (clear - Hlen; unfold DisplayLine in *; lia).
  unfold bind at 1. unfold eval at 1.
  erewrite (update_song_info_ext env _ w) by reflexivity. rewrite Hinfo.
  unfold bind at 1. unfold set_line at 1. cbn [mixer i_lines m_file stdout].
  rewrite setitem_lt
    by (rewrite length_insert; clear - Hlen; unfold DisplayLine in *; lia).
  reflexivity.
Qed.

Lemma tick_refreshes_witness :
  exists bar info,
    update_bar demo_env (demo_world true) = Ok bar /\ len bar = box_width
    /\ update_song_info demo_env (demo_world true) = Ok info
    /\ len info = box_width.
Proof.
  destruct (tick_refreshes demo_env (demo_world true) 200)
    as (bar & info & Hb & Hbl & Hi & Hil & _ & _ & _ & _).
  - vm_compute. reflexivity.
  - lia.
  - simpl. lia.
  - vm_compute. reflexivity.
  - vm_compute. reflexivity.
  - vm_compute. lia.
  - exists bar, info. split; [exact Hb|]. split; [exact Hbl|].
    split; [exact Hi | exact Hil].
Defined.

(** *** The keyboard loop and the entry point *)

Section Listener.
Context {M : Type} `{Playback M}.
Variable env : Env.

Lemma keyboard_listener_alternating (counts : Key -> nat) (held : Key -> bool)
    (events : list (KeyEvent * nat)) (w : World M) :
  (forall k, Nat.even (counts k) = negb (held k)) ->
  alternates held (map fst events) = true ->
  keyboard_listener env counts events w = presses_only env events w.
Proof.
  revert counts held w.
  induction events as [|[event draw] events IH]; intros counts held w Hinv Halt;
    [done|].
  cbn [keyboard_listener presses_only map fst alternates] in *.
  destruct event as [key | key]; cbn [event_key] in *.
  - apply andb_prop in Halt as [Hup Halt]. apply negb_true_iff in Hup.
    assert (Hodd : Nat.even (bump counts key key) = false).
    { unfold bump. rewrite decide_True by done.
      rewrite Nat.even_succ, <- Nat.negb_even, Hinv, Hup. done. }
    rewrite Hodd.
    assert (Hinv' : forall k, Nat.even (bump counts key k) = negb (hold held key true k)).
    { intros k. unfold bump, hold. destruct (decide (k = key)) as [-> | _]; [|apply Hinv].
      rewrite Nat.even_succ, <- Nat.negb_even, Hinv, Hup. done. }
    pose proof (fun w' => IH _ _ w' Hinv' Halt) as IH'.
    destruct key; try done;
      destruct (key_handler env draw _ _) as [w' [u|e]]; try done; apply IH'.
  - apply andb_prop in Halt as [Hdown Halt].
    assert (Heven : Nat.even (bump counts key key) = true).
    { unfold bump. rewrite decide_True by done.
      rewrite Nat.even_succ, <- Nat.negb_even, Hinv, Hdown. done. }
    rewrite Heven.
    apply (IH _ (hold held key false)); [|done].
    intros k. unfold bump, hold. destruct (decide (k = key)) as [-> | _]; [|apply Hinv].
    rewrite Nat.even_succ, <- Nat.negb_even, Hinv, Hdown. done.
Qed.

End Listener.

(** X22: the press/release counter makes [keyboard_listener] react to
    presses only, as long as every key is pressed and released in turn: on
    such a sequence of events, starting with no key down, the loop does
    exactly what a listener does that handles each press and ignores each
    release. *)
Theorem listener_reacts_to_presses {M : Type} `{Playback M} (env : Env)
    (events : list (KeyEvent * nat)) (w : World M) :
  alternates (fun _ => false) (map fst events) = true ->
  keyboard_listener env (fun _ => 0%nat) events w = presses_only env events w.
Proof.
  intros Halt. by apply (keyboard_listener_alternating env _ (fun _ => false)).
Qed.

Lemma listener_reacts_to_presses_witness :
  keyboard_listener demo_env (fun _ => 0%nat)
    [(Press KeyF8, 0%nat); (Press KeyPause, 0%nat); (Release KeyF8, 0%nat);
     (Release KeyPause, 0%nat)] (demo_world true)
  = presses_only demo_env
      [(Press KeyF8, 0%nat); (Press KeyPause, 0%nat); (Release KeyF8, 0%nat);
       (Release KeyPause, 0%nat)] (demo_world true).
Proof. apply (listener_reacts_to_presses demo_env). reflexivity. Defined.

Section Main.
Context {M : Type} `{Playback M}.
Variable env : Env.

Lemma i_lines_init_shape (title : pystr) :
  length (panel title) = 11%nat
  /\ glyph_rows_wide (panel title)
  /\ symbol_columns (panel title) = [Some paus1; Some paus2; Some paus3].
Proof.
  split; [reflexivity|]. split; [|reflexivity].
  intros i row Hi.
  assert (i = 6 \/ i = 7 \/ i = 8)%nat as [-> | [-> | ->]] by lia;
    intros [= <-]; vm_compute; lia.
Qed.

Lemma last_char_endswith (s : pystr) (c : char) :
  getitem s (length s - 1) = Ok c ->
  endswith s [SLASH] = char_eqb c SLASH.
Proof.
  intros Hg. apply getitem_Ok in Hg.
  pose proof (lookup_lt_Some _ _ _ Hg) as Hlt.
  unfold endswith. cbn [length].
  replace (1 <=? length s)%nat with true by (symmetry; apply Nat.leb_le; lia).
  rewrite (drop_S _ _ _ Hg).
  replace (S (length s - 1)) with (length s) by lia.
  rewrite drop_all. cbn [PyStr.eqb andb]. by rewrite andb_true_r.
Qed.

Lemma getitem_last_nonempty (s : pystr) :
  s <> [] -> exists c, getitem s (length s - 1) = Ok c.
Proof.
  intros Hs. unfold getitem.
  destruct (lookup_lt_is_Some_2 s (length s - 1)) as [c ->]; [|eauto].
  destruct s; [done|]. simpl. lia.
Qed.

Lemma strip_directory (dir : pystr) :
  endswith dir [SLASH] = true ->
  strip_path_from_filename dir = []
  /\ strip_filename_from_path (fs env) dir = dir.
Proof.
  intros He. destruct (endswith_inv _ _ He) as [a ->].
  destruct (strip_of_join (fs env) a [] eq_refl) as [H1 H2]. done.
Qed.

Lemma random_file_directory (draw : nat) (dir : pystr) :
  endswith dir [SLASH] = true ->
  (forall file, In file (listdir (fs env) dir) -> contains SLASH file = false) ->
  match random_file (fs env) draw dir with
  | Ok path =>
      exists file, In file (listdir (fs env) dir) /\ is_music_file file = true
        /\ path = dir ++ file /\ strip_path_from_filename path = file
  | Raise e => e = PygameError /\ music_files (listdir (fs env) dir) [] = []
  end.
Proof.
  intros He Hfiles.
  destruct (strip_directory dir He) as [Hb Hd].
  destruct (random_file (fs env) draw dir) as [path|e] eqn:E.
  - apply random_file_inv in E as (file & -> & Hin).
    rewrite Hb, Hd in Hin. rewrite Hd.
    apply music_files_In in Hin as (Hin & Hm & _).
    pose proof (Hfiles file Hin) as Hf.
    exists file. split; [done|]. split; [done|].
    rewrite path_join_dir by done. split; [done|].
    destruct (endswith_inv _ _ He) as [a ->]. rewrite <- app_assoc.
    change ([SLASH] ++ file) with (SLASH :: file).
    by destruct (strip_of_join (fs env) a file Hf) as [-> _].
  - unfold random_file in E. rewrite Hb, Hd in E.
    destruct (music_files (listdir (fs env) dir) []) as [|c cs] eqn:Ec.
    + cbn in E. injection E as <-. done.
    + destruct (random_choice_In draw (c :: cs)) as (file & Hch & _); [done|].
      rewrite Hch in E. discriminate.
Qed.

End Main.

(** X23: run on the initial [i_lines] of the module, [main] either exits
    with status 1 before the loops start, or exactly one argument was given, the mixer has loaded [m_file]
    and plays it, [i_lines] is the initial panel under the file name of
    [m_file] (eleven slots, rows 6 to 8 at least ten characters wide, the
    pause glyph on display) and the panel was printed once. *)
Theorem main_outcome {M : Type} `{Playback M} (env : Env) (isdir : pystr -> bool)
    (draw : nat) (argv : list pystr) (w : World M) (outcome : Startup M) :
  i_lines w = i_lines_init ->
  main env isdir draw argv w = Ok outcome ->
  match outcome with
  | Exit status _ => status = 1
  | Started w' =>
      length argv = 2%nat
      /\ i_lines w' = panel (strip_path_from_filename (m_file w'))
      /\ (exists m, music_load (m_file w') (mixer w) = Ok m
            /\ mixer w' = music_play m)
      /\ stdout w' = stdout w ++ [interface (i_lines w') (terminal_size env)]
      /\ length (i_lines w') = 11%nat
      /\ glyph_rows_wide (i_lines w')
      /\ symbol_columns (i_lines w') = [Some paus1; Some paus2; Some paus3]
  end.
Proof.
  intros Hinit Hmain. unfold main in Hmain.
  destruct (len argv =? 2) eqn:Eargc; cbn [negb] in Hmain;
    [|injection Hmain as <-; done].
  apply Z.eqb_eq in Eargc.
  apply bind_Ok in Hmain as (arg & _ & Hmain).
  apply bind_Ok in Hmain as (picked & _ & Hmain).
  destruct picked as [path|]; [|injection Hmain as <-; done].
  destruct (music_load path (mixer w)) as [m|e] eqn:Eload.
  - injection Hmain as <-. unfold redraw. cbn [fst mixer i_lines m_file stdout].
    rewrite Hinit. fold (panel (strip_path_from_filename path)).
    destruct (i_lines_init_shape (strip_path_from_filename path)) as (Hl & Hw & Hs).
    split; [unfold len in Eargc; lia|]. split; [done|]. split; [eauto|].
    split; [done|]. split; [done|]. split; done.
  - destruct e; try discriminate. injection Hmain as <-. done.
Qed.

Lemma main_outcome_witness :
  exists w', main demo_env (fun _ => false) 0 [lit "pyms"; lit "music/a.mp3"]
               {| mixer := {| sm_loaded := []; sm_busy := false; sm_pos := 0;
                              sm_volume := one |};
                  i_lines := i_lines_init; m_file := []; stdout := [] |}
             = Ok (Started w')
    /\ i_lines w' = panel (lit "a.mp3").
Proof.
  eexists. split; [vm_compute; reflexivity|].
  match goal with |- i_lines ?w' = _ =>
    pose proof (main_outcome demo_env (fun _ => false) 0
                  [lit "pyms"; lit "music/a.mp3"]
                  {| mixer := {| sm_loaded := []; sm_busy := false; sm_pos := 0;
                                 sm_volume := one |};
                     i_lines := i_lines_init; m_file := []; stdout := [] |}
                  (Started w') eq_refl) as Hm end.
  destruct Hm as (_ & Hp & _); [vm_compute; reflexivity|].
  rewrite Hp. reflexivity.
Defined.

(** X24: [main] on a non-empty directory argument whose listing holds plain
    names: a slash is appended unless the argument ends with one; if the
    directory holds no music file, [main] prints that no music files were
    found and exits with status 1; whenever it starts, [m_file] is the
    directory followed by a listed music file, whose name is the title
    line. *)
Theorem main_directory_argument {M : Type} `{Playback M} (env : Env)
    (isdir : pystr -> bool) (draw : nat) (prog dir : pystr) (w : World M) :
  isdir dir = true -> dir <> [] ->
  let d := if endswith dir [SLASH] then dir else dir ++ [SLASH] in
  (forall file, In file (listdir (fs env) d) -> contains SLASH file = false) ->
  (music_files (listdir (fs env) d) [] = [] ->
     main env isdir draw [prog; dir] w
     = Ok (Exit 1 (lit "No music files found in the directory.")))
  /\ (forall w', main env isdir draw [prog; dir] w = Ok (Started w') ->
        exists file, In file (listdir (fs env) d) /\ is_music_file file = true
          /\ m_file w' = d ++ file
          /\ i_lines w' !! 0%nat = Some (file, false)).
Proof.
  intros Hdir Hne d Hfiles.
  destruct (getitem_last_nonempty dir Hne) as [c Hc].
  pose proof (last_char_endswith dir c Hc) as Hends.
  assert (Hd : (if negb (char_eqb c SLASH) then dir ++ lit "/" else dir) = d).
  { subst d. rewrite Hends. by destruct (char_eqb c SLASH). }
  assert (Hde : endswith d [SLASH] = true).
  { subst d. destruct (endswith dir [SLASH]) eqn:E; [done | apply endswith_app]. }
  pose proof (random_file_directory env draw d Hde Hfiles) as Hr.
  assert (Hmain : main env isdir draw [prog; dir] w
                  = match random_file (fs env) draw d with
                    | Ok path =>
                        match music_load path (mixer w) with
                        | Ok m =>
                            Ok (Started
                                  (redraw env
                                     {| mixer := music_play m;
                                        i_lines := (strip_path_from_filename path, false)
                                                     :: i_lines w;
                                        m_file := path; stdout := stdout w |}).1)
                        | Raise PygameError =>
                            Ok (Exit 1 (lit "Error: Could not load music file."))
                        | Raise e => Raise e
                        end
                    | Raise PygameError =>
                        Ok (Exit 1 (lit "No music files found in the directory."))
                    | Raise e => Raise e
                    end).
  { unfold main. cbn [len length negb Z.of_nat Z.eqb Pos.of_succ_nat Pos.succ Pos.eqb].
    cbn [getitem lookup list_lookup mbind Result_bind]. rewrite Hdir, Hc.
    cbn [mbind Result_bind]. rewrite Hd.
    destruct (random_file (fs env) draw d) as [path|[]]; reflexivity. }
  rewrite Hmain. split.
  - intros Hnil.
    destruct (random_file (fs env) draw d) as [path|e].
    + destruct Hr as (file & Hin & Hm & _). exfalso.
      assert (Hmf : In file (music_files (listdir (fs env) d) [])).
      { apply music_files_In. split; [done|]. split; [done|].
        intros ->. discriminate. }
      rewrite Hnil in Hmf. done.
    + destruct Hr as [-> _]. done.
  - intros w' Hrun.
    destruct (random_file (fs env) draw d) as [path|e].
    + destruct Hr as (file & Hin & Hm & -> & Hb).
      destruct (music_load (d ++ file) (mixer w)) as [m|e]; [|by destruct e].
      injection Hrun as <-. unfold redraw. cbn [fst mixer i_lines m_file stdout].
      exists file. rewrite Hb. done.
    + by destruct e.
Qed.

Lemma main_directory_argument_witness :
  exists w' file,
    main shuffle_env (fun _ => true) 1 [lit "pyms"; lit "music"]
      {| mixer := {| sm_loaded := []; sm_busy := false; sm_pos := 0;
                     sm_volume := one |};
         i_lines := i_lines_init; m_file := []; stdout := [] |}
    = Ok (Started w')
    /\ m_file w' = lit "music/" ++ file
    /\ i_lines w' !! 0%nat = Some (file, false).
Proof.
  destruct (main_directory_argument shuffle_env (fun _ => true) 1
              (lit "pyms") (lit "music")
              {| mixer := {| sm_loaded := []; sm_busy := false; sm_pos := 0;
                             sm_volume := one |};
                 i_lines := i_lines_init; m_file := []; stdout := [] |})
    as [_ Hs].
  - reflexivity.
  - discriminate.
  - intros file Hin. simpl in Hin.
    destruct Hin as [<- | [<- | [<- | []]]]; reflexivity.
  - destruct (main shuffle_env (fun _ => true) 1 [lit "pyms"; lit "music"] _)
      as [[status msg | w'] | e] eqn:E;
      try (vm_compute in E; discriminate).
    destruct (Hs w' eq_refl) as (file & _ & _ & Hm & Ht).
    exists w', file. split; [reflexivity|]. split; [exact Hm | exact Ht].
Defined.

(** *** Short rows, exceptions of a refresh and what the display handlers keep *)

Section NeverShort.

Lemma Ok_inj {A} (a b : A) : Ok a = Ok b -> a = b.
Proof. congruence. Qed.

Lemma len_rjust_max (s : pystr) (w : Z) : len (rjust s w) = Z.max w (len s).
Proof.
  unfold rjust. destruct (w <=? len s) eqn:E.
  - apply Z.leb_le in E. lia.
  - apply Z.leb_gt in E. rewrite len_pad. lia.
Qed.

Lemma bar_parser_inv (f : float) (w : Z) (bar : pystr) :
  bar_parser f w = Ok bar ->
  exists bar_width,
    mul_int f w ≫= to_int = Ok bar_width
    /\ bar = replicate (Z.to_nat bar_width) FULL_BLOCK
             ++ replicate (Z.to_nat (w - bar_width)) LIGHT_SHADE.
Proof.
  unfold bar_parser. intros Hb.
  apply bind_Ok in Hb as (scaled & Hs & Hb).
  apply bind_Ok in Hb as (bar_width & Ht & Hb).
  injection Hb as <-. exists bar_width. rewrite Hs. cbn [mbind Result_bind].
  split; [done|]. by rewrite !mul_singleton.
Qed.

End NeverShort.

(** X25: [bar_parser] and [song_info_parser] never return fewer than
    [max_width] characters.  A bar consists of full blocks and light-shade
    characters only, [max(0, n) + max(0, max_width - n)] of them for
    [n = int(percentage * max_width)]; it is exactly [max_width] long if
    and only if [0 <= n <= max_width]. *)
Theorem rows_never_short (f volume : float) (cs ts w : Z) :
  (forall bar, bar_parser f w = Ok bar ->
     w <= len bar
     /\ Forall (fun c => c = FULL_BLOCK \/ c = LIGHT_SHADE) bar
     /\ exists bar_width,
          mul_int f w ≫= to_int = Ok bar_width
          /\ len bar = Z.max 0 bar_width + Z.max 0 (w - bar_width)
          /\ (len bar = w <-> 0 <= bar_width <= w))
  /\ (forall line, song_info_parser cs ts volume w = Ok line -> w <= len line).
Proof.
  split.
  - intros bar Hb. apply bar_parser_inv in Hb as (bw & Hbw & ->).
    rewrite len_app, !len_replicate.
    split; [lia|]. split.
    + apply Forall_app. split; apply Forall_replicate; auto.
    + exists bw. split; [done|]. split; [done|]. lia.
  - intros line Hl.
    assert (Hp : exists p, truncated_percent volume = Ok p).
    { unfold song_info_parser in Hl. unfold truncated_percent.
      destruct (mul_int volume 100) as [scaled|]; [|done].
      cbn [mbind Result_bind] in *.
      destruct (to_int scaled) as [p|]; [|done]. eauto. }
    destruct Hp as [p Hp].
    rewrite (song_info_parser_Ok cs ts volume w p Hp) in Hl.
    apply Ok_inj in Hl. subst line.
    rewrite !len_app, len_rjust_max. change (len (lit " / ")) with 3.
    pose proof (len_nonneg (format_02d (cs / 60))).
    lia.
Qed.

Lemma rows_never_short_witness :
  46 <= len (replicate 69 FULL_BLOCK)
  /\ 46 <= len (lit "01:15 / 03:20" ++ replicate 22 SPACE ++ lit "Volume: 30%").
Proof.
  destruct (rows_never_short (of_ratio 3 2) (of_ratio 38 128) 75 200 46) as [Hb Hs].
  split.
  - apply Hb. vm_compute. reflexivity.
  - apply Hs. vm_compute. reflexivity.
Defined.

Section Errors.
Context {M : Type} `{Playback M}.
Variable env : Env.

Lemma int_truediv_raise a b e :
  int_truediv a b = Raise e -> e = ZeroDivisionError /\ b = 0 \/ e = OverflowError.
Proof.
  unfold int_truediv. destruct (b =? 0) eqn:E.
  - apply Z.eqb_eq in E. intros [= <-]. by left.
  - destruct (of_ratio a b); try discriminate. intros [= <-]. by right.
Qed.

Lemma to_int_raise x e : to_int x = Raise e -> e = OverflowError \/ e = ValueError.
Proof. destruct x; cbn; try discriminate; intros [= <-]; auto. Qed.

Lemma of_int_raise n e : of_int n = Raise e -> e = OverflowError.
Proof.
  unfold of_int. destruct (binary_normalize _ _ _ _ _); try discriminate.
  by intros [= <-].
Qed.

Lemma mul_int_raise x n e : mul_int x n = Raise e -> e = OverflowError.
Proof.
  unfold mul_int. destruct (of_int n) as [y|e'] eqn:E; [discriminate|].
  cbn [mbind Result_bind]. intros [= <-]. by apply of_int_raise in E.
Qed.

Lemma bar_parser_raise f w e :
  bar_parser f w = Raise e -> e = OverflowError \/ e = ValueError.
Proof.
  unfold bar_parser.
  destruct (mul_int f w) as [scaled|e'] eqn:E1; cbn [mbind Result_bind].
  - destruct (to_int scaled) as [bw|e''] eqn:E2; cbn [mbind Result_bind];
      [discriminate|]. intros [= <-]. by apply to_int_raise in E2.
  - intros [= <-]. left. by apply mul_int_raise in E1.
Qed.

Lemma song_info_parser_raise cs ts v w e :
  song_info_parser cs ts v w = Raise e -> e = OverflowError \/ e = ValueError.
Proof.
  unfold song_info_parser.
  destruct (mul_int v 100) as [scaled|e'] eqn:E1; cbn [mbind Result_bind].
  - destruct (to_int scaled) as [bw|e''] eqn:E2; cbn [mbind Result_bind];
      [discriminate|]. intros [= <-]. by apply to_int_raise in E2.
  - intros [= <-]. left. by apply mul_int_raise in E1.
Qed.

Lemma update_bar_raise (w : World M) e :
  update_bar env w = Raise e ->
  e = ZeroDivisionError \/ e = OverflowError \/ e = ValueError.
Proof.
  unfold update_bar.
  destruct (int_truediv (music_get_pos (mixer w)) 1000) as [secs|e1] eqn:E1;
    cbn [mbind Result_bind].
  2:{ intros [= <-]. apply int_truediv_raise in E1 as [[_ E]|E]; [discriminate | auto]. }
  destruct (to_int secs) as [curr|e2] eqn:E2; cbn [mbind Result_bind].
  2:{ intros [= <-]. apply to_int_raise in E2. tauto. }
  destruct (to_int (audio_length env (m_file w))) as [total|e3] eqn:E3;
    cbn [mbind Result_bind].
  2:{ intros [= <-]. apply to_int_raise in E3. tauto. }
  destruct (int_truediv curr total) as [pct|e4] eqn:E4; cbn [mbind Result_bind].
  2:{ intros [= <-]. apply int_truediv_raise in E4 as [[E _]|E]; auto. }
  intros Hb. apply bar_parser_raise in Hb. tauto.
Qed.

Lemma update_song_info_raise (w : World M) e :
  update_song_info env w = Raise e -> e = OverflowError \/ e = ValueError.
Proof.
  unfold update_song_info.
  destruct (int_truediv (music_get_pos (mixer w)) 1000) as [secs|e1] eqn:E1;
    cbn [mbind Result_bind].
  2:{ intros [= <-]. apply int_truediv_raise in E1 as [[_ E]|E]; [discriminate | auto]. }
  destruct (to_int secs) as [curr|e2] eqn:E2; cbn [mbind Result_bind].
  2:{ intros [= <-]. by apply to_int_raise in E2. }
  destruct (to_int (audio_length env (m_file w))) as [total|e3] eqn:E3;
    cbn [mbind Result_bind].
  2:{ intros [= <-]. by apply to_int_raise in E3. }
  apply song_info_parser_raise.
Qed.

End Errors.

(** X26: given that mutagen reports a finite length, which truncates to
    [total_time] seconds, and that the position converts to seconds, a
    refresh divides by zero in one place only: [update_bar] raises
    [ZeroDivisionError] exactly when [total_time] is 0, while
    [update_song_info] never raises it and, whenever the volume converts to
    a percentage, still returns its status line, of at least [box_width]
    characters. *)
Theorem refresh_zero_division {M : Type} `{Playback M} (env : Env) (w : World M)
    (secs : float) (curr_time total_time : Z) :
  int_truediv (music_get_pos (mixer w)) 1000 = Ok secs ->
  to_int secs = Ok curr_time ->
  to_int (audio_length env (m_file w)) = Ok total_time ->
  (update_bar env w = Raise ZeroDivisionError <-> total_time = 0)
  /\ update_song_info env w <> Raise ZeroDivisionError
  /\ (forall p, truncated_percent (music_get_volume (mixer w)) = Ok p ->
        exists info, update_song_info env w = Ok info /\ box_width <= len info).
Proof.
  intros Hs Hc Ht.
  assert (Hbar : update_bar env w
                 = int_truediv curr_time total_time
                     ≫= fun percentage => bar_parser percentage box_width).
  { unfold update_bar. rewrite Hs. cbn [mbind Result_bind]. rewrite Hc.
    cbn [mbind Result_bind]. rewrite Ht. reflexivity. }
  assert (Hinfo : update_song_info env w
                  = song_info_parser curr_time total_time
                      (music_get_volume (mixer w)) box_width).
  { unfold update_song_info. rewrite Hs. cbn [mbind Result_bind]. rewrite Hc.
    cbn [mbind Result_bind]. rewrite Ht. reflexivity. }
  split; [split|split].
  - rewrite Hbar.
    destruct (int_truediv curr_time total_time) as [pct|e] eqn:E;
      cbn [mbind Result_bind].
    + intros Hb. apply bar_parser_raise in Hb. destruct Hb; discriminate.
    + intros [= ->]. apply int_truediv_raise in E as [[_ E]|E]; [done | discriminate].
  - intros ->. rewrite Hbar. unfold int_truediv. reflexivity.
  - intros Hr. apply (update_song_info_raise env w) in Hr.
    destruct Hr; discriminate.
  - intros p Hp. rewrite Hinfo, (song_info_parser_Ok _ _ _ _ p Hp).
    eexists. split; [reflexivity|].
    rewrite !len_app, len_rjust_max. change (len (lit " / ")) with 3.
    pose proof (len_nonneg (format_02d (curr_time / 60))).
    lia.
Qed.

Lemma refresh_zero_division_witness :
  update_bar silent_env (demo_world true) = Raise ZeroDivisionError
  /\ exists info, update_song_info silent_env (demo_world true) = Ok info
       /\ box_width <= len info.
Proof.
  destruct (refresh_zero_division silent_env (demo_world true) (of_ratio 200 1) 200 0)
    as (Hz & _ & Hi); [vm_compute; reflexivity ..|].
  split; [by apply Hz|].
  apply (Hi 100). vm_compute. reflexivity.
Defined.

Section ShuffleError.
Context {M : Type} `{Playback M}.
Variable env : Env.

Lemma play_random_file_bar_error draw (w : World M) path m e :
  random_file (fs env) draw (m_file w) = Ok path ->
  music_load path (mixer w) = Ok m ->
  (0 < length (i_lines w))%nat ->
  update_bar env {| mixer := music_play m; i_lines := i_lines w; m_file := path;
                    stdout := stdout w |} = Raise e ->
  play_random_file env draw w
  = ({| mixer := music_play m;
        i_lines := <[0%nat := (strip_path_from_filename path, false)]> (i_lines w);
        m_file := path; stdout := stdout w |}, Raise e).
Proof.
  intros Hr Hl Hlen Hb. unfold play_random_file.
  unfold bind at 1. unfold eval at 1. rewrite Hr.
  unfold bind at 1. unfold set_m_file at 1.
  unfold bind at 1. unfold load_m_file at 1. cbn [mixer m_file i_lines stdout].
  rewrite Hl.
  unfold bind at 1. unfold on_mixer at 1. cbn [mixer m_file i_lines stdout].
  unfold bind at 1. unfold eval at 1. cbn [mixer m_file i_lines stdout].
  unfold bind at 1. unfold set_line at 1. cbn [mixer m_file i_lines stdout].
  rewrite setitem_lt by done.
  unfold bind at 1. unfold eval at 1.
  erewrite (update_bar_ext env _ {| mixer := music_play m; i_lines := i_lines w;
                                  m_file := path; stdout := stdout w |})
    by reflexivity.
  by rewrite Hb.
Qed.

Lemma key_page_down_bar_error draw (w : World M) path m e :
  random_file (fs env) draw (m_file w) = Ok path ->
  music_load path (mixer w) = Ok m ->
  (0 < length (i_lines w))%nat ->
  update_bar env {| mixer := music_play m; i_lines := i_lines w; m_file := path;
                    stdout := stdout w |} = Raise e ->
  key_page_down env draw w
  = ({| mixer := music_play m;
        i_lines := <[0%nat := (strip_path_from_filename path, false)]> (i_lines w);
        m_file := path; stdout := stdout w |}, Raise e)
  /\ track_ended env draw w
     = ({| mixer := music_play m;
           i_lines := <[0%nat := (strip_path_from_filename path, false)]> (i_lines w);
           m_file := path; stdout := stdout w |}, Raise e).
Proof.
  intros Hr Hl Hlen Hb.
  pose proof (play_random_file_bar_error draw w path m e Hr Hl Hlen Hb) as Hp.
  assert (He : e <> PygameError).
  { destruct (update_bar_raise env _ e Hb) as [-> | [-> | ->]]; discriminate. }
  unfold key_page_down, track_ended, try_except_pygame. rewrite Hp.
  by destruct e.
Qed.

End ShuffleError.

(** X27: on a non-empty panel, an exception raised by [update_bar] after a
    successful load is not caught: the PAGE DOWN branch and the
    end-of-track handler both end with it, the new track loaded and playing, [m_file] and the title updated,
    the rest of the panel stale and nothing printed; a PAGE DOWN press
    (the key's count being even before it) ends [keyboard_listener] with
    that exception. *)
Theorem shuffle_update_error {M : Type} `{Playback M} (env : Env) (draw : nat)
    (w : World M) (path : pystr) (m : M) (e : exn) :
  random_file (fs env) draw (m_file w) = Ok path ->
  music_load path (mixer w) = Ok m ->
  (0 < length (i_lines w))%nat ->
  update_bar env {| mixer := music_play m; i_lines := i_lines w; m_file := path;
                    stdout := stdout w |} = Raise e ->
  let titled := <[0%nat := (strip_path_from_filename path, false)]> (i_lines w) in
  key_page_down env draw w
  = ({| mixer := music_play m; i_lines := titled; m_file := path;
        stdout := stdout w |}, Raise e)
  /\ track_ended env draw w
     = ({| mixer := music_play m; i_lines := titled; m_file := path;
           stdout := stdout w |}, Raise e)
  /\ forall press_or_release events,
       Nat.even (press_or_release KeyPageDown) = true ->
       keyboard_listener env press_or_release ((Press KeyPageDown, draw) :: events) w
       = ({| mixer := music_play m; i_lines := titled; m_file := path;
             stdout := stdout w ++ [PyStr.mul [SPACE] 16 ++ [CARRIAGE_RETURN]] |},
          Died e).
Proof.
  intros Hr Hl Hlen Hb titled.
  destruct (key_page_down_bar_error env draw w path m e Hr Hl Hlen Hb) as [Hk Ht].
  split; [exact Hk|]. split; [exact Ht|].
  intros counts events Hev. cbn [keyboard_listener event_key].
  assert (Hodd : Nat.even (bump counts KeyPageDown KeyPageDown) = false).
  { unfold bump. rewrite decide_True by done.
    by rewrite Nat.even_succ, <- Nat.negb_even, Hev. }
  rewrite Hodd. cbn [key_handler].
  destruct (key_page_down_bar_error env draw (clear_input w).1 path m e) as [Hk' _];
    [exact Hr | exact Hl | exact Hlen | |].
  { rewrite <- Hb. by apply update_bar_ext. }
  rewrite Hk'. reflexivity.
Qed.

Lemma shuffle_update_error_witness :
  track_ended silent_shuffle_env 5 (demo_world true)
  = ({| mixer := {| sm_loaded := lit "music/b.ogg"; sm_busy := true; sm_pos := 0;
                    sm_volume := of_ratio 1 1 |};
        i_lines := <[0%nat := (lit "b.ogg", false)]> (panel (lit "a.mp3"));
        m_file := lit "music/b.ogg"; stdout := [] |}, Raise ZeroDivisionError).
Proof.
  destruct (shuffle_update_error silent_shuffle_env 5 (demo_world true)
              (lit "music/b.ogg")
              {| sm_loaded := lit "music/b.ogg"; sm_busy := false; sm_pos := 0;
                 sm_volume := of_ratio 1 1 |} ZeroDivisionError)
    as (_ & Ht & _).
  - reflexivity.
  - reflexivity.
  - vm_compute. lia.
  - vm_compute. reflexivity.
  - exact Ht.
Defined.

Section KeepsFile.
Context {M : Type} `{Playback M}.
Variable env : Env.

Lemma keeps_file_bind {A B} (c : Act M A) (k : A -> Act M B) :
  keeps_file c -> (forall a, keeps_file (k a)) -> keeps_file (bind c k).
Proof.
  intros Hc Hk w. unfold bind. specialize (Hc w).
  destruct (c w) as [w' [a|e]]; simpl in *; [|done].
  by rewrite Hk.
Qed.

Lemma keeps_player_file {A} (c : Act M A) : keeps_player c -> keeps_file c.
Proof. intros Hc w. by destruct (Hc w). Qed.

Lemma keeps_file_on_mixer (f : M -> M) : keeps_file (on_mixer f).
Proof. done. Qed.

Lemma keeps_player_poll_tick : keeps_player (poll_tick env).
Proof.
  unfold poll_tick. repeat (apply keeps_bind; [|intros ?]);
    auto using keeps_eval, keeps_set_line, keeps_redraw.
Qed.

Lemma keeps_file_key_pause : keeps_file (key_pause env).
Proof.
  unfold key_pause. apply keeps_file_bind; [done|]. intros busy.
  apply keeps_file_bind; [|intros ?; done].
  destruct busy; (apply keeps_file_bind; [done|]); intros ?;
    apply keeps_player_file, keeps_apply_symbol.
Qed.

Lemma keeps_file_key_volume f : keeps_file (key_volume env f).
Proof.
  unfold key_volume. apply keeps_file_bind; [done|]. intros v.
  apply keeps_file_bind; [done|]. intros ?.
  apply keeps_player_file.
  repeat (apply keeps_bind; [|intros ?]);
    auto using keeps_eval, keeps_set_line, keeps_redraw.
Qed.

Lemma keeps_player_poll_interface (ticks : nat) (w : World M) :
  mixer (poll_interface env ticks w).1 = mixer w
  /\ m_file (poll_interface env ticks w).1 = m_file w.
Proof.
  revert w. induction ticks as [|ticks IH]; intros w; [done|].
  cbn [poll_interface]. destruct (keeps_player_poll_tick w) as [Hm Hf].
  destruct (poll_tick env w) as [w' [u|e]]; cbn [fst] in *.
  - destruct (IH w') as [-> ->]. done.
  - done.
Qed.

End KeepsFile.

(** X28: the periodic update and [resize_handler] change neither the mixer
    nor [m_file]; the PAUSE, F8 and F9 branches leave [m_file] alone; and
    any number of ticks of [poll_interface] leaves the mixer and [m_file]
    as they were, whether the loop still runs or was ended by an
    exception. *)
Theorem display_handlers_keep_player {M : Type} `{Playback M} (env : Env) :
  keeps_player (M:=M) (poll_tick env)
  /\ keeps_player (M:=M) (resize_handler env)
  /\ keeps_file (M:=M) (key_pause env)
  /\ keeps_file (M:=M) (key_f8 env)
  /\ keeps_file (M:=M) (key_f9 env)
  /\ forall (ticks : nat) (w : World M),
       mixer (poll_interface env ticks w).1 = mixer w
       /\ m_file (poll_interface env ticks w).1 = m_file w.
Proof.
  split; [apply keeps_player_poll_tick|]. split; [apply keeps_redraw|].
  split; [apply keeps_file_key_pause|].
  split; [apply keeps_file_key_volume|].
  split; [apply keeps_file_key_volume|].
  apply keeps_player_poll_interface.
Qed.
